(** * Water-sort puzzle generator: a shallow embedding

  The development follows three source files:
  - [src/utils/sort-puzzle-generator.ts]  (module [Generator]),
  - [src/utils/puzzle-adapter.ts]         (module [Adapter]),
  - the puzzle cache (modules [CacheStore] and [PuzzleCache]), whose
    pregeneration memo is a module-level variable.

  JavaScript numbers are embedded as [Z].  The embedding is exact as
  long as every intermediate value stays an integer below 2^53, which
  covers integer configurations, at most about four million draws of
  the generator, and arrays of at most 2^21 cells.  Array-size and
  memory limits of the engine are not modelled. *)

From Stdlib Require Import ZArith List Lia Bool Permutation.
From Stdlib Require String Ascii.
From Stdlib Require DecimalString DecimalZ DecimalPos.
Import String.StringSyntax.
Delimit Scope string_scope with string.
From Stdlib Require Import QArith Qround.
Import ListNotations.
Local Open Scope Z_scope.

(* ================================================================== *)
(** ** 32-bit integer operations of JavaScript *)
(* ================================================================== *)

Module JS.

Definition two32 : Z := 4294967296.
Definition two31 : Z := 2147483648.

(** [ToUint32]: the number modulo 2^32. *)
Definition toUint32 (x : Z) : Z := x mod two32.

(** [ToInt32]: the same residue, read as a signed 32-bit integer. *)
Definition toInt32 (x : Z) : Z :=
  let u := x mod two32 in
  if u <? two31 then u else u - two32.

(** [a ^ b] *)
Definition xor (a b : Z) : Z := Z.lxor (toInt32 a) (toInt32 b).

(** [a | b] *)
Definition bor (a b : Z) : Z := Z.lor (toInt32 a) (toInt32 b).

(** [a >>> n], for a shift count [0 <= n < 32] *)
Definition ushr (a n : Z) : Z := Z.shiftr (toUint32 a) n.

(** [Math.imul(a, b)] *)
Definition imul (a b : Z) : Z := toInt32 (toInt32 a * toInt32 b).

(** [Math.floor(r * n)] for [r = u / 2^32] with [0 <= u < 2^32]: the
    product is exact in double precision whenever [n <= 2^21]. *)
Definition floorMul (u n : Z) : Z := (u * n) / two32.

(** A string is its sequence of UTF-16 code units ([charCodeAt]). *)
Definition JSString : Type := list Z.

Fixpoint codeUnits (s : String.string) : JSString :=
  match s with
  | String.EmptyString => []
  | String.String a s' => Z.of_nat (Ascii.nat_of_ascii a) :: codeUnits s'
  end.

(** Array cell update [a[i] = v]; every use below is in range. *)
Fixpoint upd {A : Type} (i : nat) (v : A) (l : list A) : list A :=
  match l, i with
  | [], _ => []
  | _ :: l', O => v :: l'
  | x :: l', S i' => x :: upd i' v l'
  end.

(** [[a[i], a[j]] = [a[j], a[i]]]: both cells are read, then [a[i]]
    and [a[j]] are written in this order. *)
Definition swap {A : Type} (i j : nat) (l : list A) : list A :=
  match nth_error l i, nth_error l j with
  | Some x, Some y => upd j x (upd i y l)
  | _, _ => l
  end.

End JS.

(* ================================================================== *)
(** ** sort-puzzle-generator.ts *)
(* ================================================================== *)

Module Generator.
Import JS.

(** *** RNG: mulberry32 *)

(** The closure returned by [seededRng] owns one variable [t]; a call
    takes the old [t] and returns the numerator [u] of the drawn
    float [u / 2^32] together with the new [t].  [t] is a plain
    number: the source adds to it without truncation. *)
Definition seededRng (seed : Z) : Z := toUint32 seed.

Definition rngNext (t : Z) : Z * Z :=
  let t := t + 0x6D2B79F5 in
  let r := imul (xor t (ushr t 15)) (bor 1 t) in
  let r := xor r (r + imul (xor r (ushr r 7)) (bor 61 r)) in
  (ushr (xor r (ushr r 14)) 0, t).

(** [Math.floor(rng() * n)] *)
Definition randBelow (t n : Z) : Z * Z :=
  let '(u, t') := rngNext t in (floorMul u n, t').

Inductive Seed : Type :=
| SeedUndefined
| SeedNumber (n : Z)
| SeedString (s : JSString).

(** [rnd] is the integer part of [Math.random() * 2 ** 31], the only
    value createPuzzle takes from the environment. *)
Definition makeSeedFrom (rnd : Z) (seed : Seed) : Z :=
  match seed with
  | SeedUndefined => toUint32 rnd
  | SeedNumber n => toUint32 n
  | SeedString s =>
      toUint32
        (fold_left (fun h c => imul (xor h c) 16777619) s
           (toUint32 2166136261))
  end.

(** *** Errors and results *)

Inductive GenError : Type :=
| InvalidConfig          (* tubeSize/tubeCount/colorCount must be > 0 *)
| PerColorLength         (* perColorTubes length must equal colorCount *)
| PerColorSum            (* perColorTubes must sum to tubeCount *)
| PerColorNonPositive    (* perColorTubes contains <= 0 but allowZero=false *)
| TubeCountTooSmall      (* tubeCount < colorCount but allowZeroTubesForColor=false *)
| InternalMismatch.      (* Internal mismatch: tube array incorrect length *)

Inductive result (A : Type) : Type :=
| Ok (a : A)
| Throw (e : GenError).
Arguments Ok {A} a.
Arguments Throw {A} e.

Definition bind {A B : Type} (m : result A) (k : A -> result B) : result B :=
  match m with
  | Ok a => k a
  | Throw e => Throw e
  end.

Notation "x <- m ;; k" := (bind m (fun x => k))
  (at level 61, m at next level, right associativity).
Notation "' p <- m ;; k" := (bind m (fun p => k))
  (at level 61, p pattern, m at next level, right associativity).

Definition guard (throws : bool) (e : GenError) : result unit :=
  if throws then Throw e else Ok tt.

(** *** Configuration and result *)

Record GeneratorConfig : Type := {
  colorCount : Z;
  tubeCount : Z;
  tubeSize : Z;
  perColorTubes : option (list Z);
  shuffleSteps : option Z;
  seed : Seed;
  allowZeroTubesForColor : option bool;
  emptyTubeCount : option Z
}.

(** A cell of a generated tube: [Some c] is the number [c], [None] is
    [undefined] (a read past the end of [allBalls]). *)
Definition Cell : Type := option Z.
Definition Tube : Type := list Cell.
Definition Puzzle : Type := list Tube.

Record PuzzleResult : Type := {
  tubes : Puzzle;
  resPerColorTubes : list Z;
  seedUsed : Z
}.

(** *** Auto distribute tubes among colors *)

(** [while (remaining > 0) { result[idx]++; remaining-- }] *)
Fixpoint distributeRemaining (remaining : nat) (colorCount : Z)
    (t : Z) (res : list Z) : list Z * Z :=
  match remaining with
  | O => (res, t)
  | S remaining' =>
      let '(idx, t') := randBelow t colorCount in
      let i := Z.to_nat idx in
      distributeRemaining remaining' colorCount t'
        (upd i (nth i res 0 + 1) res)
  end.

(** [for (i = 0; i < colorCount - 1; i++) { take = ...; result[i] = take;
    remaining -= take }], started at index [i] with [n] rounds left *)
Fixpoint takeLoop (n : nat) (i : nat) (remaining : Z) (t : Z)
    (res : list Z) : list Z * Z * Z :=
  match n with
  | O => (res, remaining, t)
  | S n' =>
      let '(take, t') := randBelow t (remaining + 1) in
      takeLoop n' (S i) (remaining - take) t' (upd i take res)
  end.

(** [for (i = start; i > 0; i--) { j = Math.floor(rng() * (i + 1));
    swap a[i], a[j] }] *)
Fixpoint fyLoop {A : Type} (i : nat) (t : Z) (a : list A) : list A * Z :=
  match i with
  | O => (a, t)
  | S i' =>
      let '(j, t') := randBelow t (Z.of_nat i + 1) in
      fyLoop i' t' (swap i (Z.to_nat j) a)
  end.

Definition fisherYates {A : Type} (a : list A) (t : Z) : list A * Z :=
  fyLoop (length a - 1)%nat t a.

Definition autoDistributeTubes (colorCount tubeCount : Z) (t : Z)
    (allowZero : bool) : result (list Z * Z) :=
  _ <- guard (negb allowZero && (tubeCount <? colorCount)) TubeCountTooSmall ;;
  let res := repeat 0 (Z.to_nat colorCount) in
  if negb allowZero then
    let res := repeat 1 (Z.to_nat colorCount) in
    Ok (distributeRemaining (Z.to_nat (tubeCount - colorCount)) colorCount t res)
  else
    let '(res, remaining, t) :=
      takeLoop (Z.to_nat (colorCount - 1)) 0 tubeCount t res in
    let res := upd (Z.to_nat (colorCount - 1)) remaining res in
    Ok (fyLoop (Z.to_nat (colorCount - 1)) t res).

(** *** Main export: createPuzzle *)

Definition orDefault {A : Type} (o : option A) (d : A) : A :=
  match o with
  | Some a => a
  | None => d
  end.

(** [perColorTubes.reduce((a, b) => a + b, 0)] *)
Definition sumZ (l : list Z) : Z := fold_left Z.add l 0.

(** Step 1: choose per-color tube occupation. *)
Definition chooseDistribution (config : GeneratorConfig) (allowZero : bool)
    (t : Z) : result (list Z * Z) :=
  match perColorTubes config with
  | Some pct =>
      _ <- guard (negb (Z.of_nat (length pct) =? colorCount config))
             PerColorLength ;;
      _ <- guard (negb (sumZ pct =? tubeCount config)) PerColorSum ;;
      _ <- guard (negb allowZero && existsb (fun v => v <=? 0) pct)
             PerColorNonPositive ;;
      Ok (pct, t)
  | None =>
      autoDistributeTubes (colorCount config) (tubeCount config) t allowZero
  end.

(** Step 2: the solved state, [distribution[c]] full tubes of colour
    [c] for [c = 0 .. colorCount - 1]. *)
Definition solvedTubes (colorCount tubeSize : Z) (distribution : list Z)
    : list (list Z) :=
  flat_map
    (fun c => repeat (repeat (Z.of_nat c) (Z.to_nat tubeSize))
                (Z.to_nat (nth c distribution 0)))
    (seq 0 (Z.to_nat colorCount)).

(** [for (b = 0; b < tubeSize; b++) tube.push(allBalls[ballIndex++])] *)
Fixpoint fillTube (n : nat) (ballIndex : nat) (allBalls : list Z)
    : Tube * nat :=
  match n with
  | O => ([], ballIndex)
  | S n' =>
      let '(tube, k) := fillTube n' (S ballIndex) allBalls in
      (nth_error allBalls ballIndex :: tube, k)
  end.

(** [for (t = 0; t < tubeCount; t++) { ...; finalTubes.push(tube) }] *)
Fixpoint redistribute (n : nat) (size : nat) (ballIndex : nat)
    (allBalls : list Z) : Puzzle :=
  match n with
  | O => []
  | S n' =>
      let '(tube, k) := fillTube size ballIndex allBalls in
      tube :: redistribute n' size k allBalls
  end.

Definition cell_eq_dec (x y : Cell) : {x = y} + {x <> y}.
Proof. decide equality. apply Z.eq_dec. Defined.

(** [new Set(tube).size] *)
Definition setSize (tube : Tube) : Z :=
  Z.of_nat (length (nodup cell_eq_dec tube)).

(** The validation loop: false as soon as one tube has fewer than
    [minColorsPerTube] distinct cells. *)
Definition colorDiversityMet (minColorsPerTube : Z) (finalTubes : Puzzle)
    : bool :=
  forallb (fun tube => negb (setSize tube <? minColorsPerTube)) finalTubes.

Definition maxShuffleAttempts : nat := 100.

Record LoopState : Type := {
  finalTubes : Puzzle;
  attemptCount : nat;
  rngState : Z;
  allBalls : list Z
}.

(** One pass of the body of the while loop up to the diversity test. *)
Definition shuffleOnce (tubeCount tubeSize : Z) (st : LoopState) : LoopState :=
  let '(balls, t) := fisherYates (allBalls st) (rngState st) in
  {| finalTubes := redistribute (Z.to_nat tubeCount) (Z.to_nat tubeSize) 0 balls;
     attemptCount := S (attemptCount st);
     rngState := t;
     allBalls := balls |}.

(** [while (attemptCount < maxShuffleAttempts) { ... if (met) break }];
    [budget] is [maxShuffleAttempts - attemptCount]. *)
Fixpoint shuffleAttempts (budget : nat) (tubeCount tubeSize : Z)
    (minColorsPerTube : Z) (st : LoopState) : LoopState :=
  match budget with
  | O => st
  | S budget' =>
      let st' := shuffleOnce tubeCount tubeSize st in
      if colorDiversityMet minColorsPerTube (finalTubes st') then st'
      else shuffleAttempts budget' tubeCount tubeSize minColorsPerTube st'
  end.

(** Everything createPuzzle does before the shuffle loop; all of its
    [throw] statements are here. *)
Record Prepared : Type := {
  prSeedUsed : Z;
  prDistribution : list Z;
  prEmptyTubes : Z;
  prLoop : LoopState
}.

Definition prepare (rnd : Z) (config : GeneratorConfig) : result Prepared :=
  let allowZero := orDefault (allowZeroTubesForColor config) false in
  _ <- guard ((tubeSize config <=? 0) || (tubeCount config <=? 0)
              || (colorCount config <=? 0)) InvalidConfig ;;
  let seedUsed := makeSeedFrom rnd (seed config) in
  let rng := seededRng seedUsed in
  '(distribution, rng) <- chooseDistribution config allowZero rng ;;
  let emptyTubes := orDefault (emptyTubeCount config) 0 in
  let tubes := solvedTubes (colorCount config) (tubeSize config) distribution in
  _ <- guard (negb (Z.of_nat (length tubes) =? tubeCount config))
         InternalMismatch ;;
  let tubes := tubes ++ repeat [] (Z.to_nat emptyTubes) in
  Ok {| prSeedUsed := seedUsed;
        prDistribution := distribution;
        prEmptyTubes := emptyTubes;
        prLoop := {| finalTubes := [];
                     attemptCount := 0;
                     rngState := rng;
                     allBalls := concat tubes |} |}.

Definition finish (config : GeneratorConfig) (p : Prepared) : PuzzleResult :=
  let minColorsPerTube := Z.min 3 (colorCount config) in
  let st := shuffleAttempts maxShuffleAttempts (tubeCount config)
              (tubeSize config) minColorsPerTube (prLoop p) in
  {| tubes := finalTubes st ++ repeat [] (Z.to_nat (prEmptyTubes p));
     resPerColorTubes := prDistribution p;
     seedUsed := prSeedUsed p |}.

Definition createPuzzle (rnd : Z) (config : GeneratorConfig)
    : result PuzzleResult :=
  p <- prepare rnd config ;;
  Ok (finish config p).

End Generator.

(* ================================================================== *)
(** ** puzzle-adapter.ts *)
(* ================================================================== *)

Module Adapter.
Import JS.

Inductive BallColor : Type :=
| BROWN | ORANGE | LIGHT_PURPLE | GRAY | PINK | PURPLE
| RED | GREEN | FLUORESCENT_GREEN | BLUE | CYAN | YELLOW.

Definition BallColor_eq_dec (x y : BallColor) : {x = y} + {x <> y}.
Proof. decide equality. Defined.

(** [Object.values(BallColor)] *)
Definition BALL_COLORS : list BallColor :=
  [BROWN; ORANGE; LIGHT_PURPLE; GRAY; PINK; PURPLE;
   RED; GREEN; FLUORESCENT_GREEN; BLUE; CYAN; YELLOW].

(** [GAME_CONFIG.TUBE_CAPACITY] and [GAME_CONFIG.TUBE_COUNT] *)
Definition TUBE_CAPACITY : Z := 8.
Definition TUBE_COUNT : Z := 14.

Record PuzzleAdapterConfig : Type := {
  difficulty : Z;
  emptyTubeCount : option Z;
  seed : Generator.Seed;
  shuffleMultiplier : option Q
}.

Record PuzzleAdapterResult : Type := {
  tubes : list (list (option BallColor));
  seedUsed : Z;
  perColorTubes : list Z;
  usedColors : list BallColor
}.

Definition calculateColorDistribution (colorCount filledTubes : Z) : list Z :=
  let tubesPerColor := filledTubes / colorCount in
  let extraTubes := Z.rem filledTubes colorCount in
  map (fun i => if Z.of_nat i <? extraTubes then tubesPerColor + 1
                else tubesPerColor)
      (seq 0 (Z.to_nat colorCount)).

(** [a.slice(0, e)] *)
Definition slice0 {A : Type} (l : list A) (e : Z) : list A :=
  if e <? 0 then firstn (Z.to_nat (Z.of_nat (length l) + e)) l
  else firstn (Z.to_nat e) l.

(** The generator inlined here is the one of [Generator.seededRng]. *)
Definition selectColors (colorCount : Z) (seed : Z) : list BallColor :=
  let t := Generator.seededRng seed in
  let '(colors, _) := Generator.fisherYates BALL_COLORS t in
  slice0 colors colorCount.

(** The locals of generatePuzzleWithAdapter computed before the call
    of createPuzzle. *)
Record Derived : Type := {
  colorCount : Z;
  totalTubes : Z;
  actualEmptyTubes : Z;
  filledTubes : Z;
  tubeSize : Z;
  actualColorCount : Z;
  dPerColorTubes : list Z;
  shuffleSteps : Z
}.

Definition derive (config : PuzzleAdapterConfig) : Derived :=
  let emptyTubeCount := Generator.orDefault (emptyTubeCount config) 2 in
  let shuffleMultiplier := Generator.orDefault (shuffleMultiplier config) 1%Q in
  let colorCount := Z.min 12 (Z.max 3 (difficulty config + 2)) in
  let totalTubes := TUBE_COUNT in
  let actualEmptyTubes := Z.min 6 (Z.max 1 emptyTubeCount) in
  let filledTubes := totalTubes - actualEmptyTubes in
  let tubeSize := TUBE_CAPACITY in
  let actualColorCount := Z.min colorCount filledTubes in
  let perColorTubes := calculateColorDistribution actualColorCount filledTubes in
  let baseShuffleSteps := 200 in
  let difficultyBonus := difficulty config * 20 in
  let shuffleSteps :=
    Qfloor (inject_Z (baseShuffleSteps + difficultyBonus) * shuffleMultiplier)%Q in
  {| colorCount := colorCount;
     totalTubes := totalTubes;
     actualEmptyTubes := actualEmptyTubes;
     filledTubes := filledTubes;
     tubeSize := tubeSize;
     actualColorCount := actualColorCount;
     dPerColorTubes := perColorTubes;
     shuffleSteps := shuffleSteps |}.

Definition generatorConfig (config : PuzzleAdapterConfig)
    : Generator.GeneratorConfig :=
  let d := derive config in
  {| Generator.colorCount := actualColorCount d;
     Generator.tubeCount := filledTubes d;
     Generator.tubeSize := tubeSize d;
     Generator.perColorTubes := Some (dPerColorTubes d);
     Generator.shuffleSteps := Some (shuffleSteps d);
     Generator.seed := seed config;
     Generator.allowZeroTubesForColor := Some false;
     Generator.emptyTubeCount := Some (actualEmptyTubes d) |}.

(** [usedColors[colorIndex]]; a negative or too large index, and the
    index [undefined], read [undefined]. *)
Definition colorAt (usedColors : list BallColor) (colorIndex : Generator.Cell)
    : option BallColor :=
  match colorIndex with
  | Some c => if c <? 0 then None else nth_error usedColors (Z.to_nat c)
  | None => None
  end.

Definition generatePuzzleWithAdapter (rnd : Z) (config : PuzzleAdapterConfig)
    : Generator.result PuzzleAdapterResult :=
  let d := derive config in
  Generator.bind (Generator.createPuzzle rnd (generatorConfig config))
    (fun result =>
       let usedColors := selectColors (colorCount d) (Generator.seedUsed result) in
       let tubeContents :=
         map (fun tube => map (colorAt usedColors) tube) (Generator.tubes result) in
       Generator.Ok
         {| tubes := tubeContents;
            seedUsed := Generator.seedUsed result;
            perColorTubes := Generator.resPerColorTubes result;
            usedColors := usedColors |}).

(** *** validatePuzzle *)

(** The four messages pushed to [errors], with the values they print. *)
Inductive ValidationError : Type :=
| TubeCountError (n : nat)                           (* tubes.length != 14 *)
| TubeCapacityError (len : nat)                      (* tube.length not 0 or 8 *)
| EmptyTubeCountError (n : Z)                        (* emptyTubeCount != 2 *)
| ColorCountError (color : BallColor) (count : Z).   (* count % 8 != 0 *)

(** [Map<BallColor, number>]: entries in insertion order. *)
Definition ColorMap : Type := list (BallColor * Z).

Fixpoint mapGet (k : BallColor) (m : ColorMap) : option Z :=
  match m with
  | [] => None
  | (k', v) :: m' => if BallColor_eq_dec k k' then Some v else mapGet k m'
  end.

Fixpoint mapSet (k : BallColor) (v : Z) (m : ColorMap) : ColorMap :=
  match m with
  | [] => [(k, v)]
  | (k', v') :: m' =>
      if BallColor_eq_dec k k' then (k, v) :: m' else (k', v') :: mapSet k v m'
  end.

Record Scan : Type := {
  errors : list ValidationError;
  colorCounts : ColorMap;
  filledTubeCount : Z;
  scEmptyTubeCount : Z
}.

(** [colorCounts.set(ball, (colorCounts.get(ball) || 0) + 1)] *)
Definition countBall (m : ColorMap) (ball : BallColor) : ColorMap :=
  let old := match mapGet ball m with
             | Some v => if v =? 0 then 0 else v
             | None => 0
             end in
  mapSet ball (old + 1) m.

(** The body of [for (const tube of tubes)]. *)
Definition scanTube (capacity : Z) (sc : Scan) (tube : list BallColor) : Scan :=
  if Z.of_nat (length tube) =? 0 then
    {| errors := errors sc; colorCounts := colorCounts sc;
       filledTubeCount := filledTubeCount sc;
       scEmptyTubeCount := scEmptyTubeCount sc + 1 |}
  else if Z.of_nat (length tube) =? capacity then
    {| errors := errors sc;
       colorCounts := fold_left countBall tube (colorCounts sc);
       filledTubeCount := filledTubeCount sc + 1;
       scEmptyTubeCount := scEmptyTubeCount sc |}
  else
    {| errors := errors sc ++ [TubeCapacityError (length tube)];
       colorCounts := colorCounts sc;
       filledTubeCount := filledTubeCount sc;
       scEmptyTubeCount := scEmptyTubeCount sc |}.

(** [for (const [color, count] of colorCounts) if (count % capacity !== 0) ...] *)
Definition colorErrors (capacity : Z) (m : ColorMap) : list ValidationError :=
  flat_map (fun '(color, count) =>
              if Z.rem count capacity =? 0 then []
              else [ColorCountError color count]) m.

Record Validation : Type := {
  valid : bool;
  vErrors : list ValidationError
}.

Definition validatePuzzle (tubes : list (list BallColor)) : Validation :=
  let capacity := TUBE_CAPACITY in
  let errors0 :=
    if Z.of_nat (length tubes) =? TUBE_COUNT then []
    else [TubeCountError (length tubes)] in
  let sc := fold_left (scanTube capacity) tubes
              {| errors := errors0; colorCounts := [];
                 filledTubeCount := 0; scEmptyTubeCount := 0 |} in
  let errors1 :=
    if scEmptyTubeCount sc =? 2 then errors sc
    else errors sc ++ [EmptyTubeCountError (scEmptyTubeCount sc)] in
  let errors2 := errors1 ++ colorErrors capacity (colorCounts sc) in
  {| valid := match errors2 with [] => true | _ => false end;
     vErrors := errors2 |}.

End Adapter.

(* ================================================================== *)
(** ** Statements about the generator *)
(* ================================================================== *)

Module GeneratorSpec.
Import JS Generator.

Definition allowZeroOf (config : GeneratorConfig) : bool :=
  orDefault (allowZeroTubesForColor config) false.

(** The guards of createPuzzle, read off the code. *)
Definition accepted (config : GeneratorConfig) : Prop :=
  0 < tubeSize config /\ 0 < tubeCount config /\ 0 < colorCount config /\
  match perColorTubes config with
  | Some pct =>
      Z.of_nat (length pct) = colorCount config /\
      sumZ pct = tubeCount config /\
      (allowZeroOf config = false -> Forall (fun v => 0 < v) pct) /\
      Forall (fun v => 0 <= v) pct
  | None => allowZeroOf config = false -> colorCount config <= tubeCount config
  end.

(** A distribution of the right length and sum. *)
Record Chosen (config : GeneratorConfig) (dist : list Z) : Prop := {
  chosen_length : length dist = Z.to_nat (colorCount config);
  chosen_sum : sumZ dist = tubeCount config
}.

(** What [prepare] hands to the loop. *)
Record PreparedFor (rnd : Z) (config : GeneratorConfig) (p : Prepared) : Prop := {
  pf_seed : prSeedUsed p = makeSeedFrom rnd (seed config);
  pf_chosen : Chosen config (prDistribution p);
  pf_nonneg : Forall (fun v => 0 <= v) (prDistribution p);
  pf_empty : prEmptyTubes p = orDefault (emptyTubeCount config) 0;
  pf_balls : allBalls (prLoop p)
             = concat (solvedTubes (colorCount config) (tubeSize config)
                         (prDistribution p));
  pf_count : attemptCount (prLoop p) = 0%nat
}.


Definition returns (rnd : Z) (config : GeneratorConfig) : Prop :=
  exists res, createPuzzle rnd config = Ok res.



(** Sum of the lengths of all tubes. *)
Definition totalBalls (p : Puzzle) : Z := Z.of_nat (list_sum (map (@length Cell) p)).

(** Occurrences of colour [c] across all tubes. *)
Definition occurrences (c : Z) (p : Puzzle) : Z :=
  Z.of_nat (count_occ cell_eq_dec (concat p) (Some c)).

(** The diversity condition of the retry loop. *)
Definition minColors (config : GeneratorConfig) : Z := Z.min 3 (colorCount config).

(** The state after [k] passes of the loop body. *)
Definition afterPasses (config : GeneratorConfig) (p : Prepared) (k : nat) : LoopState :=
  Nat.iter k (shuffleOnce (tubeCount config) (tubeSize config)) (prLoop p).

(** Configurations used as examples. *)
Definition config_example : GeneratorConfig :=
  {| colorCount := 3; tubeCount := 6; tubeSize := 4; perColorTubes := None;
     shuffleSteps := None; seed := SeedNumber 42;
     allowZeroTubesForColor := None; emptyTubeCount := Some 2 |}.

Definition config_level1 : GeneratorConfig :=
  {| colorCount := 5; tubeCount := 12; tubeSize := 8; perColorTubes := None;
     shuffleSteps := Some 200; seed := SeedString (codeUnits "level-1"%string);
     allowZeroTubesForColor := None; emptyTubeCount := None |}.


Definition config_undiverse : GeneratorConfig :=
  {| colorCount := 2; tubeCount := 2; tubeSize := 1; perColorTubes := None;
     shuffleSteps := None; seed := SeedNumber 7;
     allowZeroTubesForColor := None; emptyTubeCount := Some 1 |}.

(** The puzzle [createPuzzle] returns for [config_example]. *)
Definition result_example : PuzzleResult :=
  {| tubes :=
       [[Some 2; Some 2; Some 1; Some 1];
        [Some 0; Some 1; Some 1; Some 0];
        [Some 1; Some 1; Some 0; Some 0];
        [Some 1; Some 2; Some 1; Some 2];
        [Some 1; Some 2; Some 2; Some 1];
        [Some 1; Some 2; Some 2; Some 1]; []; []];
     resPerColorTubes := [1; 3; 2];
     seedUsed := 42 |}.

(** What [prepare] returns for [config_undiverse]. *)
Definition prepared_undiverse : Prepared :=
  {| prSeedUsed := 7;
     prDistribution := [1; 1];
     prEmptyTubes := 1;
     prLoop := {| finalTubes := []; attemptCount := 0;
                  rngState := 7; allBalls := [0; 1] |} |}.

(** The concrete example as the specification words it. *)
Definition exampleAsStated (res : PuzzleResult) : Prop :=
  length (tubes res) = 8%nat /\
  Forall (fun tube => length tube = 4%nat) (firstn 6 (tubes res)) /\
  Forall (fun tube => length tube = 0%nat) (skipn 6 (tubes res)) /\
  occurrences 0 (tubes res) = 6 /\
  occurrences 1 (tubes res) = 6 /\
  occurrences 2 (tubes res) = 6.

End GeneratorSpec.

(* ================================================================== *)
(** ** Statements about the adapter and the cache *)
(* ================================================================== *)

Module AdapterSpec.
Import JS Adapter.

(** [clamp(x, lo, hi)] in the words of the specification. *)
Definition clamp (x lo hi : Z) : Z :=
  if x <? lo then lo else if hi <? x then hi else x.

(** The share of colour [i] when [total] tubes are split evenly over
    [n] colours and the first [total mod n] colours get one more. *)
Definition evenShare (total n : Z) (i : nat) : Z :=
  total / n + (if Z.of_nat i <? total mod n then 1 else 0).

(** The empty-tube count the adapter starts from. *)
Definition requestedEmpty (config : PuzzleAdapterConfig) : Z :=
  Generator.orDefault (emptyTubeCount config) 2.

(** The three kinds of tube: empty, full, and of any other length. *)
Definition isEmpty (tube : list BallColor) : bool := (length tube =? 0)%nat.
Definition isFull (tube : list BallColor) : bool := (length tube =? 8)%nat.
Definition isOdd (tube : list BallColor) : bool :=
  negb (isEmpty tube) && negb (isFull tube).

(** Number of empty tubes of a board. *)
Definition emptyTubes (tubes : list (list BallColor)) : nat :=
  length (filter isEmpty tubes).

(** Balls of colour [c] over the full tubes of a board. *)
Definition colorTotal (c : BallColor) (tubes : list (list BallColor)) : Z :=
  Z.of_nat (count_occ BallColor_eq_dec (concat (filter isFull tubes)) c).

(** [m] holds exactly the colours of non-zero count, with their count. *)
Definition represents (m : ColorMap) (f : BallColor -> Z) : Prop :=
  NoDup (map fst m) /\
  forall c, 0 <= f c /\ mapGet c m = if f c =? 0 then None else Some (f c).

(** The four kinds of violation. *)
Definition wrongTubeCount (tubes : list (list BallColor)) : Prop :=
  length tubes <> 14%nat.

Definition wrongTubeLength (tubes : list (list BallColor)) : Prop :=
  exists tube, In tube tubes /\ length tube <> 0%nat /\ length tube <> 8%nat.

Definition wrongEmptyCount (tubes : list (list BallColor)) : Prop :=
  emptyTubes tubes <> 2%nat.

Definition wrongColorTotal (tubes : list (list BallColor)) : Prop :=
  exists c, colorTotal c tubes mod 8 <> 0.

Definition adapterConfig (d : Z) (e : option Z) (s : Generator.Seed)
    : PuzzleAdapterConfig :=
  {| difficulty := d; emptyTubeCount := e; seed := s;
     shuffleMultiplier := None |}.

(** A solved board: twelve full tubes and two empty ones. *)
Definition board_solved : list (list BallColor) :=
  map (fun c => repeat c 8) BALL_COLORS ++ [[]; []].

End AdapterSpec.

(* ================================================================== *)
(** ** Variations of a generator configuration *)
(* ================================================================== *)

Module GeneratorVariants.
Import JS Generator.

(** [{ ...config, seed: s }] *)
Definition withSeed (config : GeneratorConfig) (s : Seed) : GeneratorConfig :=
  {| colorCount := colorCount config;
     tubeCount := tubeCount config;
     tubeSize := tubeSize config;
     perColorTubes := perColorTubes config;
     shuffleSteps := shuffleSteps config;
     seed := s;
     allowZeroTubesForColor := allowZeroTubesForColor config;
     emptyTubeCount := emptyTubeCount config |}.

(** [{ ...config, emptyTubeCount: e }] *)
Definition withEmptyTubes (config : GeneratorConfig) (e : option Z)
    : GeneratorConfig :=
  {| colorCount := colorCount config;
     tubeCount := tubeCount config;
     tubeSize := tubeSize config;
     perColorTubes := perColorTubes config;
     shuffleSteps := shuffleSteps config;
     seed := seed config;
     allowZeroTubesForColor := allowZeroTubesForColor config;
     emptyTubeCount := e |}.

(** What one call of the generator adds to its variable [t]. *)
Definition rngIncrement : Z := 0x6D2B79F5.

(** The least count a colour may get from autoDistributeTubes. *)
Definition leastTubes (allowZero : bool) : Z := if allowZero then 0 else 1.

End GeneratorVariants.

(* ================================================================== *)
(** ** sort-puzzle-generator.ts: pour rule helpers *)
(* ================================================================== *)

Module Pour.
Import JS Generator.

(** [tube[tube.length - 1]], [undefined] on the empty array. *)
Definition topOf (tube : Tube) : Cell := last tube None.

Definition sameCell (x y : Cell) : bool :=
  if cell_eq_dec x y then true else false.

Definition canPour (from to : Tube) (tubeSize : Z) : bool :=
  if (length from =? 0)%nat then false
  else if tubeSize <=? Z.of_nat (length to) then false
  else
    let color := topOf from in
    if (length to =? 0)%nat then true
    else sameCell (topOf to) color.

(** The while loop of pourOnce; [fuel] bounds the number of pops and
    is the length of [from] at the call. *)
Fixpoint pourLoop (fuel : nat) (color : Cell) (limit tubeSize : Z)
    (moved : Z) (from to : Tube) : Z * Tube * Tube :=
  match fuel with
  | O => (moved, from, to)
  | S fuel' =>
      if (moved <? limit)
         && negb (length from =? 0)%nat
         && sameCell (topOf from) color
         && (Z.of_nat (length to) <? tubeSize)
      then pourLoop fuel' color limit tubeSize (moved + 1)
             (removelast from) (to ++ [topOf from])
      else (moved, from, to)
  end.

(** Returns the number of balls moved with the two tubes as the call
    leaves them; [maxPour] defaults to 8. *)
Definition pourOnce (from to : Tube) (tubeSize : Z) (maxPour : option Z)
    : Z * Tube * Tube :=
  let maxPour := orDefault maxPour 8 in
  if negb (canPour from to tubeSize) then (0, from, to)
  else
    let color := topOf from in
    let limit := Z.min maxPour (tubeSize - Z.of_nat (length to)) in
    pourLoop (length from) color limit tubeSize 0 from to.

End Pour.

(* ================================================================== *)
(** ** An adapter run used as example *)
(* ================================================================== *)

Module AdapterExample.
Import JS Adapter AdapterSpec.

Definition optColor_eq_dec (x y : option BallColor) : {x = y} + {x <> y}.
Proof. decide equality. apply BallColor_eq_dec. Defined.

(** The index below [acc] at which the palette holds [col], if any. *)
Definition paletteIndex (palette : list BallColor) (acc : nat) (col : BallColor)
    : option nat :=
  find (fun i => if optColor_eq_dec (nth_error palette i) (Some col)
                 then true else false) (seq 0 acc).

(** Occurrences of a named colour over all tubes of an adapter board. *)
Definition colorOccurrences (col : BallColor) (tubes : list (list (option BallColor)))
    : Z :=
  Z.of_nat (count_occ optColor_eq_dec (concat tubes) (Some col)).

(** Two boards with the same tubes up to the order of the tubes and
    the order of the balls inside each tube. *)
Definition sameBoard (a b : list (list BallColor)) : Prop :=
  exists mid, Permutation a mid /\ Forall2 (@Permutation BallColor) mid b.

(** Difficulty 1, the default two empty tubes, seed 42. *)
Definition example_config : PuzzleAdapterConfig :=
  adapterConfig 1 None (Generator.SeedNumber 42).

Definition no_result : PuzzleAdapterResult :=
  {| tubes := []; seedUsed := 0; perColorTubes := []; usedColors := [] |}.

(** What generatePuzzleWithAdapter returns for it. *)
Definition example_result : PuzzleAdapterResult :=
  Eval vm_compute in
    match generatePuzzleWithAdapter 0 example_config with
    | Generator.Ok res => res
    | Generator.Throw _ => no_result
    end.

(** The same board with its cells read as colours. *)
Definition example_board : list (list BallColor) :=
  Eval vm_compute in
    map (map (fun cell => match cell with Some c => c | None => BROWN end))
      (tubes example_result).

End AdapterExample.

(* ================================================================== *)
(** ** The puzzle cache: keys, entries and the body of pregeneration *)
(* ================================================================== *)

Module CacheStore.
Import JS Adapter.

(** [String(n)] for an integer [n] (plain decimal digits, which is
    what JavaScript prints below 10^21). *)
Definition showZ (z : Z) : String.string :=
  DecimalString.NilEmpty.string_of_int (Z.to_int z).

Definition cacheKey (difficulty emptyTubeCount : Z) : String.string :=
  String.append (showZ difficulty)
    (String.append "-"%string (showZ emptyTubeCount)).

(** [Map<string, V>] and objects [Record<string, V>]: entries in
    insertion order, one per key. *)
Definition StringMap (V : Type) : Type := list (String.string * V).

Fixpoint sget {V : Type} (k : String.string) (m : StringMap V) : option V :=
  match m with
  | [] => None
  | (k', v) :: m' => if String.eqb k k' then Some v else sget k m'
  end.

Fixpoint sset {V : Type} (k : String.string) (v : V) (m : StringMap V)
    : StringMap V :=
  match m with
  | [] => [(k, v)]
  | (k', v') :: m' =>
      if String.eqb k k' then (k, v) :: m' else (k', v') :: sset k v m'
  end.

(** A puzzle as JSON holds it: every field may be missing. *)
Record JsonPuzzle : Type := {
  jTubes : option (list (list (option BallColor)));
  jSeedUsed : option Z;
  jPerColorTubes : option (list Z);
  jUsedColors : option (list BallColor)
}.

Definition noFields : JsonPuzzle :=
  {| jTubes := None; jSeedUsed := None; jPerColorTubes := None;
     jUsedColors := None |}.

(** An entry of [puzzles]: nested ([item.puzzle]) or flat ([item.tubes],
    [item.seedUsed], ...), with [item.difficulty] and
    [item.emptyTubeCount]. *)
Record JsonItem : Type := {
  jPuzzle : option JsonPuzzle;
  jFlat : JsonPuzzle;
  jDifficulty : option Z;
  jEmptyTubeCount : option Z
}.

(** [item.puzzle?.tubes], read as a condition *)
Definition hasNestedTubes (item : JsonItem) : bool :=
  match jPuzzle item with
  | Some p => match jTubes p with Some _ => true | None => false end
  | None => false
  end.

Definition toCachedPuzzleData (item : option JsonItem)
    (difficulty emptyTubeCount : Z) : option JsonItem :=
  match item with
  | None => None
  | Some item =>
      if hasNestedTubes item then Some item
      else
        match jTubes (jFlat item) with
        | Some tubes =>
            Some {| jPuzzle :=
                      Some {| jTubes := Some tubes;
                              jSeedUsed :=
                                Some (Generator.orDefault (jSeedUsed (jFlat item)) 0);
                              jPerColorTubes :=
                                Some (Generator.orDefault
                                        (jPerColorTubes (jFlat item)) []);
                              jUsedColors :=
                                Some (Generator.orDefault
                                        (jUsedColors (jFlat item)) []) |};
                    jFlat := noFields;
                    jDifficulty :=
                      Some (Generator.orDefault (jDifficulty item) difficulty);
                    jEmptyTubeCount :=
                      Some (Generator.orDefault (jEmptyTubeCount item)
                              emptyTubeCount) |}
        | None => None
        end
  end.

(** A result of the adapter as a JSON puzzle. *)
Definition ofResult (res : PuzzleAdapterResult) : JsonPuzzle :=
  {| jTubes := Some (tubes res);
     jSeedUsed := Some (seedUsed res);
     jPerColorTubes := Some (perColorTubes res);
     jUsedColors := Some (usedColors res) |}.

(** [{ puzzle, difficulty: d, emptyTubeCount }], the entry built by
    live generation. *)
Definition liveItem (res : PuzzleAdapterResult) (d e : Z) : JsonItem :=
  {| jPuzzle := Some (ofResult res); jFlat := noFields;
     jDifficulty := Some d; jEmptyTubeCount := Some e |}.

(** [{ ...result, difficulty: d, emptyTubeCount }], the entry written
    by scripts/generate-puzzles.ts. *)
Definition scriptItem (res : PuzzleAdapterResult) (d e : Z) : JsonItem :=
  {| jPuzzle := None; jFlat := ofResult res;
     jDifficulty := Some d; jEmptyTubeCount := Some e |}.

Record StoredPuzzles : Type := {
  version : Z;
  spEmptyTubeCount : Z;
  puzzles : StringMap JsonItem
}.

(** What the body of pregeneration reads from outside: the configured
    emptyTubeCount, the embedded puzzles-config when it parses to an
    object with puzzles and a numeric emptyTubeCount, the draw of
    Math.random used for each tier, and whether local storage accepts
    a write. *)
Record Env : Type := {
  configValue : Z;
  embeddedConfig : option StoredPuzzles;
  random : Z -> Z;
  storageWritable : bool
}.

(** The module-level [cache] and the parsed content of local storage. *)
Record State : Type := {
  cache : StringMap JsonItem;
  storage : option StoredPuzzles
}.

Definition tiers : list Z := [1; 5; 9].

Definition getCachedPuzzle (st : State) (difficulty emptyTubeCount : Z)
    : option JsonItem :=
  sget (cacheKey difficulty emptyTubeCount) (cache st).

Definition loadPuzzlesConfig (env : Env) (emptyTubeCount : Z)
    : option StoredPuzzles :=
  match embeddedConfig env with
  | Some parsed =>
      if spEmptyTubeCount parsed =? emptyTubeCount then Some parsed else None
  | None => None
  end.

(** The three loops over [1, 5, 9], one pass each. *)
Definition fromConfigStep (e : Z) (config : StoredPuzzles)
    (c : StringMap JsonItem) (d : Z) : StringMap JsonItem :=
  match toCachedPuzzleData (sget (showZ d) (puzzles config)) d e with
  | Some parsed => sset (cacheKey d e) parsed c
  | None => c
  end.

Definition fromStorageStep (e : Z) (stored : StoredPuzzles)
    (c : StringMap JsonItem) (d : Z) : StringMap JsonItem :=
  match sget (showZ d) (puzzles stored) with
  | Some item => if hasNestedTubes item then sset (cacheKey d e) item c else c
  | None => c
  end.

Definition tierConfig (d e : Z) : PuzzleAdapterConfig :=
  {| difficulty := d; emptyTubeCount := Some e;
     seed := Generator.SeedUndefined; shuffleMultiplier := None |}.

Definition generateStep (env : Env) (e : Z)
    (acc : StringMap JsonItem * StringMap JsonItem) (d : Z)
    : StringMap JsonItem * StringMap JsonItem :=
  let '(c, saved) := acc in
  match generatePuzzleWithAdapter (random env d) (tierConfig d e) with
  | Generator.Ok puzzle =>
      let item := liveItem puzzle d e in
      (sset (cacheKey d e) item c, sset (showZ d) item saved)
  | Generator.Throw _ => (c, saved)
  end.

Definition saveToStorage (env : Env) (e : Z) (data : StringMap JsonItem)
    (old : option StoredPuzzles) : option StoredPuzzles :=
  if storageWritable env
  then Some {| version := 1; spEmptyTubeCount := e; puzzles := data |}
  else old.

(** The [then] callback of pregeneratePuzzles. *)
Definition pregenerateBody (env : Env) (st : State) : State :=
  let emptyTubeCount := Z.max 1 (Z.min 6 (configValue env)) in
  match loadPuzzlesConfig env emptyTubeCount with
  | Some fromConfig =>
      {| cache := fold_left (fromConfigStep emptyTubeCount fromConfig) tiers (cache st);
         storage := storage st |}
  | None =>
      match storage st with
      | Some stored =>
          if spEmptyTubeCount stored =? emptyTubeCount then
            {| cache := fold_left (fromStorageStep emptyTubeCount stored) tiers
                          (cache st);
               storage := storage st |}
          else
            let '(c, saved) :=
              fold_left (generateStep env emptyTubeCount) tiers (cache st, []) in
            {| cache := c;
               storage := saveToStorage env emptyTubeCount saved (storage st) |}
      | None =>
          let '(c, saved) :=
            fold_left (generateStep env emptyTubeCount) tiers (cache st, []) in
          {| cache := c;
             storage := saveToStorage env emptyTubeCount saved (storage st) |}
      end
  end.

(** The emptyTubeCount the body works with. *)
Definition clampedEmpty (env : Env) : Z := Z.max 1 (Z.min 6 (configValue env)).

(** Which of the three sources the body ends up using. *)
Inductive Source : Type :=
| FromConfig (config : StoredPuzzles)
| FromStorage (stored : StoredPuzzles)
| Live.

Definition sourceOf (env : Env) (st : State) : Source :=
  match loadPuzzlesConfig env (clampedEmpty env) with
  | Some config => FromConfig config
  | None =>
      match storage st with
      | Some stored =>
          if spEmptyTubeCount stored =? clampedEmpty env
          then FromStorage stored else Live
      | None => Live
      end
  end.

(** scripts/generate-puzzles.ts: one puzzle per tier, written flat
    under the key [String(d)]; a throw of the adapter would end the
    script.  [outputEmpty] is [outputConfig.emptyTubeCount]. *)
Definition scriptStep (e : Z) (random : Z -> Z)
    (acc : Generator.result (StringMap JsonItem)) (d : Z)
    : Generator.result (StringMap JsonItem) :=
  Generator.bind acc (fun written =>
  Generator.bind (generatePuzzleWithAdapter (random d) (tierConfig d e))
    (fun result =>
       Generator.Ok (sset (showZ d) (scriptItem result d e) written))).

Definition generatePuzzlesScript (outputEmpty : option Z) (random : Z -> Z)
    : Generator.result StoredPuzzles :=
  let emptyTubeCount := Z.max 1 (Z.min 6 (Generator.orDefault outputEmpty 2)) in
  Generator.bind
    (fold_left (scriptStep emptyTubeCount random) tiers (Generator.Ok []))
    (fun written =>
       Generator.Ok {| version := 1; spEmptyTubeCount := emptyTubeCount;
                       puzzles := written |}).

(** A session that starts with an empty cache. *)
Definition freshSession (stored : option StoredPuzzles) : State :=
  {| cache := []; storage := stored |}.

(** Preloader.generatePuzzle, after [await waitForPregenerate()]: the
    cached entry when there is one, else a fresh puzzle; the [catch]
    branch generates again with emptyTubeCount 2.  [selected] is
    [getPersistentSelectedLevel()], [rnd] and [rndCatch] the draws of
    Math.random the two generations would make. *)
Definition preloaderGeneratePuzzle (env : Env) (st : State)
    (selected rnd rndCatch : Z) : Generator.result JsonItem :=
  let actualDifficulty := Z.max 1 (Z.min 10 selected) in
  let actualEmptyTubeCount := Z.max 1 (Z.min 6 (configValue env)) in
  match getCachedPuzzle st actualDifficulty actualEmptyTubeCount with
  | Some cached => Generator.Ok cached
  | None =>
      match generatePuzzleWithAdapter rnd
              (tierConfig actualDifficulty actualEmptyTubeCount) with
      | Generator.Ok puzzle =>
          Generator.Ok (liveItem puzzle actualDifficulty actualEmptyTubeCount)
      | Generator.Throw _ =>
          let diff := Z.max 1 (Z.min 10 selected) in
          Generator.bind (generatePuzzleWithAdapter rndCatch (tierConfig diff 2))
            (fun puzzle => Generator.Ok (liveItem puzzle diff 2))
      end
  end.

(** A first start: nothing embedded, storage writable, emptyTubeCount 2. *)
Definition env_first_start : Env :=
  {| configValue := 2; embeddedConfig := None;
     random := fun d => 1000 * d; storageWritable := true |}.

(** A later start of the same installation, with other draws. *)
Definition env_later_start : Env :=
  {| configValue := 2; embeddedConfig := None;
     random := fun d => 7 + d; storageWritable := true |}.

(** A cache that already holds an entry for difficulty 3. *)
Definition state_with_entry : State :=
  {| cache := [(cacheKey 3 2, liveItem AdapterExample.example_result 3 2)];
     storage := None |}.

(** What the build script writes with these draws and no
    emptyTubeCount in output-config, and a start that embeds it. *)
Definition script_draws (d : Z) : Z := 1000 * d.

Definition no_stored : StoredPuzzles :=
  {| version := 0; spEmptyTubeCount := 0; puzzles := [] |}.

Definition script_output : StoredPuzzles :=
  Eval vm_compute in
    match generatePuzzlesScript None script_draws with
    | Generator.Ok config => config
    | Generator.Throw _ => no_stored
    end.

Definition env_embedded : Env :=
  {| configValue := 2; embeddedConfig := Some script_output;
     random := fun d => 7 + d; storageWritable := true |}.

(** The separator of a key, and the texts that hold none. *)
Definition dash : Ascii.ascii :=
  Ascii.Ascii true false true true false true false false.

Fixpoint noDash (s : String.string) : Prop :=
  match s with
  | String.EmptyString => True
  | String.String c s' => c <> dash /\ noDash s'
  end.

(** The keys the body may write for the clamped emptyTubeCount [e]. *)
Definition tierKey (e d' e' : Z) : bool :=
  (e' =? e) && ((d' =? 1) || (d' =? 5) || (d' =? 9)).

End CacheStore.

(* ================================================================== *)
(** ** The puzzle cache: the pregeneration memo and its chains *)
(* ================================================================== *)

Module PuzzleCache.
Import JS Adapter CacheStore.

(** Where a chain started by pregeneratePuzzles stands.  The code
    runs to completion between two awaits, so a chain moves from one
    of these points to the next in one uninterrupted step. *)
Inductive Phase : Type :=
| AwaitOutputConfig
    (* [getOutputConfigAsync()] pending: the callback has not run *)
| AwaitConfigValue
    (* in the callback, at [await getOutputConfigValueAsync(...)] *)
| AwaitPuzzlesConfig (emptyTubeCount : Z) (fromConfig : option StoredPuzzles)
    (* at [await loadPuzzlesConfig(emptyTubeCount)], whose body has run *)
| Returned
    (* the callback has returned; [.then(() => undefined)] pending *)
| Settled.
    (* the promise of the chain is fulfilled *)

(** The callback from the second await to its end: the only part that
    reads or writes the cache and local storage. *)
Definition resumeBody (env : Env) (emptyTubeCount : Z)
    (fromConfig : option StoredPuzzles) (st : State) : State :=
  match fromConfig with
  | Some fromConfig =>
      {| cache := fold_left (fromConfigStep emptyTubeCount fromConfig) tiers
                    (cache st);
         storage := storage st |}
  | None =>
      match storage st with
      | Some stored =>
          if spEmptyTubeCount stored =? emptyTubeCount then
            {| cache := fold_left (fromStorageStep emptyTubeCount stored) tiers
                          (cache st);
               storage := storage st |}
          else
            let '(c, saved) :=
              fold_left (generateStep env emptyTubeCount) tiers (cache st, []) in
            {| cache := c;
               storage := saveToStorage env emptyTubeCount saved (storage st) |}
      | None =>
          let '(c, saved) :=
            fold_left (generateStep env emptyTubeCount) tiers (cache st, []) in
          {| cache := c;
             storage := saveToStorage env emptyTubeCount saved (storage st) |}
      end
  end.

(** One step of a chain, with what it reads from outside ([env]) and
    the cache and storage it shares with the other chains. *)
Definition advance (env : Env) (phase : Phase) (st : State) : Phase * State :=
  match phase with
  | AwaitOutputConfig => (AwaitConfigValue, st)
  | AwaitConfigValue =>
      let emptyTubeCount := Z.max 1 (Z.min 6 (configValue env)) in
      (AwaitPuzzlesConfig emptyTubeCount (loadPuzzlesConfig env emptyTubeCount),
       st)
  | AwaitPuzzlesConfig emptyTubeCount fromConfig =>
      (Returned, resumeBody env emptyTubeCount fromConfig st)
  | Returned => (Settled, st)
  | Settled => (Settled, st)
  end.

(** A promise is identified by the rank of its creation: chain [i] is
    the one started by the [i]-th call of pregeneratePuzzles, and
    [chains] lists the chains started so far. *)
Record ModuleState : Type := {
  pregeneratePromise : option nat;   (* _pregeneratePromise *)
  chains : list Phase;
  shared : State                     (* cache and local storage *)
}.

Definition started (st : ModuleState) : nat := length (chains st).

(** The module as loaded: no promise, no chain, an empty cache. *)
Definition initial (stored : option StoredPuzzles) : ModuleState :=
  {| pregeneratePromise := None; chains := []; shared := freshSession stored |}.

(** Starts a chain and memoizes its promise, whatever the memo held. *)
Definition pregeneratePuzzles (st : ModuleState) : ModuleState :=
  {| pregeneratePromise := Some (started st);
     chains := chains st ++ [AwaitOutputConfig];
     shared := shared st |}.

(** Returns the promise handed to the caller; [None] would be the
    [null] that the non-null assertion of the source rules out. *)
Definition waitForPregenerate (st : ModuleState) : option nat * ModuleState :=
  match pregeneratePromise st with
  | Some p => (Some p, st)
  | None =>
      let st' := pregeneratePuzzles st in
      (pregeneratePromise st', st')
  end.

Fixpoint setPhase (i : nat) (phase : Phase) (l : list Phase) : list Phase :=
  match l, i with
  | [], _ => []
  | _ :: l', O => phase :: l'
  | p :: l', S i' => p :: setPhase i' phase l'
  end.

(** Chain [i] takes its next step; [envOf i] is what that chain reads
    from outside (the configuration, the draws of Math.random of its
    generations, whether its write to storage is accepted). *)
Definition progress (envOf : nat -> Env) (i : nat) (st : ModuleState)
    : ModuleState :=
  match nth_error (chains st) i with
  | Some phase =>
      let '(phase', shared') := advance (envOf i) phase (shared st) in
      {| pregeneratePromise := pregeneratePromise st;
         chains := setPhase i phase' (chains st);
         shared := shared' |}
  | None => st
  end.

(** What can happen between two turns of the event loop: a caller
    asks for the awaitable (Preloader), pregeneratePuzzles is called
    directly (main.tsx, App), or a started chain takes a step. *)
Inductive Event : Type :=
| Wait
| Direct
| Progress (i : nat).

Definition step (envOf : nat -> Env) (st : ModuleState) (e : Event)
    : list (option nat) * ModuleState :=
  match e with
  | Wait => let '(p, st') := waitForPregenerate st in ([p], st')
  | Direct => ([], pregeneratePuzzles st)
  | Progress i => ([], progress envOf i st)
  end.

(** Runs a trace; returns the promises handed out, in order. *)
Fixpoint run (envOf : nat -> Env) (st : ModuleState) (trace : list Event)
    : list (option nat) * ModuleState :=
  match trace with
  | [] => ([], st)
  | e :: trace' =>
      let '(out, st') := step envOf st e in
      let '(outs, st'') := run envOf st' trace' in
      (out ++ outs, st'')
  end.

(** Chains that have not settled. *)
Definition pending (phase : Phase) : bool :=
  match phase with
  | Settled => false
  | _ => true
  end.

Definition inFlight (st : ModuleState) : nat :=
  length (filter pending (chains st)).

End PuzzleCache.

(* ================================================================== *)
(** ** Statements about the pregeneration memo *)
(* ================================================================== *)

Module PuzzleCacheSpec.
Import CacheStore PuzzleCache.

Definition isDirect (e : Event) : bool :=
  match e with
  | Direct => true
  | _ => false
  end.

(** A trace in which pregeneratePuzzles is reached through
    waitForPregenerate only. *)
Definition noDirect (trace : list Event) : bool :=
  forallb (fun e => negb (isDirect e)) trace.

(** The memo as the sentence on single in-flight pregeneration has
    it, for a run from module load: one promise for all callers, the
    work started at most once, no two chains in flight together. *)
Definition singleInFlight (envOf : nat -> Env) (stored : option StoredPuzzles)
    (trace : list Event) : Prop :=
  let handed := fst (run envOf (initial stored) trace) in
  let st' := snd (run envOf (initial stored) trace) in
  (exists p, Forall (eq (Some p)) handed) /\
  (started st' <= 1)%nat /\
  (inFlight st' <= 1)%nat.

(** Every chain reads the same outside world. *)
Definition sameEnv (env : Env) : nat -> Env := fun _ => env.

(** Two requests with a direct call in between, nothing settling. *)
Definition trace_direct_between : list Event := [Wait; Direct; Wait].

(** The start of the program: main.tsx, then App, then the
    preloader's request, the chains settling afterwards. *)
Definition trace_startup : list Event :=
  [Direct; Direct; Wait;
   Progress 0; Progress 1; Progress 0; Progress 1; Progress 0; Progress 1;
   Progress 0; Progress 1].

(** Requests only, the one chain settling in between. *)
Definition trace_waiters : list Event :=
  [Wait; Progress 0; Wait; Progress 0; Progress 0; Wait; Progress 0; Wait].

(** Where the one chain of a run without direct calls can stand, and
    what the cache and storage then hold. *)
Definition beforeBody (env : Env) (phase : Phase) : Prop :=
  phase = AwaitOutputConfig \/
  phase = AwaitConfigValue \/
  phase = AwaitPuzzlesConfig (clampedEmpty env)
            (loadPuzzlesConfig env (clampedEmpty env)).

Definition afterBody (phase : Phase) : Prop :=
  phase = Returned \/ phase = Settled.

Definition alone (envOf : nat -> Env) (stored : option StoredPuzzles)
    (st : ModuleState) : Prop :=
  (pregeneratePromise st = None /\ chains st = [] /\
   shared st = freshSession stored) \/
  (pregeneratePromise st = Some 0%nat /\
   exists phase,
     chains st = [phase] /\
     ((beforeBody (envOf 0%nat) phase /\ shared st = freshSession stored) \/
      (afterBody phase /\
       shared st = pregenerateBody (envOf 0%nat) (freshSession stored)))).

End PuzzleCacheSpec.

(* ================================================================== *)
(** * Properties *)
(* ================================================================== *)


(** ** Arrays and draws *)

Module JSFacts.
Import JS.

Lemma toUint32_range (x : Z) : 0 <= toUint32 x < two32.
Proof. unfold toUint32, two32. apply Z.mod_pos_bound. lia. Qed.

Lemma ushr0_range (a : Z) : 0 <= ushr a 0 < two32.
Proof. unfold ushr. rewrite Z.shiftr_0_r. apply toUint32_range. Qed.

Lemma floorMul_range (u n : Z) :
  0 <= u < two32 -> 0 < n -> 0 <= floorMul u n < n.
Proof.
  intros Hu Hn. unfold floorMul, two32 in *. split.
  - apply Z.div_pos; nia.
  - apply Z.div_lt_upper_bound; nia.
Qed.

Lemma upd_length {A} (i : nat) (v : A) (l : list A) :
  length (upd i v l) = length l.
Proof.
  revert i; induction l as [|x l IH]; intros [|i]; simpl; auto.
Qed.

Lemma nth_error_upd_same {A} (i : nat) (v : A) (l : list A) :
  (i < length l)%nat -> nth_error (upd i v l) i = Some v.
Proof.
  revert i; induction l as [|x l IH]; intros [|i] H; simpl in *; try lia; auto.
  apply IH; lia.
Qed.

Lemma nth_error_upd_other {A} (i j : nat) (v : A) (l : list A) :
  i <> j -> nth_error (upd i v l) j = nth_error l j.
Proof.
  revert i j; induction l as [|x l IH]; intros [|i] [|j] H; simpl; auto; try lia.
Qed.

Lemma nth_upd_same (i : nat) (v d : Z) (l : list Z) :
  (i < length l)%nat -> nth i (upd i v l) d = v.
Proof.
  intro H. apply nth_error_nth. now apply nth_error_upd_same.
Qed.

Lemma nth_upd_other (i j : nat) (v d : Z) (l : list Z) :
  i <> j -> nth j (upd i v l) d = nth j l d.
Proof.
  revert i j; induction l as [|x l IH]; intros [|i] [|j] H; simpl; auto; try lia.
Qed.

(** Writing a cell replaces one element of the underlying multiset. *)
Lemma upd_split {A} (i : nat) (x : A) (l : list A) :
  nth_error l i = Some x ->
  exists r, Permutation l (x :: r) /\
            forall v, Permutation (upd i v l) (v :: r).
Proof.
  revert i; induction l as [|y l IH]; intros [|i] H; simpl in *; try discriminate.
  - injection H as ->. exists l. split; auto.
  - destruct (IH _ H) as [r [P1 P2]]. exists (y :: r). split.
    + rewrite P1. apply perm_swap.
    + intro v. rewrite (P2 v). apply perm_swap.
Qed.

Lemma swap_length {A} (i j : nat) (l : list A) :
  length (swap i j l) = length l.
Proof.
  unfold swap. destruct (nth_error l i), (nth_error l j); auto.
  now rewrite !upd_length.
Qed.

Lemma swap_Permutation {A} (i j : nat) (l : list A) :
  Permutation (swap i j l) l.
Proof.
  unfold swap.
  destruct (nth_error l i) as [x|] eqn:Hi; auto.
  destruct (nth_error l j) as [y|] eqn:Hj; auto.
  assert (Hli : (i < length l)%nat) by (apply nth_error_Some; congruence).
  assert (Hj' : nth_error (upd i y l) j = Some y).
  { destruct (Nat.eq_dec i j) as [->|Hne].
    - now apply nth_error_upd_same.
    - now rewrite nth_error_upd_other. }
  destruct (upd_split _ _ _ Hi) as [r [P1 P2]].
  destruct (upd_split _ _ _ Hj') as [r' [Q1 Q2]].
  rewrite (Q2 x), P1. apply perm_skip.
  apply Permutation_cons_inv with (a := y).
  now rewrite <- Q1, (P2 y).
Qed.

End JSFacts.

(** ** The generator *)

Module GeneratorFacts.
Import JS JSFacts Generator GeneratorSpec.

Lemma rngNext_range (t : Z) : 0 <= fst (rngNext t) < two32.
Proof. unfold rngNext. simpl. apply ushr0_range. Qed.

Lemma randBelow_range (t n : Z) :
  0 < n -> 0 <= fst (randBelow t n) < n.
Proof.
  intro Hn. unfold randBelow.
  pose proof (rngNext_range t) as H.
  destruct (rngNext t) as [u t']. simpl in *.
  now apply floorMul_range.
Qed.

(** *** Sums *)

Lemma fold_add_shift (l : list Z) (a : Z) :
  fold_left Z.add l a = a + sumZ l.
Proof.
  unfold sumZ. revert a; induction l as [|x l IH]; intro a; simpl.
  - lia.
  - rewrite (IH (a + x)), (IH x). lia.
Qed.

Lemma sumZ_cons (x : Z) (l : list Z) : sumZ (x :: l) = x + sumZ l.
Proof. unfold sumZ at 1. simpl. rewrite fold_add_shift. lia. Qed.

Lemma sumZ_Permutation (l l' : list Z) :
  Permutation l l' -> sumZ l = sumZ l'.
Proof.
  induction 1; rewrite ?sumZ_cons; lia.
Qed.

Lemma sumZ_repeat (v : Z) (n : nat) : sumZ (repeat v n) = Z.of_nat n * v.
Proof.
  induction n as [|n IH]; [reflexivity|].
  cbn [repeat]. rewrite sumZ_cons, IH. lia.
Qed.

Lemma sumZ_upd (i : nat) (v : Z) (l : list Z) :
  (i < length l)%nat -> sumZ (upd i v l) = sumZ l - nth i l 0 + v.
Proof.
  revert i; induction l as [|x l IH]; intros [|i] H; simpl in *; try lia.
  - rewrite !sumZ_cons. lia.
  - rewrite !sumZ_cons, IH by lia. lia.
Qed.

Lemma Forall_upd {A} (P : A -> Prop) (i : nat) (v : A) (l : list A) :
  Forall P l -> P v -> Forall P (upd i v l).
Proof.
  intros Hl Hv. revert i; induction Hl; intros [|i]; simpl; auto.
Qed.

Lemma Forall_nth_Z (P : Z -> Prop) (i : nat) (l : list Z) :
  Forall P l -> (i < length l)%nat -> P (nth i l 0).
Proof.
  intros Hl Hi. rewrite Forall_forall in Hl. apply Hl. now apply nth_In.
Qed.

(** *** Fisher-Yates *)

Lemma fyLoop_Permutation {A} (i : nat) (t : Z) (a : list A) :
  Permutation (fst (fyLoop i t a)) a.
Proof.
  revert t a; induction i as [|i IH]; intros t a; simpl; auto.
  destruct (randBelow t (Z.of_nat (S i) + 1)) as [j t'].
  rewrite IH. apply swap_Permutation.
Qed.

Lemma fisherYates_Permutation {A} (a : list A) (t : Z) :
  Permutation (fst (fisherYates a t)) a.
Proof. apply fyLoop_Permutation. Qed.

(** *** autoDistributeTubes *)

Lemma distributeRemaining_spec (n : nat) (cc t : Z) (res : list Z) :
  0 < cc -> length res = Z.to_nat cc ->
  let r := fst (distributeRemaining n cc t res) in
  length r = length res /\
  sumZ r = sumZ res + Z.of_nat n /\
  (Forall (fun v => 1 <= v) res -> Forall (fun v => 1 <= v) r).
Proof.
  intros Hcc. revert t res; induction n as [|n IH]; intros t res Hlen.
  - simpl. repeat split; auto. lia.
  - cbn [distributeRemaining].
    pose proof (randBelow_range t cc Hcc) as Hr.
    destruct (randBelow t cc) as [idx t']. simpl in Hr.
    assert (Hi : (Z.to_nat idx < length res)%nat) by lia.
    specialize (IH t' (upd (Z.to_nat idx) (nth (Z.to_nat idx) res 0 + 1) res)).
    rewrite upd_length in IH. destruct (IH Hlen) as [L [S F]].
    repeat split.
    + exact L.
    + rewrite S, sumZ_upd by exact Hi. lia.
    + intro H. apply F. apply Forall_upd; auto.
      pose proof (Forall_nth_Z _ _ _ H Hi). simpl in *. lia.
Qed.

Lemma takeLoop_spec (n i : nat) (rem t : Z) (res : list Z) :
  0 <= rem -> (i + n < length res)%nat ->
  Forall (fun v => 0 <= v) res ->
  (forall k, (i <= k)%nat -> nth k res 0 = 0) ->
  let '(r, rem', _) := takeLoop n i rem t res in
  length r = length res /\ 0 <= rem' /\
  Forall (fun v => 0 <= v) r /\
  sumZ r + rem' = sumZ res + rem /\
  (forall k, (i + n <= k)%nat -> nth k r 0 = 0).
Proof.
  revert i rem t res; induction n as [|n IH]; intros i rem t res Hrem Hlen Hpos Hz.
  - simpl. repeat split; auto. intros k Hk. apply Hz. lia.
  - cbn [takeLoop].
    assert (Hr1 : 0 < rem + 1) by lia.
    pose proof (randBelow_range t (rem + 1) Hr1) as Hr.
    destruct (randBelow t (rem + 1)) as [take t']. simpl in Hr.
    specialize (IH (S i) (rem - take) t' (upd i take res)).
    rewrite upd_length in IH.
    destruct (takeLoop n (S i) (rem - take) t' (upd i take res)) as [[r rem'] t''].
    destruct IH as [L [R [F [S Z0]]]]; try lia.
    + apply Forall_upd; auto. lia.
    + intros k Hk. rewrite nth_upd_other by lia. apply Hz. lia.
    + repeat split; auto.
      * rewrite S, sumZ_upd by lia. rewrite (Hz i) by lia. lia.
      * intros k Hk. apply Z0. lia.
Qed.

Lemma autoDistributeTubes_ok (cc tc t : Z) (allowZero : bool) :
  0 < cc -> 0 < tc -> (allowZero = false -> cc <= tc) ->
  exists dist t',
    autoDistributeTubes cc tc t allowZero = Ok (dist, t') /\
    length dist = Z.to_nat cc /\ sumZ dist = tc /\
    Forall (fun v => 0 <= v) dist.
Proof.
  intros Hcc Htc Hle. unfold autoDistributeTubes.
  destruct allowZero; simpl.
  - pose proof (takeLoop_spec (Z.to_nat (cc - 1)) 0 tc t (repeat 0 (Z.to_nat cc))) as H.
    destruct (takeLoop (Z.to_nat (cc - 1)) 0 tc t (repeat 0 (Z.to_nat cc)))
      as [[r rem'] t1].
    rewrite repeat_length in H.
    destruct H as [L [R [F [S Z0]]]]; try lia.
    + apply Forall_forall. intros x Hx. apply repeat_spec in Hx. lia.
    + intros k _. apply nth_repeat.
    + set (r' := upd (Z.to_nat (cc - 1)) rem' r).
      pose proof (fyLoop_Permutation (Z.to_nat (cc - 1)) t1 r') as P.
      destruct (fyLoop (Z.to_nat (cc - 1)) t1 r') as [dist t2]. simpl in P.
      exists dist, t2. split; [reflexivity|].
      assert (Lr' : length r' = Z.to_nat cc) by (unfold r'; rewrite upd_length; lia).
      repeat split.
      * rewrite (Permutation_length P). exact Lr'.
      * rewrite (sumZ_Permutation _ _ P). unfold r'.
        rewrite sumZ_upd by lia. rewrite Z0 by lia.
        rewrite sumZ_repeat in S. lia.
      * eapply Permutation_Forall; [symmetry; exact P|].
        unfold r'. apply Forall_upd; auto.
  - assert (E : (tc <? cc) = false) by (apply Z.ltb_ge; auto).
    rewrite E. simpl.
    pose proof (distributeRemaining_spec (Z.to_nat (tc - cc)) cc t
                  (repeat 1 (Z.to_nat cc)) Hcc (repeat_length _ _)) as H.
    destruct (distributeRemaining (Z.to_nat (tc - cc)) cc t (repeat 1 (Z.to_nat cc)))
      as [dist t'].
    simpl in H. destruct H as [L [S F]].
    exists dist, t'. split; [reflexivity|].
    rewrite repeat_length in L. rewrite sumZ_repeat in S.
    specialize (Hle eq_refl).
    repeat split; auto; try lia.
    eapply Forall_impl; [|apply F].
    + simpl. intros; lia.
    + apply Forall_forall. intros x Hx. apply repeat_spec in Hx. lia.
Qed.

(** *** The solved state *)

Lemma map_nth_seq (l : list Z) :
  map (fun c => nth c l 0) (seq 0 (length l)) = l.
Proof.
  induction l as [|x l IH]; [reflexivity|].
  cbn [length seq map nth]. f_equal.
  rewrite <- seq_shift, map_map. exact IH.
Qed.

Lemma length_flat_map_sum {A B} (f : A -> list B) (l : list A) :
  length (flat_map f l) = list_sum (map (fun a => length (f a)) l).
Proof.
  induction l as [|a l IH]; [reflexivity|].
  simpl. now rewrite length_app, IH.
Qed.

Lemma solvedTubes_length (cc ts : Z) (dist : list Z) :
  length dist = Z.to_nat cc ->
  length (solvedTubes cc ts dist) = list_sum (map Z.to_nat dist).
Proof.
  intro L. unfold solvedTubes. rewrite length_flat_map_sum.
  rewrite <- L.
  assert (E : map Z.to_nat dist
              = map (fun c => Z.to_nat (nth c dist 0)) (seq 0 (length dist))).
  { rewrite <- (map_map (fun c => nth c dist 0) Z.to_nat).
    now rewrite map_nth_seq. }
  rewrite E. f_equal. apply map_ext. intro c. now rewrite repeat_length.
Qed.

Lemma list_sum_cons (x : nat) (l : list nat) :
  list_sum (x :: l) = (x + list_sum l)%nat.
Proof. reflexivity. Qed.

Lemma sumZ_le_to_nat (l : list Z) :
  sumZ l <= Z.of_nat (list_sum (map Z.to_nat l)).
Proof.
  induction l as [|x l IH]; [reflexivity|].
  cbn [map]. rewrite list_sum_cons, sumZ_cons. lia.
Qed.

Lemma sumZ_to_nat_eq (l : list Z) :
  Z.of_nat (list_sum (map Z.to_nat l)) = sumZ l <-> Forall (fun v => 0 <= v) l.
Proof.
  induction l as [|x l IH].
  - split; [constructor | reflexivity].
  - cbn [map]. rewrite list_sum_cons, sumZ_cons.
    pose proof (sumZ_le_to_nat l) as Hle. split.
    + intro H. constructor; [lia|]. apply IH. lia.
    + intro H. inversion H; subst. apply IH in H3. lia.
Qed.

Lemma concat_repeat_nil {A} (n : nat) : concat (repeat (@nil A) n) = [].
Proof. induction n; simpl; auto. Qed.

Lemma concat_repeat_length {A} (x : list A) (n : nat) :
  length (concat (repeat x n)) = (n * length x)%nat.
Proof. induction n; simpl; auto. rewrite length_app. lia. Qed.

Lemma solvedTubes_Forall_size (cc ts : Z) (dist : list Z) :
  Forall (fun tube => length tube = Z.to_nat ts) (solvedTubes cc ts dist).
Proof.
  unfold solvedTubes. apply Forall_flat_map. apply Forall_forall.
  intros c _. apply Forall_forall. intros tube H.
  apply repeat_spec in H. subst. apply repeat_length.
Qed.

Lemma concat_length_uniform {A} (n : nat) (ll : list (list A)) :
  Forall (fun l => length l = n) ll ->
  length (concat ll) = (length ll * n)%nat.
Proof.
  induction 1; simpl; auto. rewrite length_app. lia.
Qed.

(** Occurrences of colour [c] in the flattened solved state. *)
Lemma count_occ_concat_repeat (x : list Z) (n : nat) (c : Z) :
  count_occ Z.eq_dec (concat (repeat x n)) c
  = (n * count_occ Z.eq_dec x c)%nat.
Proof.
  induction n; simpl; auto. rewrite count_occ_app. lia.
Qed.

Lemma count_occ_repeat_Z (v c : Z) (n : nat) :
  count_occ Z.eq_dec (repeat v n) c = if Z.eq_dec v c then n else 0%nat.
Proof.
  induction n as [|n IH]; simpl.
  - now destruct (Z.eq_dec v c).
  - rewrite IH. now destruct (Z.eq_dec v c).
Qed.

Lemma flat_map_concat' {A B} (f : A -> list (list B)) (l : list A) :
  concat (flat_map f l) = flat_map (fun a => concat (f a)) l.
Proof.
  induction l as [|a l IH]; simpl; auto. now rewrite concat_app, IH.
Qed.

Lemma count_occ_flat_map_seq (f : nat -> list Z) (c : Z) (s n : nat) :
  count_occ Z.eq_dec (flat_map f (seq s n)) c
  = list_sum (map (fun k => count_occ Z.eq_dec (f k) c) (seq s n)).
Proof.
  revert s; induction n as [|n IH]; intro s; simpl; auto.
  now rewrite count_occ_app, IH.
Qed.

Lemma list_sum_zero (g : nat -> nat) (l : list nat) :
  (forall j, In j l -> g j = 0%nat) -> list_sum (map g l) = 0%nat.
Proof.
  induction l as [|a l IH]; intro H; [reflexivity|].
  cbn [map]. rewrite list_sum_cons, IH, (H a); simpl; auto.
  intros j Hj. apply H. now right.
Qed.

Lemma list_sum_single (g : nat -> nat) (k s n : nat) :
  (forall j, j <> k -> g j = 0%nat) ->
  (s <= k < s + n)%nat ->
  list_sum (map g (seq s n)) = g k.
Proof.
  intros Hz Hk.
  replace n with ((k - s) + S (s + n - k - 1))%nat by lia.
  rewrite seq_app, map_app, list_sum_app.
  replace (s + (k - s))%nat with k by lia.
  cbn [seq map]. rewrite list_sum_cons.
  rewrite !list_sum_zero; [lia | |].
  - intros j Hj. apply in_seq in Hj. apply Hz. lia.
  - intros j Hj. apply in_seq in Hj. apply Hz. lia.
Qed.

Lemma solvedTubes_count (cc ts : Z) (dist : list Z) (k : nat) :
  (k < Z.to_nat cc)%nat ->
  count_occ Z.eq_dec (concat (solvedTubes cc ts dist)) (Z.of_nat k)
  = (Z.to_nat (nth k dist 0%Z) * Z.to_nat ts)%nat.
Proof.
  intro Hk. unfold solvedTubes.
  rewrite flat_map_concat', count_occ_flat_map_seq.
  rewrite (list_sum_single _ k); [| |lia].
  - rewrite count_occ_concat_repeat, count_occ_repeat_Z.
    destruct (Z.eq_dec (Z.of_nat k) (Z.of_nat k)); [reflexivity | contradiction].
  - intros j Hj. rewrite count_occ_concat_repeat, count_occ_repeat_Z.
    destruct (Z.eq_dec (Z.of_nat j) (Z.of_nat k)); lia.
Qed.

Lemma solvedTubes_colors (cc ts : Z) (dist : list Z) (c : Z) :
  In c (concat (solvedTubes cc ts dist)) -> 0 <= c < cc.
Proof.
  unfold solvedTubes. rewrite flat_map_concat'. intro H.
  apply in_flat_map in H. destruct H as [k [Hk H]].
  apply in_seq in Hk. apply in_concat in H. destruct H as [tube [H1 H2]].
  apply repeat_spec in H1. subst. apply repeat_spec in H2. lia.
Qed.

(** *** Redistribution *)

Lemma skipn_nth_error {A} (k : nat) (l : list A) (x : A) :
  nth_error l k = Some x -> skipn k l = x :: skipn (S k) l.
Proof.
  revert k; induction l as [|y l IH]; intros [|k] H; simpl in *; try discriminate.
  - now injection H as ->.
  - now apply IH.
Qed.

Lemma firstn_plus {A} (a b : nat) (l : list A) :
  firstn (a + b) l = firstn a l ++ firstn b (skipn a l).
Proof.
  revert l; induction a as [|a IH]; intro l; simpl; auto.
  destruct l as [|x l]; simpl.
  - now rewrite firstn_nil.
  - now rewrite IH.
Qed.

Lemma fillTube_snd (n k : nat) (balls : list Z) :
  snd (fillTube n k balls) = (k + n)%nat.
Proof.
  revert k; induction n as [|n IH]; intro k; simpl; [lia|].
  specialize (IH (S k)). destruct (fillTube n (S k) balls). simpl in *. lia.
Qed.

Lemma fillTube_length (n k : nat) (balls : list Z) :
  length (fst (fillTube n k balls)) = n.
Proof.
  revert k; induction n as [|n IH]; intro k; simpl; auto.
  specialize (IH (S k)). destruct (fillTube n (S k) balls). simpl in *. lia.
Qed.

Lemma fillTube_in_range (n k : nat) (balls : list Z) :
  (k + n <= length balls)%nat ->
  fst (fillTube n k balls) = map Some (firstn n (skipn k balls)).
Proof.
  revert k; induction n as [|n IH]; intros k H; simpl; auto.
  specialize (IH (S k)). destruct (fillTube n (S k) balls) as [tube k'].
  simpl in *. rewrite IH by lia.
  destruct (nth_error balls k) as [x|] eqn:E.
  - rewrite (skipn_nth_error _ _ _ E). reflexivity.
  - apply nth_error_None in E. lia.
Qed.

Lemma redistribute_length (n size k : nat) (balls : list Z) :
  length (redistribute n size k balls) = n.
Proof.
  revert k; induction n as [|n IH]; intro k; simpl; auto.
  destruct (fillTube size k balls). simpl. now rewrite IH.
Qed.

Lemma redistribute_Forall_size (n size k : nat) (balls : list Z) :
  Forall (fun tube => length tube = size) (redistribute n size k balls).
Proof.
  revert k; induction n as [|n IH]; intro k; simpl; auto.
  pose proof (fillTube_length size k balls) as L.
  destruct (fillTube size k balls). simpl in L. constructor; auto.
Qed.

Lemma redistribute_concat (n size k : nat) (balls : list Z) :
  (k + n * size <= length balls)%nat ->
  concat (redistribute n size k balls)
  = map Some (firstn (n * size) (skipn k balls)).
Proof.
  revert k; induction n as [|n IH]; intros k H; simpl; auto.
  pose proof (fillTube_in_range size k balls) as F.
  pose proof (fillTube_snd size k balls) as S.
  destruct (fillTube size k balls) as [tube k']. simpl in *. subst k'.
  rewrite F by lia. rewrite IH by lia. rewrite <- map_app. f_equal.
  rewrite firstn_plus. f_equal. now rewrite skipn_skipn, Nat.add_comm.
Qed.

Lemma redistribute_all (n size : nat) (balls : list Z) :
  length balls = (n * size)%nat ->
  concat (redistribute n size 0 balls) = map Some balls.
Proof.
  intro L. rewrite redistribute_concat by (simpl; lia).
  simpl. rewrite <- L. now rewrite firstn_all.
Qed.

(** *** The retry loop *)

Lemma shuffleOnce_attemptCount (tc ts : Z) (st : LoopState) :
  attemptCount (shuffleOnce tc ts st) = S (attemptCount st).
Proof. unfold shuffleOnce. now destruct (fisherYates _ _). Qed.

Lemma shuffleOnce_Permutation (tc ts : Z) (st : LoopState) :
  Permutation (allBalls (shuffleOnce tc ts st)) (allBalls st).
Proof.
  unfold shuffleOnce.
  pose proof (fisherYates_Permutation (allBalls st) (rngState st)) as P.
  now destruct (fisherYates _ _).
Qed.

Lemma shuffleOnce_finalTubes (tc ts : Z) (st : LoopState) :
  finalTubes (shuffleOnce tc ts st)
  = redistribute (Z.to_nat tc) (Z.to_nat ts) 0 (allBalls (shuffleOnce tc ts st)).
Proof. unfold shuffleOnce. now destruct (fisherYates _ _). Qed.

Lemma iter_attemptCount (tc ts : Z) (k : nat) (st : LoopState) :
  attemptCount (Nat.iter k (shuffleOnce tc ts) st) = (attemptCount st + k)%nat.
Proof.
  induction k as [|k IH]; simpl; [lia|].
  rewrite shuffleOnce_attemptCount, IH. lia.
Qed.

Lemma iter_Permutation (tc ts : Z) (k : nat) (st : LoopState) :
  Permutation (allBalls (Nat.iter k (shuffleOnce tc ts) st)) (allBalls st).
Proof.
  induction k as [|k IH]; simpl; auto.
  now rewrite shuffleOnce_Permutation.
Qed.

Lemma iter_finalTubes (tc ts : Z) (k : nat) (st : LoopState) :
  (1 <= k)%nat ->
  finalTubes (Nat.iter k (shuffleOnce tc ts) st)
  = redistribute (Z.to_nat tc) (Z.to_nat ts) 0
      (allBalls (Nat.iter k (shuffleOnce tc ts) st)).
Proof.
  destruct k as [|k]; [lia|]. intros _. simpl. apply shuffleOnce_finalTubes.
Qed.

(** The loop stops at the first pass that meets the diversity test,
    and at the last pass of the budget otherwise. *)
Lemma shuffleAttempts_spec (budget : nat) (tc ts m : Z) (st : LoopState) :
  (1 <= budget)%nat ->
  exists k,
    (1 <= k <= budget)%nat /\
    shuffleAttempts budget tc ts m st = Nat.iter k (shuffleOnce tc ts) st /\
    (colorDiversityMet m (finalTubes (Nat.iter k (shuffleOnce tc ts) st)) = true
     \/ k = budget) /\
    (forall j, (1 <= j < k)%nat ->
       colorDiversityMet m (finalTubes (Nat.iter j (shuffleOnce tc ts) st)) = false).
Proof.
  revert st; induction budget as [|b IH]; intros st Hb; [lia|].
  cbn [shuffleAttempts].
  destruct (colorDiversityMet m (finalTubes (shuffleOnce tc ts st))) eqn:E.
  - exists 1%nat. simpl. repeat split; auto; try lia.
  - destruct b as [|b].
    + exists 1%nat. simpl. repeat split; auto; try lia.
    + destruct (IH (shuffleOnce tc ts st)) as [k [Hk [Eq [Hmet Hprev]]]]; [lia|].
      exists (S k). rewrite Nat.iter_succ_r. repeat split; try lia.
      * exact Eq.
      * destruct Hmet as [Hmet | ->]; [left; exact Hmet | right; reflexivity].
      * intros j Hj. destruct j as [|j]; [lia|].
        rewrite Nat.iter_succ_r. destruct j as [|j]; [exact E|].
        apply Hprev. lia.
Qed.

(** *** Which configurations createPuzzle accepts *)

Lemma guard_Ok (b : bool) (e : GenError) (u : unit) :
  guard b e = Ok u -> b = false.
Proof. destruct b; simpl; [discriminate | reflexivity]. Qed.

Lemma existsb_nonpos (l : list Z) :
  existsb (fun v => v <=? 0) l = false <-> Forall (fun v => 0 < v) l.
Proof.
  induction l as [|x l IH]; simpl.
  - split; auto.
  - rewrite orb_false_iff, IH, Z.leb_gt. split.
    + intros [H1 H2]. now constructor.
    + intro H. now inversion H.
Qed.

Lemma autoDistributeTubes_Throw (cc tc t : Z) :
  tc < cc -> autoDistributeTubes cc tc t false = Throw TubeCountTooSmall.
Proof.
  intro H. unfold autoDistributeTubes. simpl.
  apply Z.ltb_lt in H. now rewrite H.
Qed.

Lemma chooseDistribution_Ok (config : GeneratorConfig) (t : Z) dist t' :
  0 < tubeCount config -> 0 < colorCount config ->
  chooseDistribution config (allowZeroOf config) t = Ok (dist, t') ->
  Chosen config dist /\
  match perColorTubes config with
  | Some pct =>
      dist = pct /\ t' = t /\
      (allowZeroOf config = false -> Forall (fun v => 0 < v) pct)
  | None =>
      Forall (fun v => 0 <= v) dist /\
      (allowZeroOf config = false -> colorCount config <= tubeCount config)
  end.
Proof.
  intros Htc Hcc. unfold chooseDistribution.
  destruct (perColorTubes config) as [pct|].
  - destruct (Z.of_nat (length pct) =? colorCount config) eqn:E1; simpl;
      [|discriminate].
    destruct (sumZ pct =? tubeCount config) eqn:E2; simpl; [|discriminate].
    destruct (negb (allowZeroOf config) && existsb (fun v => v <=? 0) pct) eqn:E3;
      simpl; [discriminate|].
    intro H. injection H as <- <-.
    apply Z.eqb_eq in E1, E2. split; [split; [lia | exact E2]|].
    repeat split; auto. intro Ha. rewrite Ha in E3. simpl in E3.
    now apply existsb_nonpos.
  - intro H.
    destruct (allowZeroOf config) eqn:Ha.
    + destruct (autoDistributeTubes_ok (colorCount config) (tubeCount config) t true)
        as [d [t1 [E [L [S F]]]]]; auto; try discriminate.
      rewrite E in H. injection H as <- <-.
      split; [split; auto|]. split; auto. discriminate.
    + destruct (Z_lt_le_dec (tubeCount config) (colorCount config)) as [Hlt|Hle].
      * rewrite autoDistributeTubes_Throw in H by exact Hlt. discriminate.
      * destruct (autoDistributeTubes_ok (colorCount config) (tubeCount config) t false)
          as [d [t1 [E [L [S F]]]]]; auto.
        rewrite E in H. injection H as <- <-.
        split; [split; auto|]. split; auto.
Qed.

Lemma chooseDistribution_accepted (config : GeneratorConfig) (t : Z) :
  accepted config ->
  exists dist t',
    chooseDistribution config (allowZeroOf config) t = Ok (dist, t') /\
    Chosen config dist /\ Forall (fun v => 0 <= v) dist.
Proof.
  intros [Hts [Htc [Hcc H]]]. unfold chooseDistribution.
  destruct (perColorTubes config) as [pct|].
  - destruct H as [L [S [P N]]].
    exists pct, t. apply Z.eqb_eq in L as L', S as S'. rewrite L', S'. simpl.
    assert (E : (negb (allowZeroOf config) && existsb (fun v => v <=? 0) pct) = false).
    { destruct (allowZeroOf config); simpl; auto.
      apply existsb_nonpos. now apply P. }
    rewrite E. simpl. split; auto. split; auto. split; [lia | exact S].
  - destruct (autoDistributeTubes_ok (colorCount config) (tubeCount config) t
                (allowZeroOf config)) as [d [t1 [E [L [S F]]]]]; auto.
    exists d, t1. split; auto. split; auto. split; auto.
Qed.

Lemma concat_with_empties (ll : list (list Z)) (n : nat) :
  concat (ll ++ repeat [] n) = concat ll.
Proof. now rewrite concat_app, concat_repeat_nil, app_nil_r. Qed.

Lemma prepare_Ok (rnd : Z) (config : GeneratorConfig) (p : Prepared) :
  prepare rnd config = Ok p -> accepted config /\ PreparedFor rnd config p.
Proof.
  unfold prepare. fold (allowZeroOf config).
  destruct ((tubeSize config <=? 0) || (tubeCount config <=? 0)
            || (colorCount config <=? 0)) eqn:G; simpl; [discriminate|].
  apply orb_false_iff in G. destruct G as [G G3].
  apply orb_false_iff in G. destruct G as [G1 G2].
  apply Z.leb_gt in G1, G2, G3.
  destruct (chooseDistribution config (allowZeroOf config)
              (seededRng (makeSeedFrom rnd (seed config)))) as [[dist t']|e] eqn:C;
    simpl; [|discriminate].
  destruct (chooseDistribution_Ok _ _ _ _ G2 G3 C) as [Ch Hm].
  destruct (Z.of_nat (length (solvedTubes (colorCount config) (tubeSize config) dist))
            =? tubeCount config) eqn:M; simpl; [|discriminate].
  apply Z.eqb_eq in M.
  rewrite (solvedTubes_length _ _ _ (chosen_length _ _ Ch)) in M.
  rewrite <- (chosen_sum _ _ Ch) in M. apply sumZ_to_nat_eq in M.
  intro H. injection H as <-. split.
  - repeat split; auto.
    destruct (perColorTubes config) as [pct|].
    + destruct Hm as [-> [_ P]]. destruct Ch as [L S].
      repeat split; auto. lia.
    + now destruct Hm.
  - constructor; simpl; auto. apply concat_with_empties.
Qed.

Lemma accepted_prepare (rnd : Z) (config : GeneratorConfig) :
  accepted config -> exists p, prepare rnd config = Ok p.
Proof.
  intro A. pose proof A as [Hts [Htc [Hcc _]]].
  unfold prepare. fold (allowZeroOf config).
  assert (G : ((tubeSize config <=? 0) || (tubeCount config <=? 0)
               || (colorCount config <=? 0)) = false).
  { rewrite !orb_false_iff, !Z.leb_gt. auto. }
  rewrite G. simpl.
  destruct (chooseDistribution_accepted config
              (seededRng (makeSeedFrom rnd (seed config))) A)
    as [dist [t' [C [Ch N]]]].
  rewrite C. simpl.
  assert (M : (Z.of_nat (length (solvedTubes (colorCount config) (tubeSize config) dist))
               =? tubeCount config) = true).
  { apply Z.eqb_eq. rewrite (solvedTubes_length _ _ _ (chosen_length _ _ Ch)).
    rewrite <- (chosen_sum _ _ Ch). now apply sumZ_to_nat_eq. }
  rewrite M. simpl. eauto.
Qed.

Lemma createPuzzle_Ok (rnd : Z) (config : GeneratorConfig) (res : PuzzleResult) :
  createPuzzle rnd config = Ok res <->
  exists p, prepare rnd config = Ok p /\ res = finish config p.
Proof.
  unfold createPuzzle. destruct (prepare rnd config) as [p|e]; simpl; split.
  - intro H. injection H as <-. eauto.
  - intros [q [H ->]]. now injection H as ->.
  - discriminate.
  - intros [q [H _]]. discriminate.
Qed.

Lemma createPuzzle_Throw (rnd : Z) (config : GeneratorConfig) (e : GenError) :
  createPuzzle rnd config = Throw e <-> prepare rnd config = Throw e.
Proof.
  unfold createPuzzle. destruct (prepare rnd config) as [p|e']; simpl; split;
    congruence.
Qed.

(** *** The result of an accepted configuration *)

Lemma solvedTubes_count_accepted (config : GeneratorConfig) (dist : list Z) :
  Chosen config dist -> Forall (fun v => 0 <= v) dist ->
  length (solvedTubes (colorCount config) (tubeSize config) dist)
  = Z.to_nat (tubeCount config).
Proof.
  intros [L S] N. rewrite (solvedTubes_length _ _ _ L).
  apply sumZ_to_nat_eq in N. lia.
Qed.

Lemma finish_shape (rnd : Z) (config : GeneratorConfig) (p : Prepared) :
  PreparedFor rnd config p ->
  exists balls,
    Permutation balls
      (concat (solvedTubes (colorCount config) (tubeSize config) (prDistribution p))) /\
    length balls = (Z.to_nat (tubeCount config) * Z.to_nat (tubeSize config))%nat /\
    tubes (finish config p)
    = redistribute (Z.to_nat (tubeCount config)) (Z.to_nat (tubeSize config)) 0 balls
      ++ repeat [] (Z.to_nat (prEmptyTubes p)).
Proof.
  intros [Hs Hc Hn He Hb Ha].
  destruct (shuffleAttempts_spec maxShuffleAttempts (tubeCount config)
              (tubeSize config) (Z.min 3 (colorCount config)) (prLoop p))
    as [k [Hk [Eq _]]]; [unfold maxShuffleAttempts; lia|].
  set (st := Nat.iter k (shuffleOnce (tubeCount config) (tubeSize config)) (prLoop p))
    in *.
  assert (P : Permutation (allBalls st)
                (concat (solvedTubes (colorCount config) (tubeSize config)
                           (prDistribution p)))).
  { rewrite <- Hb. apply iter_Permutation. }
  exists (allBalls st). split; [exact P|]. split.
  - rewrite (Permutation_length P).
    rewrite (concat_length_uniform _ _ (solvedTubes_Forall_size _ _ _)).
    now rewrite (solvedTubes_count_accepted _ _ Hc Hn).
  - unfold finish. rewrite Eq. fold st. simpl. f_equal.
    apply iter_finalTubes. lia.
Qed.

Lemma finish_cells (rnd : Z) (config : GeneratorConfig) (p : Prepared) :
  PreparedFor rnd config p ->
  exists balls,
    Permutation balls
      (concat (solvedTubes (colorCount config) (tubeSize config) (prDistribution p))) /\
    concat (tubes (finish config p)) = map Some balls.
Proof.
  intro H. destruct (finish_shape _ _ _ H) as [balls [P [L T]]].
  exists balls. split; [exact P|].
  rewrite T, concat_app, concat_repeat_nil, app_nil_r.
  now apply redistribute_all.
Qed.

Lemma count_occ_map_Some (l : list Z) (c : Z) :
  count_occ cell_eq_dec (map Some l) (Some c) = count_occ Z.eq_dec l c.
Proof.
  induction l as [|x l IH]; simpl; auto.
  destruct (cell_eq_dec (Some x) (Some c)) as [E|E], (Z.eq_dec x c) as [E'|E'];
    try congruence; now rewrite IH.
Qed.

(** No cell of a returned puzzle is [undefined]. *)
Lemma createPuzzle_cells_defined (rnd : Z) (config : GeneratorConfig)
    (res : PuzzleResult) :
  createPuzzle rnd config = Ok res -> ~ In None (concat (tubes res)).
Proof.
  intro H. apply createPuzzle_Ok in H. destruct H as [p [Hp ->]].
  apply prepare_Ok in Hp. destruct Hp as [_ Hp].
  destruct (finish_cells _ _ _ Hp) as [balls [_ E]]. rewrite E.
  intro Hin. apply in_map_iff in Hin. destruct Hin as [x [Hx _]]. discriminate.
Qed.

(** *** Seeds and outcomes *)

Lemma makeSeedFrom_supplied (rnd1 rnd2 : Z) (s : Seed) :
  s <> SeedUndefined -> makeSeedFrom rnd1 s = makeSeedFrom rnd2 s.
Proof. destruct s; [contradiction | reflexivity | reflexivity]. Qed.

Lemma createPuzzle_seeded (rnd1 rnd2 : Z) (config : GeneratorConfig) :
  seed config <> SeedUndefined ->
  createPuzzle rnd1 config = createPuzzle rnd2 config.
Proof.
  intro Hs. unfold createPuzzle, prepare.
  now rewrite (makeSeedFrom_supplied rnd1 rnd2 _ Hs).
Qed.

Lemma returns_accepted (rnd : Z) (config : GeneratorConfig) :
  returns rnd config <-> accepted config.
Proof.
  split.
  - intros [res H]. apply createPuzzle_Ok in H. destruct H as [p [Hp _]].
    now apply prepare_Ok in Hp.
  - intro A. destruct (accepted_prepare rnd config A) as [p Hp].
    exists (finish config p). apply createPuzzle_Ok. eauto.
Qed.





(** Every cell of a returned puzzle is a colour index below colorCount. *)
Lemma createPuzzle_cell_range (rnd : Z) (config : GeneratorConfig)
    (res : PuzzleResult) (cell : Cell) :
  createPuzzle rnd config = Ok res -> In cell (concat (tubes res)) ->
  exists c, cell = Some c /\ 0 <= c < colorCount config.
Proof.
  intros H Hin. apply createPuzzle_Ok in H. destruct H as [p [Hp ->]].
  apply prepare_Ok in Hp. destruct Hp as [_ Hp].
  destruct (finish_cells _ _ _ Hp) as [balls [P E]].
  rewrite E in Hin. apply in_map_iff in Hin. destruct Hin as [c [<- Hc]].
  exists c. split; [reflexivity|].
  apply (solvedTubes_colors _ _ _ _ (Permutation_in _ P Hc)).
Qed.

End GeneratorFacts.

(** ** Theorems about the generator *)

Module GeneratorTheorems.
Import JS JSFacts Generator GeneratorSpec GeneratorFacts.

(** C1 (determinism).  With a seed supplied, as a number or as a
    string, the outcome of createPuzzle does not depend on the one
    value it could take from the environment: two calls with the same
    configuration return the same tubes, the same perColorTubes and
    the same seedUsed (or raise the same error). *)
Theorem createPuzzle_deterministic (rnd1 rnd2 : Z) (config : GeneratorConfig) :
  seed config <> SeedUndefined ->
  createPuzzle rnd1 config = createPuzzle rnd2 config.
Proof.
  intro Hs.
  assert (E : makeSeedFrom rnd1 (seed config) = makeSeedFrom rnd2 (seed config)).
  { destruct (seed config) as [|n|s]; [contradiction | reflexivity | reflexivity]. }
  unfold createPuzzle, prepare. rewrite E. reflexivity.
Qed.

(** The seed 'level-1' with two different environment draws. *)
Lemma createPuzzle_deterministic_witness :
  createPuzzle 0 config_level1 = createPuzzle 123456789 config_level1.
Proof.
  apply createPuzzle_deterministic. simpl. discriminate.
Defined.

(** C2 (ball conservation).  For every configuration that createPuzzle
    accepts, the lengths of the tubes of the result add up to
    tubeCount * tubeSize, which is sum(perColorTubes) * tubeSize. *)
Theorem createPuzzle_ball_conservation (rnd : Z) (config : GeneratorConfig)
    (res : PuzzleResult) :
  createPuzzle rnd config = Ok res ->
  totalBalls (tubes res) = tubeCount config * tubeSize config /\
  tubeCount config * tubeSize config
  = sumZ (resPerColorTubes res) * tubeSize config.
Proof.
  intro H. apply createPuzzle_Ok in H. destruct H as [p [Hp ->]].
  apply prepare_Ok in Hp. destruct Hp as [[Hts [Htc _]] Hp].
  destruct (finish_cells _ _ _ Hp) as [balls [P E]].
  destruct (finish_shape _ _ _ Hp) as [balls' [_ [L T]]].
  split.
  - unfold totalBalls. rewrite <- length_concat, T.
    rewrite concat_app, concat_repeat_nil, app_nil_r.
    rewrite (redistribute_all _ _ _ L), length_map, L. lia.
  - simpl. now rewrite (chosen_sum _ _ (pf_chosen _ _ _ Hp)).
Qed.

(** The example configuration: 24 cells for six tubes of four. *)
Lemma createPuzzle_ball_conservation_witness :
  totalBalls (tubes result_example) = 6 * 4 /\
  6 * 4 = sumZ (resPerColorTubes result_example) * 4.
Proof.
  apply (createPuzzle_ball_conservation 0 config_example result_example).
  vm_compute. reflexivity.
Defined.

(** C3 (per-colour multiple).  For every configuration that
    createPuzzle accepts and every colour present in the result, the
    colour is an index below colorCount and it occurs exactly
    perColorTubes[colour] * tubeSize times across the tubes, a
    multiple of tubeSize. *)
Theorem createPuzzle_color_multiple (rnd : Z) (config : GeneratorConfig)
    (res : PuzzleResult) (c : Z) :
  createPuzzle rnd config = Ok res ->
  In (Some c) (concat (tubes res)) ->
  0 <= c < colorCount config /\
  occurrences c (tubes res)
  = nth (Z.to_nat c) (resPerColorTubes res) 0 * tubeSize config /\
  (tubeSize config | occurrences c (tubes res)).
Proof.
  intros H Hin. apply createPuzzle_Ok in H. destruct H as [p [Hp ->]].
  apply prepare_Ok in Hp. destruct Hp as [[Hts [Htc Hcc]] Hp].
  destruct (finish_cells _ _ _ Hp) as [balls [P E]].
  rewrite E in Hin. apply in_map_iff in Hin.
  destruct Hin as [x [Hx Hin]]. injection Hx as ->.
  pose proof (solvedTubes_colors _ _ _ _ (Permutation_in _ P Hin)) as Hc.
  assert (Hocc : occurrences c (tubes (finish config p))
                 = nth (Z.to_nat c) (prDistribution p) 0 * tubeSize config).
  { unfold occurrences. rewrite E, count_occ_map_Some.
    rewrite (Permutation_count_occ Z.eq_dec) in P. rewrite P.
    replace c with (Z.of_nat (Z.to_nat c)) at 1 by lia.
    rewrite solvedTubes_count by lia.
    pose proof (Forall_nth_Z _ (Z.to_nat c) _ (pf_nonneg _ _ _ Hp)) as Hn.
    rewrite (chosen_length _ _ (pf_chosen _ _ _ Hp)) in Hn.
    simpl in Hn. lia. }
  split; [exact Hc|]. split; [exact Hocc|].
  rewrite Hocc. apply Z.divide_factor_r.
Qed.

(** Colour 1 of the example: three tubes, twelve cells. *)
Lemma createPuzzle_color_multiple_witness :
  0 <= 1 < 3 /\
  occurrences 1 (tubes result_example) = 3 * 4 /\
  (4 | occurrences 1 (tubes result_example)).
Proof.
  apply (createPuzzle_color_multiple 0 config_example result_example 1).
  - vm_compute. reflexivity.
  - simpl. tauto.
Defined.



(** C7, as stated, fails: six tubes of four cells hold 24 balls, so
    the three colours cannot occur six times each. *)
Lemma example_not_as_stated :
  ~ exists res, createPuzzle 0 config_example = Ok res /\ exampleAsStated res.
Proof.
  intros [res [H [_ [_ [_ [H0 _]]]]]].
  assert (E : createPuzzle 0 config_example = Ok result_example)
    by (vm_compute; reflexivity).
  rewrite E in H. clear E. injection H as <-. vm_compute in H0. discriminate H0.
Qed.

(** C7 (amended).  createPuzzle on colorCount 3, tubeCount 6,
    tubeSize 4, seed 42, emptyTubeCount 2 returns 8 tubes, 6 filled
    tubes of length 4 followed by 2 empty tubes; the cells are the
    colour indices 0, 1 and 2, which occur 4, 12 and 8 times, that
    is perColorTubes = [1, 3, 2] times tubeSize. *)
Theorem example_seed42 (rnd : Z) :
  exists res,
    createPuzzle rnd config_example = Ok res /\
    length (tubes res) = 8%nat /\
    Forall (fun tube => length tube = 4%nat) (firstn 6 (tubes res)) /\
    Forall (fun tube => length tube = 0%nat) (skipn 6 (tubes res)) /\
    resPerColorTubes res = [1; 3; 2] /\
    occurrences 0 (tubes res) = 4 /\
    occurrences 1 (tubes res) = 12 /\
    occurrences 2 (tubes res) = 8 /\
    totalBalls (tubes res) = 24.
Proof.
  exists result_example. split.
  - rewrite (createPuzzle_seeded rnd 0) by (simpl; discriminate).
    vm_compute. reflexivity.
  - repeat split; try reflexivity; simpl; repeat constructor.
Qed.

(** C8 (bounded retry, best-effort acceptance).  Once the
    configuration has passed the checks, the retry loop runs [k]
    passes with [1 <= k <= 100]: it stops at the first pass whose
    arrangement gives every filled tube min(3, colorCount) distinct
    colours, or after the 100th pass; createPuzzle then returns the
    arrangement of the last pass, followed by the empty tubes,
    whether or not the diversity condition is met. *)
Theorem createPuzzle_bounded_retry (rnd : Z) (config : GeneratorConfig)
    (p : Prepared) :
  prepare rnd config = Ok p ->
  exists k,
    (1 <= k <= 100)%nat /\
    attemptCount (afterPasses config p k) = k /\
    (colorDiversityMet (minColors config) (finalTubes (afterPasses config p k)) = true
     \/ k = 100%nat) /\
    (forall j, (1 <= j < k)%nat ->
       colorDiversityMet (minColors config) (finalTubes (afterPasses config p j))
       = false) /\
    createPuzzle rnd config
    = Ok {| tubes := finalTubes (afterPasses config p k)
                     ++ repeat [] (Z.to_nat (prEmptyTubes p));
            resPerColorTubes := prDistribution p;
            seedUsed := prSeedUsed p |}.
Proof.
  intro Hp.
  destruct (shuffleAttempts_spec maxShuffleAttempts (tubeCount config)
              (tubeSize config) (minColors config) (prLoop p))
    as [k [Hk [Eq [Hmet Hprev]]]]; [unfold maxShuffleAttempts; lia|].
  exists k. unfold afterPasses. repeat split; try (unfold maxShuffleAttempts in Hk; lia).
  - rewrite iter_attemptCount.
    apply prepare_Ok in Hp. destruct Hp as [_ Hp].
    rewrite (pf_count _ _ _ Hp). lia.
  - exact Hmet.
  - exact Hprev.
  - unfold createPuzzle. rewrite Hp. simpl. unfold finish.
    fold (minColors config). now rewrite Eq.
Qed.

(** Two colours, tubes of size one: the checks pass and the loop runs. *)
Lemma createPuzzle_bounded_retry_witness :
  exists k,
    (1 <= k <= 100)%nat /\
    attemptCount (afterPasses config_undiverse prepared_undiverse k) = k /\
    (colorDiversityMet (minColors config_undiverse)
       (finalTubes (afterPasses config_undiverse prepared_undiverse k)) = true
     \/ k = 100%nat) /\
    (forall j, (1 <= j < k)%nat ->
       colorDiversityMet (minColors config_undiverse)
         (finalTubes (afterPasses config_undiverse prepared_undiverse j))
       = false) /\
    createPuzzle 0 config_undiverse
    = Ok {| tubes := finalTubes (afterPasses config_undiverse prepared_undiverse k)
                     ++ repeat [] (Z.to_nat (prEmptyTubes prepared_undiverse));
            resPerColorTubes := prDistribution prepared_undiverse;
            seedUsed := prSeedUsed prepared_undiverse |}.
Proof.
  apply (createPuzzle_bounded_retry 0 config_undiverse prepared_undiverse).
  vm_compute. reflexivity.
Defined.

(** Two colours in tubes of size one can never give a tube two
    distinct colours: the loop uses its hundred passes and the
    puzzle is returned all the same. *)
Example undiverse_exhausts_budget :
  let st := shuffleAttempts maxShuffleAttempts 2 1 (minColors config_undiverse)
              (prLoop prepared_undiverse) in
  attemptCount st = 100%nat /\
  colorDiversityMet (minColors config_undiverse) (finalTubes st) = false /\
  createPuzzle 0 config_undiverse
  = Ok {| tubes := [[Some 1]; [Some 0]; []];
          resPerColorTubes := [1; 1]; seedUsed := 7 |}.
Proof. vm_compute. repeat split. Qed.

End GeneratorTheorems.

(** ** The adapter *)

Module AdapterFacts.
Import JS JSFacts Adapter AdapterSpec.
Import GeneratorFacts.

(** *** Derived parameters *)

Lemma clamp_min_max (x lo hi : Z) :
  lo <= hi -> Z.min hi (Z.max lo x) = clamp x lo hi.
Proof.
  intro H. unfold clamp.
  destruct (Z.ltb_spec x lo), (Z.ltb_spec hi x); lia.
Qed.

Lemma derive_bounds (config : PuzzleAdapterConfig) :
  3 <= colorCount (derive config) <= 12 /\
  1 <= actualEmptyTubes (derive config) <= 6 /\
  8 <= filledTubes (derive config) <= 13 /\
  3 <= actualColorCount (derive config) <= filledTubes (derive config).
Proof.
  unfold derive.
  cbn [colorCount actualEmptyTubes filledTubes actualColorCount].
  unfold TUBE_COUNT. lia.
Qed.

Lemma derive_actual_le (config : PuzzleAdapterConfig) :
  actualColorCount (derive config) <= colorCount (derive config).
Proof.
  unfold derive. cbn [colorCount actualColorCount]. lia.
Qed.

Lemma derive_perColorTubes (config : PuzzleAdapterConfig) :
  dPerColorTubes (derive config)
  = calculateColorDistribution (actualColorCount (derive config))
      (filledTubes (derive config)).
Proof. reflexivity. Qed.

(** *** calculateColorDistribution *)

Lemma calculateColorDistribution_length (cc filled : Z) :
  length (calculateColorDistribution cc filled) = Z.to_nat cc.
Proof. unfold calculateColorDistribution. now rewrite length_map, length_seq. Qed.

Lemma calculateColorDistribution_even (cc filled : Z) :
  0 < cc -> 0 <= filled ->
  calculateColorDistribution cc filled
  = map (evenShare filled cc) (seq 0 (Z.to_nat cc)).
Proof.
  intros Hcc Hf. unfold calculateColorDistribution, evenShare.
  rewrite Z.rem_mod_nonneg by lia.
  apply map_ext. intro i. destruct (Z.of_nat i <? filled mod cc); lia.
Qed.

Lemma sumZ_app (l1 l2 : list Z) : Generator.sumZ (l1 ++ l2) = Generator.sumZ l1 + Generator.sumZ l2.
Proof.
  induction l1 as [|x l1 IH]; simpl; [reflexivity|].
  rewrite !sumZ_cons, IH. lia.
Qed.

Lemma sumZ_shares (q r : Z) (n : nat) :
  0 <= r ->
  Generator.sumZ (map (fun i => q + (if Z.of_nat i <? r then 1 else 0)) (seq 0 n))
  = Z.of_nat n * q + Z.min r (Z.of_nat n).
Proof.
  intro Hr. induction n as [|n IH]; [simpl; unfold Generator.sumZ; simpl; lia|].
  rewrite seq_S, map_app, sumZ_app, IH. cbn [map Nat.add].
  rewrite sumZ_cons. change (Generator.sumZ []) with 0.
  destruct (Z.ltb_spec (Z.of_nat n) r); lia.
Qed.

Lemma calculateColorDistribution_sum (cc filled : Z) :
  0 < cc -> 0 <= filled ->
  Generator.sumZ (calculateColorDistribution cc filled) = filled.
Proof.
  intros Hcc Hf. rewrite calculateColorDistribution_even by assumption.
  unfold evenShare.
  pose proof (Z.mod_pos_bound filled cc Hcc) as Hm.
  rewrite sumZ_shares by lia.
  pose proof (Z.div_mod filled cc) as Hd. lia.
Qed.

Lemma calculateColorDistribution_pos (cc filled : Z) :
  0 < cc <= filled ->
  Forall (fun v => 1 <= v) (calculateColorDistribution cc filled).
Proof.
  intro H. rewrite calculateColorDistribution_even by lia.
  apply Forall_forall. intros v Hv. apply in_map_iff in Hv.
  destruct Hv as [i [<- _]]. unfold evenShare.
  assert (1 <= filled / cc) by (apply Z.div_le_lower_bound; lia).
  destruct (Z.of_nat i <? filled mod cc); lia.
Qed.

(** *** The generator accepts what the adapter derives *)

Lemma generatorConfig_accepted (config : PuzzleAdapterConfig) :
  GeneratorSpec.accepted (generatorConfig config).
Proof.
  pose proof (derive_bounds config) as [Hc [He [Hf Ha]]].
  unfold GeneratorSpec.accepted, GeneratorSpec.allowZeroOf.
  cbn [generatorConfig Generator.tubeSize Generator.tubeCount Generator.colorCount
       Generator.perColorTubes Generator.allowZeroTubesForColor Generator.orDefault].
  assert (P : Forall (fun v => 1 <= v) (dPerColorTubes (derive config))).
  { apply (calculateColorDistribution_pos
             (actualColorCount (derive config)) (filledTubes (derive config))).
    lia. }
  repeat split; try lia.
  - rewrite derive_perColorTubes, calculateColorDistribution_length. lia.
  - apply (calculateColorDistribution_sum
             (actualColorCount (derive config)) (filledTubes (derive config))); lia.
  - intros _. eapply Forall_impl; [|exact P]. simpl. intros; lia.
  - eapply Forall_impl; [|exact P]. simpl. intros; lia.
Qed.

Lemma selectColors_length (cc seed : Z) :
  0 <= cc <= 12 -> length (selectColors cc seed) = Z.to_nat cc.
Proof.
  intro H. unfold selectColors.
  pose proof (fisherYates_Permutation BALL_COLORS (Generator.seededRng seed)) as P.
  destruct (Generator.fisherYates BALL_COLORS (Generator.seededRng seed))
    as [colors t].
  simpl in P. apply Permutation_length in P. unfold slice0.
  destruct (Z.ltb_spec cc 0); [lia|].
  rewrite length_firstn, P. simpl. lia.
Qed.

(** *** The colour map of validatePuzzle *)

Lemma mapGet_mapSet (c k : BallColor) (v : Z) (m : ColorMap) :
  mapGet c (mapSet k v m) = if BallColor_eq_dec c k then Some v else mapGet c m.
Proof.
  induction m as [|[k' v'] m IH]; simpl.
  - destruct (BallColor_eq_dec c k); reflexivity.
  - destruct (BallColor_eq_dec k k') as [->|Hk]; simpl.
    + destruct (BallColor_eq_dec c k'); reflexivity.
    + destruct (BallColor_eq_dec c k') as [->|Hc].
      * destruct (BallColor_eq_dec k' k); [congruence | reflexivity].
      * exact IH.
Qed.

Lemma mapSet_keys (x k : BallColor) (v : Z) (m : ColorMap) :
  In x (map fst (mapSet k v m)) -> x = k \/ In x (map fst m).
Proof.
  induction m as [|[k' v'] m IH]; simpl.
  - intros [H|[]]; auto.
  - destruct (BallColor_eq_dec k k') as [->|Hk]; simpl.
    + tauto.
    + intros [H|H]; auto. apply IH in H. tauto.
Qed.

Lemma mapSet_NoDup (k : BallColor) (v : Z) (m : ColorMap) :
  NoDup (map fst m) -> NoDup (map fst (mapSet k v m)).
Proof.
  induction m as [|[k' v'] m IH]; simpl; intro H.
  - constructor; [intros [] | constructor].
  - inversion H as [|? ? Hn Hd]; subst.
    destruct (BallColor_eq_dec k k') as [->|Hk]; simpl.
    + now constructor.
    + constructor; [|now apply IH].
      intro Hin. apply mapSet_keys in Hin. destruct Hin; [congruence | contradiction].
Qed.

Lemma mapGet_In (c : BallColor) (n : Z) (m : ColorMap) :
  NoDup (map fst m) -> (In (c, n) m <-> mapGet c m = Some n).
Proof.
  induction m as [|[k v] m IH]; simpl; intro H.
  - split; [contradiction | discriminate].
  - inversion H as [|? ? Hn Hd]; subst.
    destruct (BallColor_eq_dec c k) as [->|Hc].
    + split.
      * intros [E|Hin]; [congruence|].
        exfalso. apply Hn. apply in_map_iff. now exists (k, n).
      * intro E. left. congruence.
    + rewrite <- (IH Hd). split.
      * intros [E|Hin]; [congruence | exact Hin].
      * auto.
Qed.

Lemma represents_ext (m : ColorMap) (f g : BallColor -> Z) :
  (forall c, f c = g c) -> represents m f -> represents m g.
Proof.
  intros E [N H]. split; [exact N|]. intro c. rewrite <- E. apply H.
Qed.

Lemma countBall_represents (m : ColorMap) (f : BallColor -> Z) (b : BallColor) :
  represents m f ->
  represents (countBall m b)
    (fun c => if BallColor_eq_dec c b then f c + 1 else f c).
Proof.
  intros [N H]. unfold countBall. split; [now apply mapSet_NoDup|].
  intro c. rewrite mapGet_mapSet.
  destruct (BallColor_eq_dec c b) as [->|Hc]; [|apply H].
  destruct (H b) as [Hb Hg]. split; [lia|]. rewrite Hg.
  destruct (Z.eqb_spec (f b) 0) as [E|E].
  - rewrite E. reflexivity.
  - destruct (Z.eqb_spec (f b) 0); [contradiction|].
    destruct (Z.eqb_spec (f b + 1) 0); [lia | reflexivity].
Qed.

Lemma fold_countBall_represents (balls : list BallColor) (m : ColorMap)
    (f : BallColor -> Z) :
  represents m f ->
  represents (fold_left countBall balls m)
    (fun c => f c + Z.of_nat (count_occ BallColor_eq_dec balls c)).
Proof.
  revert m f; induction balls as [|b balls IH]; intros m f R; simpl.
  - eapply represents_ext; [|exact R]. intro c. simpl. lia.
  - eapply represents_ext; [|apply IH, countBall_represents, R].
    intro c. simpl.
    destruct (BallColor_eq_dec c b) as [E1|E1], (BallColor_eq_dec b c) as [E2|E2];
      try congruence; lia.
Qed.

Lemma empty_represents : represents [] (fun _ => 0).
Proof. split; [constructor | intro c; simpl; split; [lia | reflexivity]]. Qed.

(** *** The scan of the tubes *)

Lemma scan_fold (tubes : list (list BallColor)) (sc0 : Scan) :
  let sc := fold_left (scanTube TUBE_CAPACITY) tubes sc0 in
  errors sc
  = errors sc0 ++ map (fun t => TubeCapacityError (length t)) (filter isOdd tubes) /\
  scEmptyTubeCount sc
  = scEmptyTubeCount sc0 + Z.of_nat (length (filter isEmpty tubes)) /\
  colorCounts sc
  = fold_left countBall (concat (filter isFull tubes)) (colorCounts sc0).
Proof.
  revert sc0; induction tubes as [|t tubes IH]; intro sc0; cbn [fold_left].
  - simpl. rewrite app_nil_r. repeat split. lia.
  - destruct (IH (scanTube TUBE_CAPACITY sc0 t)) as [E [N C]].
    cbv zeta. rewrite E, N, C. clear E N C IH.
    unfold scanTube, TUBE_CAPACITY, isOdd, isEmpty, isFull. cbn [filter].
    destruct (Nat.eqb_spec (length t) 0) as [H0|H0].
    + destruct (Z.eqb_spec (Z.of_nat (length t)) 0); [|lia].
      replace (length t =? 8)%nat with false by (symmetry; apply Nat.eqb_neq; lia).
      simpl. repeat split. lia.
    + destruct (Z.eqb_spec (Z.of_nat (length t)) 0); [lia|].
      destruct (Nat.eqb_spec (length t) 8) as [H8|H8].
      * destruct (Z.eqb_spec (Z.of_nat (length t)) 8); [|lia].
        simpl. rewrite fold_left_app. repeat split.
      * destruct (Z.eqb_spec (Z.of_nat (length t)) 8); [lia|].
        simpl. rewrite <- app_assoc. repeat split.
Qed.

(** The error list of validatePuzzle, part by part. *)
Lemma validatePuzzle_errors (tubes : list (list BallColor)) :
  vErrors (validatePuzzle tubes)
  = (if (length tubes =? 14)%nat then [] else [TubeCountError (length tubes)])
    ++ map (fun t => TubeCapacityError (length t)) (filter isOdd tubes)
    ++ (if (emptyTubes tubes =? 2)%nat then []
        else [EmptyTubeCountError (Z.of_nat (emptyTubes tubes))])
    ++ colorErrors 8
         (fold_left countBall (concat (filter isFull tubes)) []).
Proof.
  unfold validatePuzzle. cbn [vErrors].
  match goal with
  | |- context [fold_left (scanTube TUBE_CAPACITY) tubes ?s] =>
      destruct (scan_fold tubes s) as [E [N C]]
  end.
  cbv zeta in E, N, C. rewrite E, N, C. cbn [errors scEmptyTubeCount colorCounts].
  change (length (filter isEmpty tubes)) with (emptyTubes tubes).
  rewrite !Z.add_0_l. unfold TUBE_COUNT, TUBE_CAPACITY.
  replace (Z.of_nat (length tubes) =? 14) with (length tubes =? 14)%nat.
  2:{ destruct (Nat.eqb_spec (length tubes) 14), (Z.eqb_spec (Z.of_nat (length tubes)) 14);
      auto; lia. }
  replace (Z.of_nat (emptyTubes tubes) =? 2) with (emptyTubes tubes =? 2)%nat.
  2:{ destruct (Nat.eqb_spec (emptyTubes tubes) 2),
               (Z.eqb_spec (Z.of_nat (emptyTubes tubes)) 2); auto; lia. }
  destruct (emptyTubes tubes =? 2)%nat; rewrite <- ?app_assoc; reflexivity.
Qed.

Lemma is_nil_true (l : list ValidationError) :
  match l with [] => true | _ => false end = true <-> l = [].
Proof. destruct l; split; congruence. Qed.

Lemma valid_iff_no_errors (tubes : list (list BallColor)) :
  valid (validatePuzzle tubes) = true <-> vErrors (validatePuzzle tubes) = [].
Proof.
  unfold validatePuzzle. cbn [valid vErrors]. apply is_nil_true.
Qed.

Lemma colorErrors_In (c : BallColor) (n : Z) (m : ColorMap) :
  In (ColorCountError c n) (colorErrors 8 m) <-> In (c, n) m /\ Z.rem n 8 <> 0.
Proof.
  unfold colorErrors. rewrite in_flat_map. split.
  - intros [[c' n'] [Hin H]].
    destruct (Z.eqb_spec (Z.rem n' 8) 0); [contradiction|].
    destruct H as [H|[]]. injection H as -> ->. auto.
  - intros [Hin Hr]. exists (c, n). split; [exact Hin|].
    destruct (Z.eqb_spec (Z.rem n 8) 0); [contradiction | now left].
Qed.

Lemma colorErrors_kind (e : ValidationError) (m : ColorMap) :
  In e (colorErrors 8 m) -> exists c n, e = ColorCountError c n.
Proof.
  unfold colorErrors. rewrite in_flat_map. intros [[c n] [_ H]].
  destruct (Z.rem n 8 =? 0); [contradiction|].
  destruct H as [<-|[]]. eauto.
Qed.

Lemma colorErrors_wrong (tubes : list (list BallColor)) :
  (exists c n, In (ColorCountError c n)
                 (colorErrors 8 (fold_left countBall (concat (filter isFull tubes)) [])))
  <-> wrongColorTotal tubes.
Proof.
  pose proof (fold_countBall_represents (concat (filter isFull tubes)) [] _
                empty_represents) as [N R].
  unfold wrongColorTotal, colorTotal. split.
  - intros [c [n H]]. apply colorErrors_In in H. destruct H as [Hin Hr].
    apply (mapGet_In _ _ _ N) in Hin. destruct (R c) as [Hp Hg].
    rewrite Hg in Hin. simpl in Hin, Hp. exists c.
    destruct (Z.eqb_spec (Z.of_nat (count_occ BallColor_eq_dec
                                      (concat (filter isFull tubes)) c)) 0);
      [discriminate|].
    injection Hin as <-. rewrite Z.rem_mod_nonneg in Hr by lia. exact Hr.
  - intros [c Hc]. destruct (R c) as [Hp Hg]. simpl in Hp, Hg.
    set (n := Z.of_nat (count_occ BallColor_eq_dec
                          (concat (filter isFull tubes)) c)) in *.
    destruct (Z.eqb_spec n 0) as [E|E].
    + rewrite E in Hc. now contradiction Hc.
    + exists c, n. apply colorErrors_In. split.
      * now apply (mapGet_In _ _ _ N).
      * rewrite Z.rem_mod_nonneg by lia. exact Hc.
Qed.

Lemma odd_tubes_wrong (tubes : list (list BallColor)) :
  (exists len, In (TubeCapacityError len)
                 (map (fun t => TubeCapacityError (length t)) (filter isOdd tubes)))
  <-> wrongTubeLength tubes.
Proof.
  unfold wrongTubeLength. split.
  - intros [len H]. apply in_map_iff in H. destruct H as [t [_ H]].
    apply filter_In in H. destruct H as [Hin Ho]. exists t. split; [exact Hin|].
    unfold isOdd, isEmpty, isFull in Ho. apply andb_prop in Ho.
    destruct Ho as [H0 H8]. apply negb_true_iff in H0, H8.
    apply Nat.eqb_neq in H0, H8. auto.
  - intros [t [Hin [H0 H8]]]. exists (length t). apply in_map_iff.
    exists t. split; [reflexivity|]. apply filter_In. split; [exact Hin|].
    unfold isOdd, isEmpty, isFull.
    apply Nat.eqb_neq in H0, H8. now rewrite H0, H8.
Qed.

(** Each kind of error in the list of validatePuzzle. *)

Ltac other_kind :=
  repeat match goal with
         | H : In _ (_ ++ _) |- _ => apply in_app_or in H; destruct H as [H|H]
         | H : In _ (if ?b then _ else _) |- _ => destruct b
         | H : In _ [] |- _ => destruct H
         | H : In _ [_] |- _ => destruct H as [H|[]]; try discriminate H
         | H : In _ (map _ _) |- _ =>
             apply in_map_iff in H; destruct H as [? [H _]]; try discriminate H
         | H : In _ (colorErrors _ _) |- _ =>
             apply colorErrors_kind in H; destruct H as [? [? H]]; try discriminate H
         end.

Lemma errors_tubeCount (tubes : list (list BallColor)) :
  (exists n, In (TubeCountError n) (vErrors (validatePuzzle tubes)))
  <-> wrongTubeCount tubes.
Proof.
  rewrite validatePuzzle_errors. unfold wrongTubeCount. split.
  - intros [n H]. apply in_app_or in H. destruct H as [H|H].
    + destruct (Nat.eqb_spec (length tubes) 14); [destruct H | assumption].
    + exfalso. other_kind.
  - intro H. exists (length tubes). apply in_or_app. left.
    destruct (Nat.eqb_spec (length tubes) 14); [contradiction | now left].
Qed.

Lemma errors_capacity (tubes : list (list BallColor)) :
  (exists len, In (TubeCapacityError len) (vErrors (validatePuzzle tubes)))
  <-> wrongTubeLength tubes.
Proof.
  rewrite validatePuzzle_errors, <- odd_tubes_wrong. split.
  - intros [len H]. exists len.
    apply in_app_or in H. destruct H as [H|H]; [exfalso; other_kind|].
    apply in_app_or in H. destruct H as [H|H]; [exact H|]. exfalso. other_kind.
  - intros [len H]. exists len. apply in_or_app. right. apply in_or_app. now left.
Qed.

Lemma errors_emptyCount (tubes : list (list BallColor)) :
  (exists n, In (EmptyTubeCountError n) (vErrors (validatePuzzle tubes)))
  <-> wrongEmptyCount tubes.
Proof.
  rewrite validatePuzzle_errors. unfold wrongEmptyCount. split.
  - intros [n H].
    apply in_app_or in H. destruct H as [H|H]; [exfalso; other_kind|].
    apply in_app_or in H. destruct H as [H|H]; [exfalso; other_kind|].
    apply in_app_or in H. destruct H as [H|H]; [|exfalso; other_kind].
    destruct (Nat.eqb_spec (emptyTubes tubes) 2); [destruct H | assumption].
  - intro H. exists (Z.of_nat (emptyTubes tubes)).
    apply in_or_app. right. apply in_or_app. right. apply in_or_app. left.
    destruct (Nat.eqb_spec (emptyTubes tubes) 2); [contradiction | now left].
Qed.

Lemma errors_color (tubes : list (list BallColor)) :
  (exists c n, In (ColorCountError c n) (vErrors (validatePuzzle tubes)))
  <-> wrongColorTotal tubes.
Proof.
  rewrite validatePuzzle_errors, <- colorErrors_wrong. split.
  - intros [c [n H]]. exists c, n.
    apply in_app_or in H. destruct H as [H|H]; [exfalso; other_kind|].
    apply in_app_or in H. destruct H as [H|H]; [exfalso; other_kind|].
    apply in_app_or in H. destruct H as [H|H]; [exfalso; other_kind | exact H].
  - intros [c [n H]]. exists c, n.
    apply in_or_app. right. apply in_or_app. right. apply in_or_app. now right.
Qed.

(** Every cell of the adapter's result is a colour of the palette: no
    index is read past [usedColors]. *)
Lemma generatePuzzleWithAdapter_cells (rnd : Z) (config : PuzzleAdapterConfig)
    (res : PuzzleAdapterResult) (cell : option BallColor) :
  generatePuzzleWithAdapter rnd config = Generator.Ok res ->
  In cell (concat (tubes res)) ->
  exists color, cell = Some color /\ In color (usedColors res).
Proof.
  unfold generatePuzzleWithAdapter.
  destruct (Generator.createPuzzle rnd (generatorConfig config)) as [r|e] eqn:E;
    simpl; [|discriminate].
  intro H. injection H as <-. cbn [tubes usedColors].
  pose proof (derive_bounds config) as [Hc [_ [_ Ha]]].
  intro Hin. apply in_concat in Hin. destruct Hin as [tube' [Ht Hcell]].
  apply in_map_iff in Ht. destruct Ht as [tube [<- Hin]].
  apply in_map_iff in Hcell. destruct Hcell as [idx [<- Hidx]].
  assert (Hin' : In idx (concat (Generator.tubes r))).
  { apply in_concat. eauto. }
  destruct (createPuzzle_cell_range _ _ _ _ E Hin') as [c [-> Hrange]].
  cbn [generatorConfig Generator.colorCount] in Hrange.
  set (palette := selectColors _ (Generator.seedUsed r)).
  assert (L : length palette = Z.to_nat (colorCount (derive config)))
    by (apply selectColors_length; lia).
  unfold colorAt. destruct (Z.ltb_spec c 0); [lia|].
  destruct (nth_error palette (Z.to_nat c)) as [color|] eqn:N.
  - exists color. split; [reflexivity|]. exact (nth_error_In _ _ N).
  - apply nth_error_None in N.
    pose proof (derive_actual_le config). lia.
Qed.

End AdapterFacts.

(** ** Theorems about the adapter *)

Module AdapterTheorems.
Import JS Adapter AdapterSpec AdapterFacts.

(** C4 (adapter parameter derivation).  For every difficulty and
    empty-tube count, the adapter computes
    colorCount = clamp(difficulty + 2, 3, 12),
    actualEmptyTubes = clamp(emptyTubeCount, 1, 6),
    filledTubes = 14 - actualEmptyTubes,
    actualColorCount = min(colorCount, filledTubes),
    and hands createPuzzle the distribution that splits filledTubes
    evenly over actualColorCount colours, the first
    filledTubes mod actualColorCount colours getting one more tube. *)
Theorem adapter_parameter_derivation (config : PuzzleAdapterConfig) :
  let cc := clamp (difficulty config + 2) 3 12 in
  let ae := clamp (requestedEmpty config) 1 6 in
  let filled := 14 - ae in
  let acc := Z.min cc filled in
  let g := generatorConfig config in
  colorCount (derive config) = cc /\
  actualEmptyTubes (derive config) = ae /\
  filledTubes (derive config) = filled /\
  actualColorCount (derive config) = acc /\
  Generator.colorCount g = acc /\
  Generator.tubeCount g = filled /\
  Generator.tubeSize g = 8 /\
  Generator.emptyTubeCount g = Some ae /\
  Generator.perColorTubes g
  = Some (map (evenShare filled acc) (seq 0 (Z.to_nat acc))).
Proof.
  intros cc ae filled acc g.
  pose proof (derive_bounds config) as [Hc [He [Hf Ha]]].
  assert (E1 : colorCount (derive config) = cc).
  { unfold derive. cbn [colorCount]. apply clamp_min_max. lia. }
  assert (E2 : actualEmptyTubes (derive config) = ae).
  { unfold derive. cbn [actualEmptyTubes]. apply clamp_min_max. lia. }
  assert (E3 : filledTubes (derive config) = filled).
  { unfold filled. rewrite <- E2. reflexivity. }
  assert (E4 : actualColorCount (derive config) = acc).
  { unfold acc. rewrite <- E1, <- E3. reflexivity. }
  repeat split; auto.
  - unfold g. cbn [generatorConfig Generator.emptyTubeCount]. now rewrite E2.
  - unfold g. cbn [generatorConfig Generator.perColorTubes]. f_equal.
    rewrite <- E3, <- E4.
    apply (calculateColorDistribution_even
             (actualColorCount (derive config)) (filledTubes (derive config))); lia.
Qed.

(** The instances named by the specification: difficulty 1 gives 3
    colours, 10 gives 12, 15 still 12 and 0 gives 3. *)
Example difficulty_to_colors (e : option Z) (s : Generator.Seed) :
  colorCount (derive (adapterConfig 1 e s)) = 3 /\
  colorCount (derive (adapterConfig 10 e s)) = 12 /\
  colorCount (derive (adapterConfig 15 e s)) = 12 /\
  colorCount (derive (adapterConfig 0 e s)) = 3.
Proof. repeat split. Qed.

(** C9 (adapter call safety).  For every difficulty, empty-tube count
    and seed, the distribution derived by the adapter has length
    actualColorCount, sums to filledTubes and has every entry at
    least 1, with actualColorCount <= filledTubes; the derived
    configuration passes every check of createPuzzle, and
    generatePuzzleWithAdapter returns a result. *)
Theorem adapter_never_throws (rnd : Z) (config : PuzzleAdapterConfig) :
  let d := derive config in
  actualColorCount d <= filledTubes d /\
  Z.of_nat (length (dPerColorTubes d)) = actualColorCount d /\
  Generator.sumZ (dPerColorTubes d) = filledTubes d /\
  Forall (fun v => 1 <= v) (dPerColorTubes d) /\
  GeneratorSpec.accepted (generatorConfig config) /\
  (exists res, Generator.createPuzzle rnd (generatorConfig config) = Generator.Ok res) /\
  (exists res, generatePuzzleWithAdapter rnd config = Generator.Ok res).
Proof.
  intro d. pose proof (derive_bounds config) as [Hc [He [Hf Ha]]]. fold d in Hc, He, Hf, Ha.
  pose proof (generatorConfig_accepted config) as A.
  destruct (proj2 (GeneratorFacts.returns_accepted rnd _) A) as [res Hres].
  split; [lia|]. split.
  { unfold d. rewrite derive_perColorTubes, calculateColorDistribution_length.
    fold d. lia. }
  split.
  { apply (calculateColorDistribution_sum (actualColorCount d) (filledTubes d)); lia. }
  split.
  { apply (calculateColorDistribution_pos (actualColorCount d) (filledTubes d)); lia. }
  split; [exact A|]. split; [eauto|].
  unfold generatePuzzleWithAdapter. rewrite Hres. simpl. eauto.
Qed.

(** C5 (validatePuzzle).  validatePuzzle is a total function; its
    result is valid exactly when its error list is empty; the list
    holds a tube-count error exactly when the number of tubes is not
    14, a capacity error exactly when some tube has a length other
    than 0 and 8, an empty-count error exactly when the number of
    empty tubes is not 2, and a colour error exactly when some
    colour's count over the full tubes is not a multiple of 8. *)
Theorem validatePuzzle_spec (tubes : list (list BallColor)) :
  let v := validatePuzzle tubes in
  (valid v = true <-> vErrors v = []) /\
  ((exists n, In (TubeCountError n) (vErrors v)) <-> wrongTubeCount tubes) /\
  ((exists len, In (TubeCapacityError len) (vErrors v)) <-> wrongTubeLength tubes) /\
  ((exists n, In (EmptyTubeCountError n) (vErrors v)) <-> wrongEmptyCount tubes) /\
  ((exists c n, In (ColorCountError c n) (vErrors v)) <-> wrongColorTotal tubes) /\
  (valid v = true <->
   ~ wrongTubeCount tubes /\ ~ wrongTubeLength tubes /\
   ~ wrongEmptyCount tubes /\ ~ wrongColorTotal tubes).
Proof.
  intro v.
  pose proof (valid_iff_no_errors tubes) as V. fold v in V.
  pose proof (errors_tubeCount tubes) as H1.
  pose proof (errors_capacity tubes) as H2.
  pose proof (errors_emptyCount tubes) as H3.
  pose proof (errors_color tubes) as H4.
  fold v in H1, H2, H3, H4.
  split; [exact V|]. split; [exact H1|]. split; [exact H2|].
  split; [exact H3|]. split; [exact H4|].
  rewrite V. split.
  - intro E. rewrite E in H1, H2, H3, H4.
    rewrite <- H1, <- H2, <- H3, <- H4.
    repeat split; intro H; repeat destruct H as [? H]; exact H.
  - intros [N1 [N2 [N3 N4]]].
    destruct (vErrors v) as [|e l] eqn:E; [reflexivity|]. exfalso.
    destruct e as [n|len|n|c n].
    + apply N1, H1. exists n. now left.
    + apply N2, H2. exists len. now left.
    + apply N3, H3. exists n. now left.
    + apply N4, H4. exists c, n. now left.
Qed.

(** A solved board passes; a board with a third empty tube in place
    of a full one is reported. *)
Example validatePuzzle_solved :
  validatePuzzle board_solved = {| valid := true; vErrors := [] |}.
Proof. reflexivity. Qed.

Example validatePuzzle_three_empty :
  validatePuzzle (tl board_solved ++ [[]])
  = {| valid := false; vErrors := [EmptyTubeCountError 3] |}.
Proof. reflexivity. Qed.

End AdapterTheorems.

(** ** The pregeneration memo *)

Module PuzzleCacheFacts.
Import CacheStore PuzzleCache PuzzleCacheSpec.

(** The body of pregeneration is its last segment run on what the two
    awaits delivered. *)
Lemma pregenerateBody_resume (env : Env) (st : State) :
  pregenerateBody env st
  = resumeBody env (clampedEmpty env)
      (loadPuzzlesConfig env (clampedEmpty env)) st.
Proof. reflexivity. Qed.

Lemma setPhase_length (i : nat) (phase : Phase) (l : list Phase) :
  length (setPhase i phase l) = length l.
Proof.
  revert i; induction l as [|p l IH]; intros [|i]; cbn [setPhase length];
    try reflexivity.
  now rewrite IH.
Qed.

(** A step of a chain neither touches the memo nor starts a chain. *)
Lemma progress_memo (envOf : nat -> Env) (i : nat) (st : ModuleState) :
  pregeneratePromise (progress envOf i st) = pregeneratePromise st /\
  started (progress envOf i st) = started st.
Proof.
  unfold progress, started.
  destruct (nth_error (chains st) i) as [phase|]; [|split; reflexivity].
  destruct (advance (envOf i) phase (shared st)) as [phase' shared'].
  cbn [pregeneratePromise chains]. split; [reflexivity | apply setPhase_length].
Qed.

Lemma pregeneratePuzzles_started (st : ModuleState) :
  started (pregeneratePuzzles st) = S (started st).
Proof.
  unfold started, pregeneratePuzzles. cbn [chains].
  rewrite length_app. cbn [length]. lia.
Qed.

Lemma step_memo (envOf : nat -> Env) (st : ModuleState) (e : Event) (q : nat) :
  isDirect e = false ->
  pregeneratePromise st = Some q ->
  pregeneratePromise (snd (step envOf st e)) = Some q /\
  started (snd (step envOf st e)) = started st /\
  Forall (eq (Some q)) (fst (step envOf st e)).
Proof.
  intros D H. destruct e as [| |i]; [|discriminate D|].
  - unfold step, waitForPregenerate. rewrite H. cbn [fst snd].
    split; [exact H|]. split; [reflexivity|]. constructor; [reflexivity|constructor].
  - cbn [step fst snd]. destruct (progress_memo envOf i st) as [M S].
    rewrite M, S. split; [exact H|]. split; [reflexivity | constructor].
Qed.

Lemma noDirect_cons (e : Event) (trace : list Event) :
  noDirect (e :: trace) = true -> isDirect e = false /\ noDirect trace = true.
Proof.
  unfold noDirect. cbn [forallb]. intro H. apply andb_true_iff in H.
  destruct H as [H1 H2]. split; [|exact H2].
  now apply negb_true_iff in H1.
Qed.

Lemma run_cons (envOf : nat -> Env) (st : ModuleState) (e : Event)
    (trace : list Event) :
  run envOf st (e :: trace)
  = (fst (step envOf st e) ++ fst (run envOf (snd (step envOf st e)) trace),
     snd (run envOf (snd (step envOf st e)) trace)).
Proof.
  cbn [run]. destruct (step envOf st e) as [out st1].
  cbn [fst snd]. now destruct (run envOf st1 trace).
Qed.

(** Once a promise is memoized, requests hand it out and start
    nothing. *)
Lemma run_memo (envOf : nat -> Env) (trace : list Event) (st : ModuleState)
    (q : nat) :
  noDirect trace = true ->
  pregeneratePromise st = Some q ->
  pregeneratePromise (snd (run envOf st trace)) = Some q /\
  started (snd (run envOf st trace)) = started st /\
  Forall (eq (Some q)) (fst (run envOf st trace)).
Proof.
  revert st; induction trace as [|e trace IH]; intros st N H.
  - cbn [run fst snd]. split; [exact H|]. split; [reflexivity | constructor].
  - apply noDirect_cons in N. destruct N as [D N].
    destruct (step_memo envOf st e q D H) as [M [S F]].
    destruct (IH _ N M) as [M' [S' F']].
    rewrite run_cons. cbn [fst snd].
    split; [exact M'|]. split; [congruence|]. apply Forall_app. now split.
Qed.

(** With nothing memoized, the first request starts the one chain. *)
Lemma run_fresh (envOf : nat -> Env) (trace : list Event) (st : ModuleState) :
  noDirect trace = true ->
  pregeneratePromise st = None ->
  (started st <= started (snd (run envOf st trace)) <= S (started st))%nat /\
  Forall (eq (Some (started st))) (fst (run envOf st trace)).
Proof.
  revert st; induction trace as [|e trace IH]; intros st N H.
  - cbn [run fst snd]. split; [lia | constructor].
  - apply noDirect_cons in N. destruct N as [D N].
    rewrite run_cons. cbn [fst snd].
    destruct e as [| |i]; [|discriminate D|].
    + unfold step, waitForPregenerate. rewrite H. cbn [fst snd].
      destruct (run_memo envOf trace (pregeneratePuzzles st) (started st) N eq_refl)
        as [_ [S F]].
      rewrite S, pregeneratePuzzles_started. split; [lia|].
      constructor; [reflexivity | exact F].
    + cbn [step fst snd]. destruct (progress_memo envOf i st) as [M S].
      rewrite <- M in H. destruct (IH _ N H) as [B F].
      rewrite S in B, F. split; [exact B | exact F].
Qed.

(** A run without direct calls keeps its one chain alone: the cache
    and storage are as at load until that chain passes its last await,
    and what its body made of them afterwards. *)
Lemma step_alone (envOf : nat -> Env) (stored : option StoredPuzzles)
    (st : ModuleState) (e : Event) :
  isDirect e = false ->
  alone envOf stored st -> alone envOf stored (snd (step envOf st e)).
Proof.
  intros D A. destruct e as [| |i]; [|discriminate D|].
  - unfold step, waitForPregenerate.
    destruct A as [(M & C & S) | (M & phase & C & P)].
    + rewrite M. cbn [fst snd]. right.
      unfold pregeneratePuzzles, started. rewrite C.
      cbn [pregeneratePromise chains shared length app].
      split; [reflexivity|]. exists AwaitOutputConfig.
      split; [reflexivity|]. left. split; [now left | exact S].
    + rewrite M. cbn [fst snd]. right. split; [exact M|]. now exists phase.
  - cbn [step snd]. unfold progress.
    destruct A as [(M & C & S) | (M & phase & C & P)].
    + rewrite C. destruct i; cbn [nth_error]; left; auto.
    + rewrite C. destruct i as [|i].
      2:{ destruct i; cbn [nth_error]; right; (split; [exact M|]); now exists phase. }
      cbn [nth_error].
      destruct P as [[B S] | [B S]].
      * destruct B as [-> | [-> | ->]]; cbn [advance setPhase];
          right; cbn [pregeneratePromise chains shared];
          (split; [exact M|]).
        -- exists AwaitConfigValue. split; [reflexivity|].
           left. split; [right; now left | exact S].
        -- exists (AwaitPuzzlesConfig (clampedEmpty (envOf 0%nat))
                     (loadPuzzlesConfig (envOf 0%nat) (clampedEmpty (envOf 0%nat)))).
           split; [reflexivity|]. left. split; [right; now right | exact S].
        -- exists Returned. split; [reflexivity|].
           right. split; [now left|]. rewrite S. symmetry.
           apply pregenerateBody_resume.
      * destruct B as [-> | ->]; cbn [advance setPhase];
          right; cbn [pregeneratePromise chains shared];
          (split; [exact M|]); exists Settled; (split; [reflexivity|]);
          right; (split; [now right | exact S]).
Qed.

Lemma run_alone (envOf : nat -> Env) (stored : option StoredPuzzles)
    (trace : list Event) (st : ModuleState) :
  noDirect trace = true ->
  alone envOf stored st -> alone envOf stored (snd (run envOf st trace)).
Proof.
  revert st; induction trace as [|e trace IH]; intros st N A.
  - exact A.
  - apply noDirect_cons in N. destruct N as [D N].
    rewrite run_cons. cbn [snd]. apply (IH _ N). now apply step_alone.
Qed.

Lemma alone_initial (envOf : nat -> Env) (stored : option StoredPuzzles) :
  alone envOf stored (initial stored).
Proof. left. split; [reflexivity|]. split; reflexivity. Qed.

Lemma alone_once (envOf : nat -> Env) (stored : option StoredPuzzles)
    (st : ModuleState) :
  alone envOf stored st ->
  (started st <= 1)%nat /\
  (inFlight st <= 1)%nat /\
  (shared st = freshSession stored \/
   shared st = pregenerateBody (envOf 0%nat) (freshSession stored)).
Proof.
  unfold started, inFlight.
  intros [(M & C & S) | (M & phase & C & [[B S] | [B S]])]; rewrite C.
  - cbn [length filter]. split; [lia|]. split; [lia | now left].
  - cbn [length filter]. split; [lia|]. split; [|now left].
    destruct (pending phase); cbn [length]; lia.
  - cbn [length filter]. split; [lia|]. split; [|now right].
    destruct (pending phase); cbn [length]; lia.
Qed.

End PuzzleCacheFacts.

(** ** Theorems about the pregeneration memo *)

Module PuzzleCacheTheorems.
Import CacheStore PuzzleCache PuzzleCacheSpec PuzzleCacheFacts.

(** C10 (single in-flight pregeneration), as stated: fails.  The memo
    guards waitForPregenerate only.  With a direct call of
    pregeneratePuzzles between two requests, and nothing settled yet,
    the two callers hold different promises and two chains are in
    flight together. *)
Lemma direct_call_breaks_single_flight :
  fst (run (sameEnv env_first_start) (initial None) trace_direct_between)
  = [Some 0%nat; Some 1%nat] /\
  chains (snd (run (sameEnv env_first_start) (initial None) trace_direct_between))
  = [AwaitOutputConfig; AwaitOutputConfig] /\
  ~ singleInFlight (sameEnv env_first_start) None trace_direct_between.
Proof.
  split; [reflexivity|]. split; [reflexivity|].
  intros (_ & S & _). vm_compute in S. lia.
Qed.

(** C10 (single in-flight pregeneration), amended.  As long as
    pregeneratePuzzles is reached through waitForPregenerate only,
    every caller receives the same promise, whatever the state of the
    module and however the requests interleave with the steps of the
    chains: the memoized one when there is one, and otherwise the
    promise of the one chain that the first request starts.  From
    module load such a run has at most one chain, so never two in
    flight, and the body of pregeneration (config load, storage load
    or live generation of the three tiers) runs at most once on the
    cache and storage. *)
Theorem waitForPregenerate_single_flight (envOf : nat -> Env)
    (st : ModuleState) (trace : list Event) :
  noDirect trace = true ->
  let handed := fst (run envOf st trace) in
  let st' := snd (run envOf st trace) in
  (exists p, Forall (eq (Some p)) handed) /\
  match pregeneratePromise st with
  | Some q => Forall (eq (Some q)) handed /\ started st' = started st
  | None =>
      Forall (eq (Some (started st))) handed /\
      (started st <= started st' <= S (started st))%nat
  end /\
  (forall stored, st = initial stored ->
     (started st' <= 1)%nat /\
     (inFlight st' <= 1)%nat /\
     (shared st' = freshSession stored \/
      shared st' = pregenerateBody (envOf 0%nat) (freshSession stored))).
Proof.
  intros N handed st'. unfold handed, st'.
  assert (I : forall stored, st = initial stored ->
     (started (snd (run envOf st trace)) <= 1)%nat /\
     (inFlight (snd (run envOf st trace)) <= 1)%nat /\
     (shared (snd (run envOf st trace)) = freshSession stored \/
      shared (snd (run envOf st trace))
      = pregenerateBody (envOf 0%nat) (freshSession stored))).
  { intros stored ->. apply alone_once.
    apply run_alone; [exact N | apply alone_initial]. }
  destruct (pregeneratePromise st) as [q|] eqn:H.
  - destruct (run_memo envOf trace st q N H) as [_ [S F]].
    split; [now exists q|]. split; [now split | exact I].
  - destruct (run_fresh envOf trace st N H) as [B F].
    split; [now exists (started st)|]. split; [now split | exact I].
Qed.

Lemma waitForPregenerate_single_flight_witness :
  let envOf := sameEnv env_first_start in
  let st := initial None in
  let handed := fst (run envOf st trace_waiters) in
  let st' := snd (run envOf st trace_waiters) in
  (exists p, Forall (eq (Some p)) handed) /\
  match pregeneratePromise st with
  | Some q => Forall (eq (Some q)) handed /\ started st' = started st
  | None =>
      Forall (eq (Some (started st))) handed /\
      (started st <= started st' <= S (started st))%nat
  end /\
  (forall stored, st = initial stored ->
     (started st' <= 1)%nat /\
     (inFlight st' <= 1)%nat /\
     (shared st' = freshSession stored \/
      shared st' = pregenerateBody (envOf 0%nat) (freshSession stored))).
Proof.
  exact (waitForPregenerate_single_flight (sameEnv env_first_start)
           (initial None) trace_waiters eq_refl).
Defined.

(** Four requests, the chain settling in between: one promise, one
    chain, the body run once. *)
Lemma four_waiters (envOf : nat -> Env) (stored : option StoredPuzzles) :
  run envOf (initial stored) trace_waiters
  = ([Some 0; Some 0; Some 0; Some 0]%nat,
     {| pregeneratePromise := Some 0%nat;
        chains := [Settled];
        shared := pregenerateBody (envOf 0%nat) (freshSession stored) |}).
Proof. reflexivity. Qed.

(** The start of the program calls pregeneratePuzzles twice before the
    preloader asks: two chains, the second memoized, and the body run
    twice, the second time on what the first left in the cache and in
    storage. *)
Lemma startup_runs_two_chains (envOf : nat -> Env)
    (stored : option StoredPuzzles) :
  run envOf (initial stored) trace_startup
  = ([Some 1%nat],
     {| pregeneratePromise := Some 1%nat;
        chains := [Settled; Settled];
        shared := pregenerateBody (envOf 1%nat)
                    (pregenerateBody (envOf 0%nat) (freshSession stored)) |}).
Proof. reflexivity. Qed.

End PuzzleCacheTheorems.

(* ================================================================== *)
(** * Further properties of the generator *)
(* ================================================================== *)

Module GeneratorMoreFacts.
Import JS JSFacts Generator GeneratorSpec GeneratorFacts GeneratorVariants.

Lemma rngNext_state (t : Z) : snd (rngNext t) = t + rngIncrement.
Proof. reflexivity. Qed.

Lemma randBelow_state (t n : Z) : snd (randBelow t n) = t + rngIncrement.
Proof.
  unfold randBelow. pose proof (rngNext_state t) as H.
  destruct (rngNext t) as [u t']. exact H.
Qed.

Lemma fyLoop_state {A} (i : nat) (t : Z) (a : list A) :
  snd (fyLoop i t a) = t + Z.of_nat i * rngIncrement.
Proof.
  revert t a; induction i as [|i IH]; intros t a.
  - simpl. lia.
  - cbn [fyLoop]. pose proof (randBelow_state t (Z.of_nat (S i) + 1)) as H.
    destruct (randBelow t (Z.of_nat (S i) + 1)) as [j t']. simpl in H.
    rewrite IH, H. lia.
Qed.

Lemma distributeRemaining_state (n : nat) (cc t : Z) (res : list Z) :
  snd (distributeRemaining n cc t res) = t + Z.of_nat n * rngIncrement.
Proof.
  revert t res; induction n as [|n IH]; intros t res.
  - simpl. lia.
  - cbn [distributeRemaining]. pose proof (randBelow_state t cc) as H.
    destruct (randBelow t cc) as [idx t']. simpl in H.
    rewrite IH, H. lia.
Qed.

Lemma distributeRemaining_least (n : nat) (cc t : Z) (res : list Z) :
  Forall (fun v => 1 <= v) res ->
  Forall (fun v => 1 <= v) (fst (distributeRemaining n cc t res)).
Proof.
  revert t res; induction n as [|n IH]; intros t res F.
  - exact F.
  - cbn [distributeRemaining]. destruct (randBelow t cc) as [idx t'].
    apply IH. apply Forall_upd; [exact F|].
    destruct (Nat.lt_ge_cases (Z.to_nat idx) (length res)) as [Hi|Hi].
    + pose proof (Forall_nth_Z _ _ _ F Hi) as Hn. cbv beta in Hn. lia.
    + rewrite nth_overflow by exact Hi. lia.
Qed.

(** Without zero tubes allowed every colour keeps its first tube. *)
Lemma autoDistributeTubes_positive (cc tc t : Z) (dist : list Z) (t' : Z) :
  autoDistributeTubes cc tc t false = Ok (dist, t') ->
  Forall (fun v => 1 <= v) dist.
Proof.
  unfold autoDistributeTubes. cbn [negb andb].
  destruct (tc <? cc); cbn [guard bind]; [discriminate|].
  intro H. injection H as H.
  pose proof (distributeRemaining_least (Z.to_nat (tc - cc)) cc t
                (repeat 1 (Z.to_nat cc))) as F.
  rewrite H in F. cbn [fst] in F. apply F.
  apply Forall_forall. intros x Hx. apply repeat_spec in Hx. lia.
Qed.

Lemma chooseDistribution_positive (config : GeneratorConfig) (t : Z)
    (dist : list Z) (t' : Z) :
  chooseDistribution config false t = Ok (dist, t') ->
  Forall (fun v => 1 <= v) dist.
Proof.
  unfold chooseDistribution. destruct (perColorTubes config) as [pct|].
  - destruct (negb (Z.of_nat (length pct) =? colorCount config));
      cbn [guard bind]; [discriminate|].
    destruct (negb (sumZ pct =? tubeCount config));
      cbn [guard bind]; [discriminate|].
    cbn [negb andb].
    destruct (existsb (fun v => v <=? 0) pct) eqn:E;
      cbn [guard bind]; [discriminate|].
    intro H. injection H as <- _.
    apply existsb_nonpos in E.
    eapply Forall_impl; [|exact E]. cbv beta. intros; lia.
  - apply autoDistributeTubes_positive.
Qed.

Lemma prepare_chosen (rnd : Z) (config : GeneratorConfig) (p : Prepared) :
  prepare rnd config = Ok p ->
  exists t t',
    chooseDistribution config (allowZeroOf config) t = Ok (prDistribution p, t').
Proof.
  unfold prepare. fold (allowZeroOf config).
  destruct ((tubeSize config <=? 0) || (tubeCount config <=? 0)
            || (colorCount config <=? 0)); cbn [guard bind]; [discriminate|].
  destruct (chooseDistribution config (allowZeroOf config)
              (seededRng (makeSeedFrom rnd (seed config))))
    as [[dist t']|e] eqn:C; cbn [bind]; [|discriminate].
  destruct (negb (Z.of_nat (length (solvedTubes (colorCount config)
                                      (tubeSize config) dist))
                  =? tubeCount config)); cbn [guard bind]; [discriminate|].
  intro H. injection H as <-. cbn [prDistribution]. eauto.
Qed.

Lemma prepare_positive (rnd : Z) (config : GeneratorConfig) (p : Prepared) :
  prepare rnd config = Ok p -> allowZeroOf config = false ->
  Forall (fun v => 1 <= v) (prDistribution p).
Proof.
  intros Hp Ha. destruct (prepare_chosen _ _ _ Hp) as [t [t' C]].
  rewrite Ha in C. exact (chooseDistribution_positive _ _ _ _ C).
Qed.

Lemma firstn_app_exact {A} (l1 l2 : list A) (n : nat) :
  length l1 = n -> firstn n (l1 ++ l2) = l1.
Proof.
  intros <-. rewrite firstn_app, Nat.sub_diag, firstn_all. simpl.
  apply app_nil_r.
Qed.

Lemma skipn_app_exact {A} (l1 l2 : list A) (n : nat) :
  length l1 = n -> skipn n (l1 ++ l2) = l2.
Proof.
  intros <-. rewrite skipn_app, Nat.sub_diag, skipn_all. reflexivity.
Qed.

(** The filled part of a result and its empty tail. *)
Lemma finish_parts (rnd : Z) (config : GeneratorConfig) (p : Prepared) :
  PreparedFor rnd config p ->
  exists filled,
    tubes (finish config p) = filled ++ repeat [] (Z.to_nat (prEmptyTubes p)) /\
    length filled = Z.to_nat (tubeCount config) /\
    Forall (fun tube => length tube = Z.to_nat (tubeSize config)) filled /\
    filled = finalTubes (shuffleAttempts maxShuffleAttempts (tubeCount config)
                           (tubeSize config) (Z.min 3 (colorCount config)) (prLoop p)).
Proof.
  intro Hp. destruct (finish_shape _ _ _ Hp) as [balls [_ [_ T]]].
  exists (redistribute (Z.to_nat (tubeCount config)) (Z.to_nat (tubeSize config)) 0 balls).
  split; [exact T|]. split; [apply redistribute_length|].
  split; [apply redistribute_Forall_size|].
  unfold finish in T. cbn [tubes] in T. now apply app_inv_tail in T.
Qed.

(** A returned puzzle, cut in its filled and its empty part. *)
Lemma createPuzzle_parts (rnd : Z) (config : GeneratorConfig) (res : PuzzleResult) :
  createPuzzle rnd config = Ok res ->
  exists filled,
    tubes res
    = filled ++ repeat [] (Z.to_nat (orDefault (emptyTubeCount config) 0)) /\
    length filled = Z.to_nat (tubeCount config) /\
    Forall (fun tube => length tube = Z.to_nat (tubeSize config)) filled.
Proof.
  intro H. apply createPuzzle_Ok in H. destruct H as [p [Hp ->]].
  apply prepare_Ok in Hp. destruct Hp as [_ Hp].
  destruct (finish_parts _ _ _ Hp) as [filled [T [L [F _]]]].
  rewrite (pf_empty _ _ _ Hp) in T. eauto.
Qed.

(** Occurrences of every colour index, present or not. *)
Lemma createPuzzle_count (rnd : Z) (config : GeneratorConfig) (res : PuzzleResult)
    (c : Z) :
  createPuzzle rnd config = Ok res -> 0 <= c < colorCount config ->
  occurrences c (tubes res)
  = nth (Z.to_nat c) (resPerColorTubes res) 0 * tubeSize config.
Proof.
  intros H Hc. apply createPuzzle_Ok in H. destruct H as [p [Hp ->]].
  apply prepare_Ok in Hp. destruct Hp as [[Hts _] Hp].
  destruct (finish_cells _ _ _ Hp) as [balls [P E]].
  unfold occurrences. rewrite E, count_occ_map_Some.
  rewrite (Permutation_count_occ Z.eq_dec) in P. rewrite P.
  replace c with (Z.of_nat (Z.to_nat c)) at 1 by lia.
  rewrite solvedTubes_count by lia.
  pose proof (Forall_nth_Z _ (Z.to_nat c) _ (pf_nonneg _ _ _ Hp)) as Hn.
  rewrite (chosen_length _ _ (pf_chosen _ _ _ Hp)) in Hn.
  cbv beta in Hn. cbn [finish resPerColorTubes]. lia.
Qed.

(** An explicit distribution is returned as it was given. *)
Lemma createPuzzle_explicit (rnd : Z) (config : GeneratorConfig)
    (res : PuzzleResult) (pct : list Z) :
  createPuzzle rnd config = Ok res -> perColorTubes config = Some pct ->
  resPerColorTubes res = pct.
Proof.
  intros H E. apply createPuzzle_Ok in H. destruct H as [p [Hp ->]].
  pose proof (prepare_Ok _ _ _ Hp) as [[_ [Htc [Hcc _]]] _].
  destruct (prepare_chosen _ _ _ Hp) as [t [t' C]].
  apply chooseDistribution_Ok in C; try assumption.
  destruct C as [_ C]. rewrite E in C. cbn [finish resPerColorTubes]. tauto.
Qed.

End GeneratorMoreFacts.

Module GeneratorExtras.
Import JS JSFacts Generator GeneratorSpec GeneratorFacts GeneratorVariants.
Import GeneratorMoreFacts.

(** X1 (shape and capacity).  A returned puzzle is tubeCount tubes of
    exactly tubeSize cells followed by max(0, emptyTubeCount) empty
    tubes; no tube is longer than tubeSize, and every cell is a colour
    index below colorCount, never undefined. *)
Theorem createPuzzle_shape (rnd : Z) (config : GeneratorConfig)
    (res : PuzzleResult) :
  createPuzzle rnd config = Ok res ->
  length (tubes res)
  = (Z.to_nat (tubeCount config)
     + Z.to_nat (orDefault (emptyTubeCount config) 0%Z))%nat /\
  Forall (fun tube => Z.of_nat (length tube) = tubeSize config)
    (firstn (Z.to_nat (tubeCount config)) (tubes res)) /\
  Forall (fun tube => tube = [])
    (skipn (Z.to_nat (tubeCount config)) (tubes res)) /\
  Forall (fun tube => Z.of_nat (length tube) <= tubeSize config) (tubes res) /\
  Forall (Forall (fun cell => exists c, cell = Some c /\ 0 <= c < colorCount config))
    (tubes res).
Proof.
  intro H. pose proof (fun cell => createPuzzle_cell_range _ _ _ cell H) as Hcell.
  apply createPuzzle_Ok in H. destruct H as [p [Hp ->]].
  apply prepare_Ok in Hp. destruct Hp as [[Hts _] Hp].
  destruct (finish_parts _ _ _ Hp) as [filled [T [L [F _]]]].
  rewrite (pf_empty _ _ _ Hp) in T.
  assert (F' : Forall (fun tube => Z.of_nat (length tube) = tubeSize config) filled).
  { eapply Forall_impl; [|exact F]. simpl. intros tube E. lia. }
  rewrite T in *. split; [|split; [|split; [|split]]].
  - now rewrite length_app, repeat_length, L.
  - now rewrite (firstn_app_exact _ _ _ L).
  - rewrite (skipn_app_exact _ _ _ L). apply Forall_forall.
    intros tube Hin. now apply repeat_spec in Hin.
  - apply Forall_app. split.
    + eapply Forall_impl; [|exact F']. simpl. intros; lia.
    + apply Forall_forall. intros tube Hin. apply repeat_spec in Hin.
      subst. simpl. lia.
  - apply Forall_forall. intros tube Hin. apply Forall_forall.
    intros cell Hc. apply Hcell. apply in_concat. eauto.
Qed.

(** The example configuration: six tubes of four cells, two empty. *)
Lemma createPuzzle_shape_witness :
  length (tubes result_example) = (6 + 2)%nat /\
  Forall (fun tube => Z.of_nat (length tube) = 4) (firstn 6 (tubes result_example)) /\
  Forall (fun tube => tube = []) (skipn 6 (tubes result_example)) /\
  Forall (fun tube => Z.of_nat (length tube) <= 4) (tubes result_example) /\
  Forall (Forall (fun cell => exists c, cell = Some c /\ 0 <= c < 3))
    (tubes result_example).
Proof.
  apply (createPuzzle_shape 0 config_example result_example).
  vm_compute. reflexivity.
Defined.

(** X2 (the distribution returned).  The perColorTubes of a returned
    puzzle has one entry per colour and sums to tubeCount; every entry
    is at least 1, or at least 0 when allowZeroTubesForColor is set. *)
Theorem createPuzzle_distribution (rnd : Z) (config : GeneratorConfig)
    (res : PuzzleResult) :
  createPuzzle rnd config = Ok res ->
  Z.of_nat (length (resPerColorTubes res)) = colorCount config /\
  sumZ (resPerColorTubes res) = tubeCount config /\
  Forall (fun v => leastTubes (allowZeroOf config) <= v) (resPerColorTubes res).
Proof.
  intro H. apply createPuzzle_Ok in H. destruct H as [p [Hp ->]].
  pose proof (prepare_positive _ _ _ Hp) as Hpos.
  apply prepare_Ok in Hp. destruct Hp as [[_ [_ [Hcc _]]] Hp].
  cbn [finish resPerColorTubes].
  destruct (pf_chosen _ _ _ Hp) as [L S].
  split; [lia|]. split; [exact S|].
  unfold leastTubes. destruct (allowZeroOf config).
  - exact (pf_nonneg _ _ _ Hp).
  - now apply Hpos.
Qed.

(** The example configuration: three colours, six tubes. *)
Lemma createPuzzle_distribution_witness :
  Z.of_nat (length (resPerColorTubes result_example)) = 3 /\
  sumZ (resPerColorTubes result_example) = 6 /\
  Forall (fun v => leastTubes (allowZeroOf config_example) <= v)
    (resPerColorTubes result_example).
Proof.
  apply (createPuzzle_distribution 0 config_example result_example).
  vm_compute. reflexivity.
Defined.

(** X3 (replay from seedUsed).  The seedUsed of a returned puzzle is
    an unsigned 32-bit integer, and createPuzzle called again with it
    as numeric seed returns the same puzzle, whatever seed (or none)
    the first call was given. *)
Theorem createPuzzle_replay (rnd rnd' : Z) (config : GeneratorConfig)
    (res : PuzzleResult) :
  createPuzzle rnd config = Ok res ->
  0 <= seedUsed res < two32 /\
  createPuzzle rnd' (withSeed config (SeedNumber (seedUsed res))) = Ok res.
Proof.
  intro H. pose proof H as H0.
  apply createPuzzle_Ok in H. destruct H as [p [Hp ->]].
  pose proof (prepare_Ok _ _ _ Hp) as [_ PF].
  assert (Es : seedUsed (finish config p) = makeSeedFrom rnd (seed config)).
  { cbn [finish seedUsed]. apply (pf_seed _ _ _ PF). }
  assert (R : 0 <= makeSeedFrom rnd (seed config) < two32).
  { unfold makeSeedFrom. destruct (seed config); apply toUint32_range. }
  split; [rewrite Es; exact R|].
  rewrite <- H0, Es.
  unfold createPuzzle, prepare, finish, chooseDistribution.
  cbn [withSeed colorCount tubeCount tubeSize perColorTubes seed
       allowZeroTubesForColor emptyTubeCount makeSeedFrom].
  set (m := makeSeedFrom rnd (seed config)) in *.
  replace (toUint32 m) with m; [reflexivity|].
  unfold toUint32. symmetry. apply Z.mod_small. exact R.
Qed.

(** The example puzzle replayed from its seedUsed, 42. *)
Lemma createPuzzle_replay_witness :
  0 <= seedUsed result_example < two32 /\
  createPuzzle 5 (withSeed config_example (SeedNumber (seedUsed result_example)))
  = Ok result_example.
Proof.
  apply (createPuzzle_replay 0 5 config_example result_example).
  vm_compute. reflexivity.
Defined.

(** X4 (numeric seeds wrap).  A numeric seed is read modulo 2^32:
    two seeds that differ by a multiple of 2^32, a negative seed
    among them, give the same outcome. *)
Theorem createPuzzle_seed_wraps (rnd rnd' : Z) (config : GeneratorConfig)
    (n k : Z) :
  createPuzzle rnd (withSeed config (SeedNumber n))
  = createPuzzle rnd' (withSeed config (SeedNumber (n + k * two32))).
Proof.
  assert (E : toUint32 (n + k * two32) = toUint32 n).
  { unfold toUint32. apply Z_mod_plus_full. }
  unfold createPuzzle, prepare, chooseDistribution.
  cbn [withSeed colorCount tubeCount tubeSize perColorTubes seed
       allowZeroTubesForColor emptyTubeCount makeSeedFrom].
  rewrite E. reflexivity.
Qed.

Lemma prepare_withEmptyTubes (rnd : Z) (config : GeneratorConfig)
    (e : option Z) (p : Prepared) :
  prepare rnd config = Ok p ->
  prepare rnd (withEmptyTubes config e)
  = Ok {| prSeedUsed := prSeedUsed p;
          prDistribution := prDistribution p;
          prEmptyTubes := orDefault e 0;
          prLoop := prLoop p |}.
Proof.
  unfold prepare, chooseDistribution.
  cbn [withEmptyTubes colorCount tubeCount tubeSize perColorTubes seed
       allowZeroTubesForColor emptyTubeCount].
  destruct (guard _ InvalidConfig); simpl; [|discriminate].
  match goal with
  | |- bind ?c _ = _ -> _ => destruct c as [[dist t']|err]; simpl; [|discriminate]
  end.
  destruct (guard _ InternalMismatch); simpl; [|discriminate].
  intro H. injection H as <-. simpl.
  now rewrite !concat_with_empties.
Qed.

(** X5 (empty tubes are only appended).  Changing emptyTubeCount
    changes nothing but the number of empty tubes at the end: the
    filled tubes, perColorTubes and seedUsed stay the same. *)
Theorem createPuzzle_empty_tubes_appended (rnd : Z) (config : GeneratorConfig)
    (e : option Z) (res : PuzzleResult) :
  createPuzzle rnd config = Ok res ->
  createPuzzle rnd (withEmptyTubes config e)
  = Ok {| tubes := firstn (Z.to_nat (tubeCount config)) (tubes res)
                   ++ repeat [] (Z.to_nat (orDefault e 0));
          resPerColorTubes := resPerColorTubes res;
          seedUsed := seedUsed res |}.
Proof.
  intro H. apply createPuzzle_Ok in H. destruct H as [p [Hp ->]].
  pose proof (prepare_Ok _ _ _ Hp) as [_ PF].
  destruct (finish_parts _ _ _ PF) as [filled [T [L [_ Ef]]]].
  unfold createPuzzle. rewrite (prepare_withEmptyTubes _ _ e _ Hp).
  cbn [bind]. f_equal. rewrite T, (firstn_app_exact _ _ _ L).
  unfold finish.
  cbn [withEmptyTubes colorCount tubeCount tubeSize prLoop prEmptyTubes
       prDistribution prSeedUsed].
  now rewrite <- Ef.
Qed.

(** The example with five empty tubes in place of two. *)
Lemma createPuzzle_empty_tubes_appended_witness :
  createPuzzle 0 (withEmptyTubes config_example (Some 5))
  = Ok {| tubes := firstn (Z.to_nat (tubeCount config_example)) (tubes result_example)
                   ++ repeat [] (Z.to_nat (orDefault (Some 5) 0));
          resPerColorTubes := resPerColorTubes result_example;
          seedUsed := seedUsed result_example |}.
Proof.
  apply (createPuzzle_empty_tubes_appended 0 config_example (Some 5) result_example).
  vm_compute. reflexivity.
Defined.



(** X7 (Fisher-Yates).  The shuffle returns a rearrangement of its
    input, of the same length, and draws from the generator exactly
    once per cell but the first. *)
Theorem fisherYates_shuffles {A : Type} (a : list A) (t : Z) :
  Permutation (fst (fisherYates a t)) a /\
  length (fst (fisherYates a t)) = length a /\
  snd (fisherYates a t) = t + Z.of_nat (length a - 1) * rngIncrement.
Proof.
  pose proof (fisherYates_Permutation a t) as P.
  split; [exact P|]. split; [exact (Permutation_length P)|].
  unfold fisherYates. apply fyLoop_state.
Qed.

(** X8 (drawn indices stay in range).  A draw is the numerator of a
    float in [0, 1), and Math.floor(rng() * n) is an index in
    [0, n) for every positive n; each draw adds the same increment to
    the state of the generator. *)
Theorem randBelow_in_range (t n : Z) :
  0 < n ->
  0 <= fst (rngNext t) < two32 /\
  0 <= fst (randBelow t n) < n /\
  snd (randBelow t n) = t + rngIncrement.
Proof.
  intro Hn. split; [apply rngNext_range|].
  split; [now apply randBelow_range | apply randBelow_state].
Qed.

(** An index for the last cell of a 24-cell array, from the seed 42. *)
Lemma randBelow_in_range_witness :
  0 <= fst (rngNext (seededRng 42)) < two32 /\
  0 <= fst (randBelow (seededRng 42) 24) < 24 /\
  snd (randBelow (seededRng 42) 24) = seededRng 42 + rngIncrement.
Proof.
  apply (randBelow_in_range (seededRng 42) 24). lia.
Defined.

End GeneratorExtras.

(* ================================================================== *)
(** * The pour rule *)
(* ================================================================== *)

Module PourFacts.
Import JS Generator Pour.

Lemma sameCell_true (x y : Cell) : sameCell x y = true <-> x = y.
Proof.
  unfold sameCell. destruct (cell_eq_dec x y); split; congruence.
Qed.

Lemma nonempty_last (tube : Tube) :
  tube <> [] -> tube = removelast tube ++ [topOf tube].
Proof. intro H. now apply app_removelast_last. Qed.

Lemma length_removelast (tube : Tube) :
  tube <> [] -> S (length (removelast tube)) = length tube.
Proof.
  intro H. rewrite (nonempty_last tube H) at 2.
  rewrite length_app. simpl. lia.
Qed.

Lemma repeat_snoc {A} (x : A) (k : nat) : repeat x k ++ [x] = repeat x (S k).
Proof. symmetry. apply repeat_cons. Qed.

(** What the loop does: it takes [k] cells of the colour off [from]
    and puts them on [to], within the limit and the capacity. *)
Lemma pourLoop_spec (fuel : nat) (color : Cell) (limit size moved : Z)
    (from to : Tube) :
  let '(moved', from', to') := pourLoop fuel color limit size moved from to in
  exists k,
    moved' = moved + Z.of_nat k /\
    from = from' ++ repeat color k /\
    to' = to ++ repeat color k /\
    moved' <= Z.max moved limit /\
    (Z.of_nat (length to) <= size -> Z.of_nat (length to') <= size).
Proof.
  revert moved from to; induction fuel as [|fuel IH]; intros moved from to.
  - cbn [pourLoop]. exists 0%nat. cbn [repeat].
    rewrite !app_nil_r. repeat split; auto; lia.
  - cbn [pourLoop].
    destruct ((moved <? limit) && negb (length from =? 0)%nat
              && sameCell (topOf from) color
              && (Z.of_nat (length to) <? size)) eqn:C.
    + apply andb_prop in C. destruct C as [C C4].
      apply andb_prop in C. destruct C as [C C3].
      apply andb_prop in C. destruct C as [C1 C2].
      apply Z.ltb_lt in C1, C4. apply negb_true_iff, Nat.eqb_neq in C2.
      apply sameCell_true in C3.
      assert (Hne : from <> []) by (intros ->; apply C2; reflexivity).
      specialize (IH (moved + 1) (removelast from) (to ++ [topOf from])).
      destruct (pourLoop fuel color limit size (moved + 1) (removelast from)
                  (to ++ [topOf from])) as [[m' f'] t'].
      destruct IH as [k [Em [Ef [Et [Hl Hs]]]]].
      exists (S k). split; [lia|]. split.
      * rewrite (nonempty_last from Hne) at 1.
        rewrite Ef, C3, <- app_assoc. now rewrite repeat_snoc.
      * split.
        -- rewrite Et, C3, <- app_assoc. reflexivity.
        -- split; [lia|].
           intros _. apply Hs. rewrite length_app. cbn [length]. lia.
    + exists 0%nat. cbn [repeat]. rewrite !app_nil_r. repeat split; auto; lia.
Qed.

Lemma canPour_true (from to : Tube) (size : Z) :
  canPour from to size = true <->
  from <> [] /\ Z.of_nat (length to) < size /\ (to = [] \/ topOf to = topOf from).
Proof.
  unfold canPour.
  destruct from as [|x from]; cbn [length Nat.eqb].
  - split; [discriminate | intros [H _]; contradiction].
  - destruct (Z.leb_spec size (Z.of_nat (length to))).
    + split; [discriminate | intros [_ [H1 _]]; lia].
    + destruct to as [|y to]; cbn [length Nat.eqb].
      * split; [intros _|reflexivity]. repeat split; auto. discriminate.
      * rewrite sameCell_true. split.
        -- intro E. repeat split; auto; discriminate.
        -- intros [_ [_ [E|E]]]; [discriminate | exact E].
Qed.

(** The first pass of the loop runs whenever pouring is allowed and
    the limit is positive. *)
Lemma pourLoop_first (color : Cell) (limit size : Z) (from to : Tube) :
  from <> [] -> topOf from = color -> 0 < limit -> Z.of_nat (length to) < size ->
  0 < fst (fst (pourLoop (length from) color limit size 0 from to)).
Proof.
  intros Hne Hc Hl Hs. destruct (length from) as [|fuel] eqn:L.
  - destruct from; [contradiction | discriminate].
  - cbn [pourLoop]. rewrite L.
    replace (0 <? limit) with true by (symmetry; apply Z.ltb_lt; lia).
    replace (Z.of_nat (length to) <? size) with true
      by (symmetry; apply Z.ltb_lt; lia).
    replace (sameCell (topOf from) color) with true
      by (symmetry; apply sameCell_true; exact Hc).
    cbn [Nat.eqb negb andb].
    pose proof (pourLoop_spec fuel color limit size (0 + 1) (removelast from)
                  (to ++ [topOf from])) as H.
    destruct (pourLoop fuel color limit size (0 + 1) (removelast from)
                (to ++ [topOf from])) as [[m' f'] t'].
    destruct H as [k [Em _]]. cbn [fst]. lia.
Qed.

End PourFacts.

Module PourTheorems.
Import JS Generator Pour PourFacts.

(** X9 (a pour conserves the balls).  pourOnce takes some number k of
    cells off the top of the source, all of the colour that was on
    top, and puts them on the target: nothing else changes.  It moves
    at most maxPour cells (8 by default) and never fills the target
    beyond tubeSize. *)
Theorem pourOnce_conserves (from to : Tube) (size : Z) (maxPour : option Z) :
  let moved := fst (fst (pourOnce from to size maxPour)) in
  let from' := snd (fst (pourOnce from to size maxPour)) in
  let to' := snd (pourOnce from to size maxPour) in
  exists k,
    moved = Z.of_nat k /\
    from = from' ++ repeat (topOf from) k /\
    to' = to ++ repeat (topOf from) k /\
    moved <= Z.max 0 (orDefault maxPour 8) /\
    Z.of_nat (length to') <= Z.max (Z.of_nat (length to)) size.
Proof.
  cbv zeta. unfold pourOnce.
  destruct (canPour from to size) eqn:C; cbn [negb].
  - apply canPour_true in C. destruct C as [Hne [Hs _]].
    pose proof (pourLoop_spec (length from) (topOf from)
                  (Z.min (orDefault maxPour 8) (size - Z.of_nat (length to)))
                  size 0 from to) as H.
    destruct (pourLoop (length from) (topOf from)
                (Z.min (orDefault maxPour 8) (size - Z.of_nat (length to)))
                size 0 from to) as [[m' f'] t'].
    destruct H as [k [Em [Ef [Et [Hl Hsz]]]]]. cbn [fst snd].
    exists k. split; [lia|]. split; [exact Ef|]. split; [exact Et|].
    split; [lia|]. specialize (Hsz ltac:(lia)). lia.
  - cbn [fst snd]. exists 0%nat. cbn [repeat]. rewrite !app_nil_r.
    repeat split; lia.
Qed.

(** X10 (when a pour moves something).  pourOnce moves at least one
    ball exactly when maxPour is positive, the source is not empty,
    the target has room, and the target is empty or shows the colour
    on top of the source; the poured colour is then on top of the
    target. *)
Theorem pourOnce_moves_iff (from to : Tube) (size : Z) (maxPour : option Z) :
  let moved := fst (fst (pourOnce from to size maxPour)) in
  let to' := snd (pourOnce from to size maxPour) in
  (0 < moved <->
   0 < orDefault maxPour 8 /\ from <> [] /\ Z.of_nat (length to) < size /\
   (to = [] \/ topOf to = topOf from)) /\
  (moved <= 0 \/ topOf to' = topOf from).
Proof.
  cbv zeta. unfold pourOnce.
  destruct (canPour from to size) eqn:C; cbn [negb].
  - pose proof C as C'. apply canPour_true in C'. destruct C' as [Hne [Hs Hc]].
    pose proof (pourLoop_spec (length from) (topOf from)
                  (Z.min (orDefault maxPour 8) (size - Z.of_nat (length to)))
                  size 0 from to) as H.
    pose proof (pourLoop_first (topOf from)
                  (Z.min (orDefault maxPour 8) (size - Z.of_nat (length to)))
                  size from to Hne eq_refl) as F.
    destruct (pourLoop (length from) (topOf from)
                (Z.min (orDefault maxPour 8) (size - Z.of_nat (length to)))
                size 0 from to) as [[m' f'] t'].
    destruct H as [k [Em [Ef [Et [Hl _]]]]]. cbn [fst snd] in *.
    split.
    + split.
      * intro Hm. split; [lia | auto].
      * intros [Hp _]. apply F; lia.
    + destruct k as [|k]; [left; lia|]. right.
      rewrite Et, <- repeat_snoc, app_assoc. unfold topOf. apply last_last.
  - cbn [fst snd]. split; [|left; lia].
    split; [lia|]. intros [_ H]. apply canPour_true in H. congruence.
Qed.

End PourTheorems.

(* ================================================================== *)
(** * Further properties of the adapter *)
(* ================================================================== *)

Module AdapterMoreFacts.
Import JS JSFacts Adapter AdapterSpec AdapterFacts AdapterExample.
Import GeneratorFacts GeneratorMoreFacts.

Lemma BALL_COLORS_NoDup : NoDup BALL_COLORS.
Proof.
  unfold BALL_COLORS.
  repeat (constructor; [simpl; intuition discriminate|]). constructor.
Qed.

Lemma firstn_incl {A} (n : nat) (l : list A) : incl (firstn n l) l.
Proof.
  intros x H. rewrite <- (firstn_skipn n l). apply in_or_app. now left.
Qed.

Lemma firstn_NoDup {A} (n : nat) (l : list A) : NoDup l -> NoDup (firstn n l).
Proof.
  intro H. rewrite <- (firstn_skipn n l) in H. now apply NoDup_app_remove_r in H.
Qed.

Lemma slice0_prefix {A} (l : list A) (e : Z) :
  slice0 l e
  = firstn (Z.to_nat (if e <? 0 then Z.of_nat (length l) + e else e)) l.
Proof. unfold slice0. now destruct (e <? 0). Qed.

(** The palette is a prefix of a rearrangement of the twelve colours. *)
Lemma selectColors_prefix (cc seed : Z) :
  exists colors,
    Permutation colors BALL_COLORS /\
    selectColors cc seed
    = firstn (Z.to_nat (if cc <? 0 then 12 + cc else cc)) colors.
Proof.
  unfold selectColors.
  pose proof (fisherYates_Permutation BALL_COLORS (Generator.seededRng seed)) as P.
  destruct (Generator.fisherYates BALL_COLORS (Generator.seededRng seed))
    as [colors t].
  cbn [fst] in P. exists colors. split; [exact P|].
  rewrite slice0_prefix. rewrite (Permutation_length P). reflexivity.
Qed.

Lemma selectColors_NoDup (cc seed : Z) : NoDup (selectColors cc seed).
Proof.
  destruct (selectColors_prefix cc seed) as [colors [P ->]].
  apply firstn_NoDup.
  eapply Permutation_NoDup; [symmetry; exact P | exact BALL_COLORS_NoDup].
Qed.

(** *** The board of the adapter *)

Lemma generatePuzzleWithAdapter_Ok (rnd : Z) (config : PuzzleAdapterConfig)
    (res : PuzzleAdapterResult) :
  generatePuzzleWithAdapter rnd config = Generator.Ok res ->
  exists r,
    Generator.createPuzzle rnd (generatorConfig config) = Generator.Ok r /\
    tubes res
    = map (map (colorAt (usedColors res))) (Generator.tubes r) /\
    seedUsed res = Generator.seedUsed r /\
    perColorTubes res = Generator.resPerColorTubes r /\
    usedColors res
    = selectColors (colorCount (derive config)) (Generator.seedUsed r).
Proof.
  unfold generatePuzzleWithAdapter.
  destruct (Generator.createPuzzle rnd (generatorConfig config)) as [r|e];
    cbn [Generator.bind]; [|discriminate].
  intro H. injection H as <-. exists r. cbn [tubes seedUsed perColorTubes usedColors].
  auto.
Qed.

Lemma count_occ_map_inj_on {A B} (decA : forall x y : A, {x = y} + {x <> y})
    (decB : forall x y : B, {x = y} + {x <> y}) (f : A -> B) (l : list A) (x : A) :
  (forall y, In y l -> f y = f x -> y = x) ->
  count_occ decB (map f l) (f x) = count_occ decA l x.
Proof.
  induction l as [|y l IH]; intro H; [reflexivity|].
  cbn [map count_occ].
  rewrite IH by (intros z Hz; apply H; now right).
  destruct (decB (f y) (f x)) as [E|E], (decA y x) as [E'|E']; try reflexivity.
  - exfalso. apply E'. apply H; [now left | exact E].
  - exfalso. apply E. now rewrite E'.
Qed.

Lemma count_occ_map_absent {A B} (decB : forall x y : B, {x = y} + {x <> y})
    (f : A -> B) (l : list A) (b : B) :
  (forall y, In y l -> f y <> b) -> count_occ decB (map f l) b = 0%nat.
Proof.
  intro H. apply count_occ_not_In. intro Hin.
  apply in_map_iff in Hin. destruct Hin as [y [E Hy]]. exact (H y Hy E).
Qed.

Lemma count_occ_map_Some_color (l : list BallColor) (c : BallColor) :
  count_occ optColor_eq_dec (map Some l) (Some c)
  = count_occ BallColor_eq_dec l c.
Proof.
  apply count_occ_map_inj_on. intros y _ E. now injection E.
Qed.

Lemma colorAt_index (palette : list BallColor) (c : Z) (col : BallColor) :
  0 <= c -> nth_error palette (Z.to_nat c) = Some col ->
  colorAt palette (Some c) = Some col.
Proof.
  intros Hc H. unfold colorAt. destruct (Z.ltb_spec c 0); [lia | exact H].
Qed.

Lemma NoDup_nth_error_inj {A} (l : list A) (i j : nat) (x : A) :
  NoDup l -> nth_error l i = Some x -> nth_error l j = Some x -> i = j.
Proof.
  intros N Hi Hj. apply (proj1 (NoDup_nth_error l) N).
  - apply nth_error_Some. congruence.
  - congruence.
Qed.

(** Occurrences of a named colour on the board of the adapter: those
    of its index for a colour of the active palette, none for any
    other colour. *)
Lemma colorAt_count (palette : list BallColor) (acc : nat)
    (cells : list Generator.Cell) (col : BallColor) :
  NoDup palette -> (acc <= length palette)%nat ->
  (forall cell, In cell cells ->
     exists c, cell = Some c /\ 0 <= c < Z.of_nat acc) ->
  count_occ optColor_eq_dec (map (colorAt palette) cells) (Some col)
  = match paletteIndex palette acc col with
    | Some i => count_occ Generator.cell_eq_dec cells (Some (Z.of_nat i))
    | None => 0%nat
    end.
Proof.
  intros N La Hcells. unfold paletteIndex.
  destruct (find _ (seq 0 acc)) as [i|] eqn:F.
  - apply find_some in F. destruct F as [Hi Hn]. apply in_seq in Hi.
    destruct (optColor_eq_dec (nth_error palette i) (Some col)) as [Ei|]; [|discriminate].
    assert (Ec : colorAt palette (Some (Z.of_nat i)) = Some col).
    { apply colorAt_index; [lia|]. now rewrite Nat2Z.id. }
    rewrite <- Ec. apply count_occ_map_inj_on.
    intros cell Hin E. destruct (Hcells cell Hin) as [c [-> Hc]].
    rewrite Ec in E. unfold colorAt in E.
    destruct (Z.ltb_spec c 0); [lia|].
    pose proof (NoDup_nth_error_inj _ _ _ _ N E Ei). f_equal. lia.
  - apply count_occ_map_absent. intros cell Hin E.
    destruct (Hcells cell Hin) as [c [-> Hc]].
    unfold colorAt in E. destruct (Z.ltb_spec c 0); [lia|].
    assert (Hs : In (Z.to_nat c) (seq 0 acc)) by (apply in_seq; lia).
    pose proof (find_none _ _ F (Z.to_nat c) Hs) as Hn.
    cbv beta in Hn. rewrite E in Hn.
    destruct (optColor_eq_dec (Some col) (Some col)); [discriminate | contradiction].
Qed.

Lemma concat_map_map {A B} (f : A -> B) (ll : list (list A)) :
  concat (map (map f) ll) = map f (concat ll).
Proof. symmetry. apply concat_map. Qed.

Lemma paletteIndex_Some (palette : list BallColor) (acc : nat) (col : BallColor)
    (i : nat) :
  paletteIndex palette acc col = Some i ->
  (i < acc)%nat /\ nth_error palette i = Some col.
Proof.
  unfold paletteIndex. intro F. apply find_some in F. destruct F as [Hi Hn].
  apply in_seq in Hi.
  destruct (optColor_eq_dec (nth_error palette i) (Some col)); [|discriminate].
  split; [lia | assumption].
Qed.

(** Occurrences of a named colour in the result of the adapter. *)
Lemma adapter_colorOccurrences (rnd : Z) (config : PuzzleAdapterConfig)
    (res : PuzzleAdapterResult) (col : BallColor) :
  generatePuzzleWithAdapter rnd config = Generator.Ok res ->
  colorOccurrences col (tubes res)
  = match paletteIndex (usedColors res)
            (Z.to_nat (actualColorCount (derive config))) col with
    | Some i => nth i (perColorTubes res) 0 * 8
    | None => 0
    end.
Proof.
  intro H. apply generatePuzzleWithAdapter_Ok in H.
  destruct H as [r [Hr [Et [_ [Ep Eu]]]]].
  pose proof (derive_bounds config) as [Hc [_ [_ Ha]]].
  pose proof (derive_actual_le config) as Hle.
  unfold colorOccurrences. rewrite Et, concat_map_map.
  rewrite (colorAt_count (usedColors res)
             (Z.to_nat (actualColorCount (derive config)))).
  - destruct (paletteIndex (usedColors res)
                (Z.to_nat (actualColorCount (derive config))) col) as [i|] eqn:F;
      [|reflexivity].
    apply paletteIndex_Some in F. destruct F as [Hi _].
    pose proof (createPuzzle_count rnd (generatorConfig config) r (Z.of_nat i) Hr)
      as Hcount.
    cbn [generatorConfig Generator.colorCount Generator.tubeSize] in Hcount.
    unfold GeneratorSpec.occurrences in Hcount.
    rewrite Hcount by lia. rewrite Nat2Z.id, Ep. reflexivity.
  - rewrite Eu. apply selectColors_NoDup.
  - rewrite Eu, selectColors_length by lia. lia.
  - intros cell Hin.
    destruct (createPuzzle_cell_range _ _ _ cell Hr Hin) as [c [-> Hrange]].
    cbn [generatorConfig Generator.colorCount] in Hrange.
    exists c. split; [reflexivity | lia].
Qed.

Lemma adapter_parts (rnd : Z) (config : PuzzleAdapterConfig)
    (res : PuzzleAdapterResult) :
  generatePuzzleWithAdapter rnd config = Generator.Ok res ->
  exists filled,
    tubes res
    = filled ++ repeat [] (Z.to_nat (actualEmptyTubes (derive config))) /\
    length filled = Z.to_nat (filledTubes (derive config)) /\
    Forall (fun tube => length tube = 8%nat) filled.
Proof.
  intro H. apply generatePuzzleWithAdapter_Ok in H.
  destruct H as [r [Hr [Et _]]].
  destruct (createPuzzle_parts _ _ _ Hr) as [filled [T [L F]]].
  cbn [generatorConfig Generator.emptyTubeCount Generator.tubeCount
       Generator.tubeSize Generator.orDefault] in T, L, F.
  exists (map (map (colorAt (usedColors res))) filled).
  rewrite Et, T, map_app, map_repeat. cbn [map].
  split; [reflexivity|]. split; [now rewrite length_map|].
  apply Forall_map. eapply Forall_impl; [|exact F].
  cbv beta. intros tube E. rewrite length_map, E. reflexivity.
Qed.

(** *** validatePuzzle on a board of full and empty tubes *)

Lemma filter_none {A} (f : A -> bool) (l : list A) :
  Forall (fun x => f x = false) l -> filter f l = [].
Proof.
  induction 1 as [|x l Hx _ IH]; [reflexivity|]. cbn [filter]. now rewrite Hx.
Qed.

Lemma filter_all {A} (f : A -> bool) (l : list A) :
  Forall (fun x => f x = true) l -> filter f l = l.
Proof.
  induction 1 as [|x l Hx _ IH]; [reflexivity|]. cbn [filter]. now rewrite Hx, IH.
Qed.

Lemma no_elements {A} (l : list A) : (forall x, ~ In x l) -> l = [].
Proof.
  destruct l as [|x l]; [reflexivity|]. intro H. exfalso. apply (H x). now left.
Qed.

(** A board made of [n] full tubes followed by [e] empty ones. *)
Lemma validatePuzzle_full_then_empty (full : list (list BallColor)) (e : nat) :
  Forall (fun tube => length tube = 8%nat) full ->
  (length full + e = 14)%nat ->
  (forall c, Z.of_nat (count_occ BallColor_eq_dec (concat full) c) mod 8 = 0) ->
  vErrors (validatePuzzle (full ++ repeat [] e))
  = if (e =? 2)%nat then [] else [EmptyTubeCountError (Z.of_nat e)].
Proof.
  intros F L C. set (board := full ++ repeat [] e).
  assert (Fe : Forall (fun tube : list BallColor => tube = []) (repeat [] e)).
  { apply Forall_forall. intros t Ht. now apply repeat_spec in Ht. }
  assert (Odd : filter isOdd board = []).
  { apply filter_none. apply Forall_app. split.
    - eapply Forall_impl; [|exact F]. cbv beta. intros t E.
      unfold isOdd, isEmpty, isFull. now rewrite E.
    - eapply Forall_impl; [|exact Fe]. cbv beta. intros t ->. reflexivity. }
  assert (Emp : emptyTubes board = e).
  { unfold emptyTubes, board. rewrite filter_app, length_app.
    rewrite (filter_none isEmpty full), (filter_all isEmpty (repeat [] e)).
    - cbn [length]. now rewrite repeat_length.
    - eapply Forall_impl; [|exact Fe]. cbv beta. intros t ->. reflexivity.
    - eapply Forall_impl; [|exact F]. cbv beta. intros t E.
      unfold isEmpty. now rewrite E. }
  assert (Full : concat (filter isFull board) = concat full).
  { unfold board. rewrite filter_app.
    rewrite (filter_all isFull full), (filter_none isFull (repeat [] e)).
    - now rewrite app_nil_r.
    - eapply Forall_impl; [|exact Fe]. cbv beta. intros t ->. reflexivity.
    - eapply Forall_impl; [|exact F]. cbv beta. intros t E.
      unfold isFull. now rewrite E. }
  assert (Col : colorErrors 8
                  (fold_left countBall (concat (filter isFull board)) []) = []).
  { apply no_elements. intros err Hin.
    destruct (colorErrors_kind _ _ Hin) as [c [n ->]].
    assert (W : wrongColorTotal board).
    { apply colorErrors_wrong. eauto. }
    destruct W as [c' W]. apply W. unfold colorTotal. rewrite Full. apply C. }
  rewrite validatePuzzle_errors. fold board. rewrite Odd, Emp, Col.
  assert (Len : length board = 14%nat).
  { unfold board. rewrite length_app, repeat_length. exact L. }
  rewrite Len. cbn [Nat.eqb app map].
  destruct (e =? 2)%nat; reflexivity.
Qed.

Lemma map_Some_empty (l : list (list BallColor)) (k : nat) :
  map (map Some) l = repeat [] k -> l = repeat [] k.
Proof.
  revert k; induction l as [|t l IH]; intros [|k] H; try discriminate.
  - reflexivity.
  - cbn [map repeat] in H. injection H as Ht Hl.
    cbn [repeat]. f_equal; [|now apply IH].
    destruct t; [reflexivity | discriminate].
Qed.

(** A board whose cells are those of the adapter's result, read as
    colours, is made of the filled tubes followed by the empty ones. *)
Lemma adapter_board_parts (rnd : Z) (config : PuzzleAdapterConfig)
    (res : PuzzleAdapterResult) (board : list (list BallColor)) :
  generatePuzzleWithAdapter rnd config = Generator.Ok res ->
  map (map Some) board = tubes res ->
  exists full,
    board = full ++ repeat [] (Z.to_nat (actualEmptyTubes (derive config))) /\
    length full = Z.to_nat (filledTubes (derive config)) /\
    Forall (fun tube => length tube = 8%nat) full.
Proof.
  intros H Hb. destruct (adapter_parts _ _ _ H) as [filled [T [L F]]].
  rewrite T in Hb.
  set (n := Z.to_nat (filledTubes (derive config))) in *.
  assert (E1 : map (map Some) (firstn n board) = filled).
  { rewrite <- firstn_map, Hb. now apply firstn_app_exact. }
  assert (E2 : map (map Some) (skipn n board)
               = repeat [] (Z.to_nat (actualEmptyTubes (derive config)))).
  { rewrite <- skipn_map, Hb. now apply skipn_app_exact. }
  exists (firstn n board). split; [|split].
  - rewrite <- (map_Some_empty _ _ E2). symmetry. apply firstn_skipn.
  - rewrite <- (length_map (map Some)), E1. exact L.
  - rewrite <- E1 in F. rewrite Forall_map in F.
    eapply Forall_impl; [|exact F]. cbv beta. intros t E.
    now rewrite length_map in E.
Qed.

(** *** validatePuzzle and the order of tubes and balls *)

Lemma app_nil_all {A} (a b c d : list A) :
  a ++ b ++ c ++ d = [] <-> a = [] /\ b = [] /\ c = [] /\ d = [].
Proof.
  split.
  - intro H. apply app_eq_nil in H. destruct H as [-> H].
    apply app_eq_nil in H. destruct H as [-> H].
    apply app_eq_nil in H. destruct H as [-> ->]. auto.
  - intros [-> [-> [-> ->]]]. reflexivity.
Qed.

Lemma colorErrors_nil (tubes : list (list BallColor)) :
  colorErrors 8 (fold_left countBall (concat (filter isFull tubes)) []) = []
  <-> forall c, colorTotal c tubes mod 8 = 0.
Proof.
  split.
  - intros E c. destruct (Z.eq_dec (colorTotal c tubes mod 8) 0) as [|N]; [assumption|].
    exfalso. assert (W : wrongColorTotal tubes) by (exists c; exact N).
    apply colorErrors_wrong in W. destruct W as [c' [n W]].
    rewrite E in W. destruct W.
  - intro H. apply no_elements. intros err Hin.
    destruct (colorErrors_kind _ _ Hin) as [c [n ->]].
    assert (W : wrongColorTotal tubes) by (apply colorErrors_wrong; eauto).
    destruct W as [c' W]. exact (W (H c')).
Qed.

(** Validity in terms of four quantities of the board. *)
Lemma valid_iff_quantities (tubes : list (list BallColor)) :
  valid (validatePuzzle tubes) = true <->
  length tubes = 14%nat /\
  length (filter isOdd tubes) = 0%nat /\
  emptyTubes tubes = 2%nat /\
  forall c, colorTotal c tubes mod 8 = 0.
Proof.
  rewrite valid_iff_no_errors, validatePuzzle_errors, app_nil_all, colorErrors_nil.
  assert (A : (if (length tubes =? 14)%nat then []
               else [TubeCountError (length tubes)]) = []
              <-> length tubes = 14%nat).
  { destruct (Nat.eqb_spec (length tubes) 14); split; congruence. }
  assert (B : map (fun t : list BallColor => TubeCapacityError (length t))
                (filter isOdd tubes) = []
              <-> length (filter isOdd tubes) = 0%nat).
  { destruct (filter isOdd tubes); cbn [map length]; split; congruence. }
  assert (C : (if (emptyTubes tubes =? 2)%nat then []
               else [EmptyTubeCountError (Z.of_nat (emptyTubes tubes))]) = []
              <-> emptyTubes tubes = 2%nat).
  { destruct (Nat.eqb_spec (emptyTubes tubes) 2); split; congruence. }
  rewrite A, B, C. reflexivity.
Qed.

Lemma filter_length_Permutation {A} (f : A -> bool) (l l' : list A) :
  Permutation l l' -> length (filter f l) = length (filter f l').
Proof.
  induction 1 as [|x l l' _ IH|x y l|l l' l'' _ IH1 _ IH2]; cbn [filter].
  - reflexivity.
  - destruct (f x); cbn [length]; now rewrite IH.
  - destruct (f x), (f y); reflexivity.
  - now rewrite IH1.
Qed.

Lemma filter_length_Forall2 (f : list BallColor -> bool)
    (l l' : list (list BallColor)) :
  (forall t t', Permutation t t' -> f t = f t') ->
  Forall2 (@Permutation BallColor) l l' ->
  length (filter f l) = length (filter f l').
Proof.
  intro Hf. induction 1 as [|t t' l l' Ht _ IH]; [reflexivity|].
  cbn [filter]. rewrite (Hf _ _ Ht). destruct (f t'); cbn [length]; now rewrite IH.
Qed.

Lemma count_full_Permutation (c : BallColor) (l l' : list (list BallColor)) :
  Permutation l l' ->
  count_occ BallColor_eq_dec (concat (filter isFull l)) c
  = count_occ BallColor_eq_dec (concat (filter isFull l')) c.
Proof.
  induction 1 as [|x l l' _ IH|x y l|l l' l'' _ IH1 _ IH2]; cbn [filter].
  - reflexivity.
  - destruct (isFull x); cbn [concat]; rewrite ?count_occ_app; now rewrite IH.
  - destruct (isFull x), (isFull y); cbn [concat]; rewrite ?count_occ_app; lia.
  - now rewrite IH1.
Qed.

Lemma isFull_Permutation (t t' : list BallColor) :
  Permutation t t' -> isFull t = isFull t'.
Proof. intro P. unfold isFull. now rewrite (Permutation_length P). Qed.

Lemma isEmpty_Permutation (t t' : list BallColor) :
  Permutation t t' -> isEmpty t = isEmpty t'.
Proof. intro P. unfold isEmpty. now rewrite (Permutation_length P). Qed.

Lemma isOdd_Permutation (t t' : list BallColor) :
  Permutation t t' -> isOdd t = isOdd t'.
Proof.
  intro P. unfold isOdd.
  now rewrite (isEmpty_Permutation _ _ P), (isFull_Permutation _ _ P).
Qed.

Lemma count_full_Forall2 (c : BallColor) (l l' : list (list BallColor)) :
  Forall2 (@Permutation BallColor) l l' ->
  count_occ BallColor_eq_dec (concat (filter isFull l)) c
  = count_occ BallColor_eq_dec (concat (filter isFull l')) c.
Proof.
  induction 1 as [|t t' l l' Ht _ IH]; [reflexivity|].
  cbn [filter]. rewrite (isFull_Permutation _ _ Ht).
  destruct (isFull t'); [|exact IH].
  cbn [concat]. rewrite !count_occ_app, IH.
  now rewrite (proj1 (Permutation_count_occ BallColor_eq_dec t t') Ht c).
Qed.

Lemma sameBoard_quantities (a b : list (list BallColor)) :
  sameBoard a b ->
  length a = length b /\
  length (filter isOdd a) = length (filter isOdd b) /\
  emptyTubes a = emptyTubes b /\
  forall c, colorTotal c a = colorTotal c b.
Proof.
  intros [mid [P F]]. split; [|split; [|split]].
  - rewrite (Permutation_length P). exact (Forall2_length F).
  - rewrite (filter_length_Permutation isOdd _ _ P).
    apply filter_length_Forall2; [apply isOdd_Permutation | exact F].
  - unfold emptyTubes. rewrite (filter_length_Permutation isEmpty _ _ P).
    apply filter_length_Forall2; [apply isEmpty_Permutation | exact F].
  - intro c. unfold colorTotal.
    now rewrite (count_full_Permutation c _ _ P), (count_full_Forall2 c _ _ F).
Qed.

(** The adapter returns on every configuration. *)
Lemma adapter_returns (rnd : Z) (config : PuzzleAdapterConfig) :
  exists res, generatePuzzleWithAdapter rnd config = Generator.Ok res.
Proof.
  pose proof (generatorConfig_accepted config) as A.
  destruct (proj2 (GeneratorFacts.returns_accepted rnd _) A) as [r Hr].
  unfold generatePuzzleWithAdapter. rewrite Hr. cbn [Generator.bind]. eauto.
Qed.

(** Reversing the order of the tubes and each tube gives the same board. *)
Lemma sameBoard_rev (a : list (list BallColor)) :
  sameBoard a (map (@rev BallColor) (rev a)).
Proof.
  exists (rev a). split; [apply Permutation_rev|].
  induction (rev a) as [|t l IH]; constructor; [apply Permutation_rev | exact IH].
Qed.

End AdapterMoreFacts.

Module AdapterExtras.
Import JS JSFacts Adapter AdapterSpec AdapterFacts AdapterMoreFacts AdapterExample.
Import GeneratorFacts GeneratorMoreFacts.

(** X11 (the palette).  selectColors returns distinct colours of
    BALL_COLORS: the first colorCount of a seeded rearrangement of the
    twelve, all twelve when colorCount is 12 or more, and the first
    12 + colorCount when colorCount is negative. *)
Theorem selectColors_palette (cc seed : Z) :
  NoDup (selectColors cc seed) /\
  incl (selectColors cc seed) BALL_COLORS /\
  length (selectColors cc seed)
  = Z.to_nat (if cc <? 0 then 12 + cc else Z.min cc 12) /\
  (12 <= cc -> Permutation (selectColors cc seed) BALL_COLORS).
Proof.
  destruct (selectColors_prefix cc seed) as [colors [P E]].
  pose proof (Permutation_length P) as L. cbn [BALL_COLORS length] in L.
  split; [apply selectColors_NoDup|]. split; [|split].
  - rewrite E. intros x Hx. apply firstn_incl in Hx.
    eapply Permutation_in; eauto.
  - rewrite E, length_firstn, L. destruct (Z.ltb_spec cc 0); lia.
  - intro H. rewrite E. destruct (Z.ltb_spec cc 0); [lia|].
    rewrite firstn_all2 by lia. exact P.
Qed.

(** X12 (even distribution in general).  For a positive number of
    colours and a non-negative number of tubes, calculateColorDistribution
    returns one count per colour, the counts sum to filledTubes, each
    is the quotient or one more, and no colour gets more tubes than a
    colour before it; with more colours than tubes the last colours
    get none. *)
Theorem calculateColorDistribution_balanced (cc filled : Z) :
  0 < cc -> 0 <= filled ->
  let dist := calculateColorDistribution cc filled in
  length dist = Z.to_nat cc /\
  Generator.sumZ dist = filled /\
  Forall (fun v => v = filled / cc \/ v = filled / cc + 1) dist /\
  (forall i j, (i <= j < Z.to_nat cc)%nat -> nth j dist 0 <= nth i dist 0) /\
  (filled < cc -> nth (Z.to_nat (cc - 1)) dist 0 = 0).
Proof.
  intros Hcc Hf dist. unfold dist.
  split; [apply calculateColorDistribution_length|].
  split; [now apply calculateColorDistribution_sum|].
  rewrite calculateColorDistribution_even by assumption.
  assert (N : forall i, (i < Z.to_nat cc)%nat ->
            nth i (map (evenShare filled cc) (seq 0 (Z.to_nat cc))) 0
            = evenShare filled cc i).
  { intros i Hi.
    rewrite (nth_indep _ 0 (evenShare filled cc 0%nat))
      by (rewrite length_map, length_seq; exact Hi).
    rewrite map_nth, seq_nth by exact Hi. reflexivity. }
  split; [|split].
  - apply Forall_forall. intros v Hv. apply in_map_iff in Hv.
    destruct Hv as [i [<- _]]. unfold evenShare.
    destruct (Z.of_nat i <? filled mod cc); [right | left]; lia.
  - intros i j Hij. rewrite !N by lia. unfold evenShare.
    destruct (Z.ltb_spec (Z.of_nat i) (filled mod cc)),
             (Z.ltb_spec (Z.of_nat j) (filled mod cc)); lia.
  - intro Hlt. rewrite N by lia. unfold evenShare.
    rewrite Z.div_small, Z.mod_small by lia.
    destruct (Z.ltb_spec (Z.of_nat (Z.to_nat (cc - 1))) filled); lia.
Qed.

(** Twelve tubes over five colours: 3, 3, 2, 2, 2. *)
Lemma calculateColorDistribution_balanced_witness :
  let dist := calculateColorDistribution 5 12 in
  length dist = Z.to_nat 5 /\
  Generator.sumZ dist = 12 /\
  Forall (fun v => v = 12 / 5 \/ v = 12 / 5 + 1) dist /\
  (forall i j, (i <= j < Z.to_nat 5)%nat -> nth j dist 0 <= nth i dist 0) /\
  (12 < 5 -> nth (Z.to_nat (5 - 1)) dist 0 = 0).
Proof.
  apply (calculateColorDistribution_balanced 5 12); lia.
Defined.

(** X13 (the board of the adapter).  Every result of the adapter has
    14 tubes: filledTubes tubes of 8 cells followed by the empty
    tubes; its perColorTubes is the derived distribution, its seedUsed
    an unsigned 32-bit integer, and every cell is one of the first
    actualColorCount colours of usedColors, never undefined. *)
Theorem adapter_board_shape (rnd : Z) (config : PuzzleAdapterConfig)
    (res : PuzzleAdapterResult) :
  generatePuzzleWithAdapter rnd config = Generator.Ok res ->
  let d := derive config in
  length (tubes res) = 14%nat /\
  Forall (fun tube => length tube = 8%nat)
    (firstn (Z.to_nat (filledTubes d)) (tubes res)) /\
  Forall (fun tube => tube = []) (skipn (Z.to_nat (filledTubes d)) (tubes res)) /\
  perColorTubes res = dPerColorTubes d /\
  0 <= seedUsed res < two32 /\
  Forall (Forall (fun cell =>
                    exists col, cell = Some col /\
                      In col (firstn (Z.to_nat (actualColorCount d))
                                (usedColors res))))
    (tubes res).
Proof.
  intros H d. pose proof (derive_bounds config) as [Hc [He [Hf Ha]]].
  fold d in Hc, He, Hf, Ha.
  destruct (adapter_parts _ _ _ H) as [filled [T [L F]]]. fold d in T, L.
  pose proof (generatePuzzleWithAdapter_Ok _ _ _ H) as [r [Hr [Et [Es [Ep Eu]]]]].
  split; [|split; [|split; [|split; [|split]]]].
  - rewrite T, length_app, repeat_length, L.
    unfold d, derive. cbn [filledTubes actualEmptyTubes]. unfold TUBE_COUNT. lia.
  - rewrite T, (firstn_app_exact _ _ _ L). exact F.
  - rewrite T, (skipn_app_exact _ _ _ L). apply Forall_forall.
    intros t Ht. now apply repeat_spec in Ht.
  - rewrite Ep. apply (createPuzzle_explicit _ _ _ _ Hr). reflexivity.
  - rewrite Es.
    destruct (proj1 (createPuzzle_Ok _ _ _) Hr) as [p [Hp ->]].
    apply prepare_Ok in Hp. destruct Hp as [_ Hp].
    cbn [Generator.finish Generator.seedUsed].
    rewrite (GeneratorSpec.pf_seed _ _ _ Hp).
    unfold Generator.makeSeedFrom.
    destruct (Generator.seed (generatorConfig config)); apply toUint32_range.
  - apply Forall_forall. intros tube Ht. apply Forall_forall. intros cell Hcell.
    rewrite Et in Ht. apply in_map_iff in Ht. destruct Ht as [tube0 [<- Ht0]].
    apply in_map_iff in Hcell. destruct Hcell as [idx [<- Hidx]].
    assert (Hin : In idx (concat (Generator.tubes r))) by (apply in_concat; eauto).
    destruct (createPuzzle_cell_range _ _ _ idx Hr Hin) as [c [-> Hrange]].
    cbn [generatorConfig Generator.colorCount] in Hrange. fold d in Hrange.
    pose proof (derive_actual_le config) as Hle. fold d in Hle.
    assert (Lp : length (usedColors res) = Z.to_nat (colorCount d)).
    { rewrite Eu. apply selectColors_length. lia. }
    destruct (nth_error (usedColors res) (Z.to_nat c)) as [col|] eqn:N.
    + exists col. split; [now apply colorAt_index; [lia|]|].
      apply (nth_error_In _ (Z.to_nat c)).
      rewrite nth_error_firstn.
      destruct (Nat.ltb_spec (Z.to_nat c) (Z.to_nat (actualColorCount d)));
        [exact N | lia].
    + apply nth_error_None in N. lia.
Qed.

(** The example run: difficulty 1 gives three colours over twelve
    filled tubes. *)
Lemma adapter_board_shape_witness :
  let d := derive example_config in
  length (tubes example_result) = 14%nat /\
  Forall (fun tube => length tube = 8%nat)
    (firstn (Z.to_nat (filledTubes d)) (tubes example_result)) /\
  Forall (fun tube => tube = [])
    (skipn (Z.to_nat (filledTubes d)) (tubes example_result)) /\
  perColorTubes example_result = dPerColorTubes d /\
  0 <= seedUsed example_result < two32 /\
  Forall (Forall (fun cell =>
                    exists col, cell = Some col /\
                      In col (firstn (Z.to_nat (actualColorCount d))
                                (usedColors example_result))))
    (tubes example_result).
Proof.
  apply (adapter_board_shape 0 example_config example_result).
  vm_compute. reflexivity.
Defined.

(** X14 (named colours keep whole tubes).  In every result of the
    adapter, the colour at index i of usedColors, for i below
    actualColorCount, occurs exactly perColorTubes[i] * 8 times, and a
    colour that is not among these does not occur at all: usedColors
    may list colours that are not on the board. *)
Theorem adapter_color_counts (rnd : Z) (config : PuzzleAdapterConfig)
    (res : PuzzleAdapterResult) (col : BallColor) :
  generatePuzzleWithAdapter rnd config = Generator.Ok res ->
  colorOccurrences col (tubes res)
  = match paletteIndex (usedColors res)
            (Z.to_nat (actualColorCount (derive config))) col with
    | Some i => nth i (perColorTubes res) 0 * 8
    | None => 0
    end /\
  (8 | colorOccurrences col (tubes res)).
Proof.
  intro H. pose proof (adapter_colorOccurrences _ _ _ col H) as E.
  split; [exact E|]. rewrite E.
  destruct (paletteIndex _ _ col); [apply Z.divide_factor_r | apply Z.divide_0_r].
Qed.

(** The third colour of the example palette fills four tubes. *)
Lemma adapter_color_counts_witness :
  colorOccurrences PURPLE (tubes example_result)
  = match paletteIndex (usedColors example_result)
            (Z.to_nat (actualColorCount (derive example_config))) PURPLE with
    | Some i => nth i (perColorTubes example_result) 0 * 8
    | None => 0
    end /\
  (8 | colorOccurrences PURPLE (tubes example_result)).
Proof.
  apply (adapter_color_counts 0 example_config example_result PURPLE).
  vm_compute. reflexivity.
Defined.

(** X15 (validatePuzzle on the adapter's boards).  A board of the
    adapter passes every check of validatePuzzle but the fixed count
    of two empty tubes: the error list is empty when the clamped
    emptyTubeCount is 2 and holds the single empty-count error
    otherwise. *)
Theorem adapter_board_validation (rnd : Z) (config : PuzzleAdapterConfig)
    (res : PuzzleAdapterResult) (board : list (list BallColor)) :
  generatePuzzleWithAdapter rnd config = Generator.Ok res ->
  map (map Some) board = tubes res ->
  let e := actualEmptyTubes (derive config) in
  vErrors (validatePuzzle board)
  = (if e =? 2 then [] else [EmptyTubeCountError e]) /\
  valid (validatePuzzle board) = (e =? 2).
Proof.
  intros H Hb e. pose proof (derive_bounds config) as [_ [He [Hf _]]]. fold e in He.
  destruct (adapter_board_parts _ _ _ _ H Hb) as [full [Eb [L F]]]. fold e in Eb.
  assert (V : vErrors (validatePuzzle board)
              = if (Z.to_nat e =? 2)%nat then []
                else [EmptyTubeCountError (Z.of_nat (Z.to_nat e))]).
  { rewrite Eb. apply validatePuzzle_full_then_empty.
    - exact F.
    - rewrite L. unfold e, derive. cbn [filledTubes actualEmptyTubes].
      unfold TUBE_COUNT. lia.
    - intro c.
      assert (Ec : Z.of_nat (count_occ BallColor_eq_dec (concat full) c)
                   = colorOccurrences c (tubes res)).
      { unfold colorOccurrences. rewrite <- Hb, concat_map_map.
        rewrite count_occ_map_Some_color, Eb, concat_app.
        now rewrite GeneratorFacts.concat_repeat_nil, app_nil_r. }
      rewrite Ec, (adapter_colorOccurrences _ _ _ c H).
      destruct (paletteIndex _ _ c); [apply Z_mod_mult | reflexivity]. }
  assert (E2 : (Z.to_nat e =? 2)%nat = (e =? 2)).
  { destruct (Nat.eqb_spec (Z.to_nat e) 2), (Z.eqb_spec e 2); auto; lia. }
  rewrite E2, Z2Nat.id in V by lia.
  split; [exact V|].
  pose proof (valid_iff_no_errors board) as Vi. rewrite V in Vi.
  destruct (e =? 2).
  - apply (proj2 Vi). reflexivity.
  - destruct (valid (validatePuzzle board)); [|reflexivity].
    pose proof (proj1 Vi eq_refl) as Vn. discriminate Vn.
Qed.

(** The example board, with the default two empty tubes, is valid. *)
Lemma adapter_board_validation_witness :
  let e := actualEmptyTubes (derive example_config) in
  vErrors (validatePuzzle example_board)
  = (if e =? 2 then [] else [EmptyTubeCountError e]) /\
  valid (validatePuzzle example_board) = (e =? 2).
Proof.
  apply (adapter_board_validation 0 example_config example_result example_board).
  - vm_compute. reflexivity.
  - vm_compute. reflexivity.
Defined.

(** X16 (validation ignores order).  validatePuzzle gives the same
    verdict on two boards that hold the same tubes up to the order of
    the tubes and the order of the balls inside each tube: it counts,
    and does not look at the arrangement. *)
Theorem validatePuzzle_order_blind (a b : list (list BallColor)) :
  sameBoard a b ->
  valid (validatePuzzle a) = valid (validatePuzzle b).
Proof.
  intro S. destruct (sameBoard_quantities a b S) as [L [O [E C]]].
  pose proof (valid_iff_quantities a) as Va.
  pose proof (valid_iff_quantities b) as Vb.
  rewrite L, O, E in Va.
  assert (Cab : (forall c, colorTotal c a mod 8 = 0)
                <-> (forall c, colorTotal c b mod 8 = 0)).
  { split; intros H c; [rewrite <- C | rewrite C]; apply H. }
  destruct (valid (validatePuzzle a)), (valid (validatePuzzle b)); try reflexivity.
  - symmetry. apply Vb. destruct (proj1 Va eq_refl) as [H1 [H2 [H3 H4]]].
    repeat split; auto. now apply Cab.
  - apply Va. destruct (proj1 Vb eq_refl) as [H1 [H2 [H3 H4]]].
    repeat split; auto. now apply Cab.
Qed.

(** The example board with its tubes reversed and each tube reversed. *)
Lemma validatePuzzle_order_blind_witness :
  valid (validatePuzzle example_board)
  = valid (validatePuzzle (map (@rev BallColor) (rev example_board))).
Proof.
  apply (validatePuzzle_order_blind example_board
           (map (@rev BallColor) (rev example_board))).
  apply sameBoard_rev.
Defined.

End AdapterExtras.

(* ================================================================== *)
(** * The puzzle cache *)
(* ================================================================== *)

Module CacheStoreFacts.
Import JS Adapter CacheStore.

(** *** Keys *)

Lemma digits_noDash (u : Decimal.uint) :
  noDash (DecimalString.NilEmpty.string_of_uint u).
Proof.
  induction u; cbn [DecimalString.NilEmpty.string_of_uint noDash]; auto;
    (split; [discriminate | assumption]).
Qed.

Lemma append_assoc (a b c : String.string) :
  String.append (String.append a b) c = String.append a (String.append b c).
Proof.
  induction a as [|x a IH]; cbn [String.append]; [reflexivity | now rewrite IH].
Qed.

(** Two texts without a dash, each followed by a dash: the first dash
    tells where the first text ends. *)
Lemma split_at_dash (a a' r r' : String.string) :
  noDash a -> noDash a' ->
  String.append a (String.String dash r) = String.append a' (String.String dash r') ->
  a = a' /\ r = r'.
Proof.
  revert a'; induction a as [|x a IH]; intros [|x' a'] Na Na' E;
    cbn [String.append noDash] in *.
  - injection E as E. auto.
  - injection E as E1 E2. destruct Na' as [Nx _]. congruence.
  - injection E as E1 E2. destruct Na as [Nx _]. congruence.
  - injection E as E1 E2. destruct Na as [_ Na]. destruct Na' as [_ Na'].
    destruct (IH a' Na Na' E2) as [-> ->]. now subst.
Qed.

Lemma showZ_inj (z z' : Z) : showZ z = showZ z' -> z = z'.
Proof.
  unfold showZ. intro E.
  apply (f_equal DecimalString.NilEmpty.int_of_string) in E.
  rewrite !DecimalString.NilEmpty.isi in E. injection E as E.
  now apply DecimalZ.to_int_inj.
Qed.

(** The decimal text of an integer: an optional dash, then at least
    one character, none of them a dash. *)
Lemma showZ_shape (z : Z) :
  exists c body,
    c <> dash /\ noDash body /\
    (showZ z = String.String c body \/
     showZ z = String.String dash (String.String c body)).
Proof.
  unfold showZ. destruct z as [|p|p]; cbn [Z.to_int].
  - exists (Ascii.Ascii false false false false true true false false),
           String.EmptyString.
    split; [discriminate|]. split; [exact I|]. left. reflexivity.
  - pose proof (digits_noDash (Pos.to_uint p)) as N.
    pose proof (DecimalPos.Unsigned.to_uint_nonnil p) as Hn.
    cbn [DecimalString.NilEmpty.string_of_int].
    destruct (DecimalString.NilEmpty.string_of_uint (Pos.to_uint p)) as [|c body] eqn:E.
    + exfalso. apply Hn. destruct (Pos.to_uint p); try discriminate. reflexivity.
    + cbn [noDash] in N. destruct N as [Nc Nb]. exists c, body. auto.
  - pose proof (digits_noDash (Pos.to_uint p)) as N.
    pose proof (DecimalPos.Unsigned.to_uint_nonnil p) as Hn.
    cbn [DecimalString.NilEmpty.string_of_int].
    destruct (DecimalString.NilEmpty.string_of_uint (Pos.to_uint p)) as [|c body] eqn:E.
    + exfalso. apply Hn. destruct (Pos.to_uint p); try discriminate. reflexivity.
    + cbn [noDash] in N. destruct N as [Nc Nb]. exists c, body. auto.
Qed.

Lemma cacheKey_inj (d e d' e' : Z) :
  cacheKey d e = cacheKey d' e' -> d = d' /\ e = e'.
Proof.
  unfold cacheKey. cbn [String.append].
  fold dash. intro E.
  destruct (showZ_shape d) as [c [b [Nc [Nb Sd]]]].
  destruct (showZ_shape d') as [c' [b' [Nc' [Nb' Sd']]]].
  assert (K : showZ d = showZ d' /\ showZ e = showZ e').
  { destruct Sd as [Sd|Sd], Sd' as [Sd'|Sd']; rewrite Sd, Sd' in E |- *;
      cbn [String.append] in E.
    - injection E as E1 E2. subst c'.
      destruct (split_at_dash _ _ _ _ Nb Nb' E2) as [-> ->]. auto.
    - injection E as E1 E2. congruence.
    - injection E as E1 E2. congruence.
    - injection E as E1 E2. subst c'.
      destruct (split_at_dash _ _ _ _ Nb Nb' E2) as [-> ->]. auto. }
  destruct K as [K1 K2]. split; now apply showZ_inj.
Qed.

(** *** Maps *)

Lemma sget_sset_same {V} (k : String.string) (v : V) (m : StringMap V) :
  sget k (sset k v m) = Some v.
Proof.
  induction m as [|[k' v'] m IH]; cbn [sset sget].
  - now rewrite String.eqb_refl.
  - destruct (String.eqb k k') eqn:E; cbn [sget].
    + now rewrite String.eqb_refl.
    + now rewrite E.
Qed.

Lemma sget_sset_other {V} (k k' : String.string) (v : V) (m : StringMap V) :
  k <> k' -> sget k (sset k' v m) = sget k m.
Proof.
  intro N. induction m as [|[k0 v0] m IH]; cbn [sset sget].
  - destruct (String.eqb_spec k k'); [contradiction | reflexivity].
  - destruct (String.eqb_spec k' k0) as [->|N0]; cbn [sget].
    + destruct (String.eqb_spec k k0); [contradiction | reflexivity].
    + destruct (String.eqb_spec k k0); [reflexivity | exact IH].
Qed.

(** *** The three loops *)

Lemma tierKey_other (e d d' e' : Z) :
  tierKey e d' e' = false -> In d tiers -> cacheKey d' e' <> cacheKey d e.
Proof.
  intros T Hd E. apply cacheKey_inj in E. destruct E as [-> ->].
  unfold tierKey in T. rewrite Z.eqb_refl in T. cbn [andb] in T.
  unfold tiers in Hd. cbn [In] in Hd.
  destruct Hd as [<-|[<-|[<-|[]]]]; discriminate.
Qed.

Lemma fromConfigStep_other (e : Z) (config : StoredPuzzles)
    (c : StringMap JsonItem) (d : Z) (k : String.string) :
  k <> cacheKey d e -> sget k (fromConfigStep e config c d) = sget k c.
Proof.
  intro N. unfold fromConfigStep.
  destruct (toCachedPuzzleData _ d e); [now apply sget_sset_other | reflexivity].
Qed.

Lemma fromStorageStep_other (e : Z) (stored : StoredPuzzles)
    (c : StringMap JsonItem) (d : Z) (k : String.string) :
  k <> cacheKey d e -> sget k (fromStorageStep e stored c d) = sget k c.
Proof.
  intro N. unfold fromStorageStep.
  destruct (sget (showZ d) (puzzles stored)) as [item|]; [|reflexivity].
  destruct (hasNestedTubes item); [now apply sget_sset_other | reflexivity].
Qed.

Lemma generateStep_other (env : Env) (e : Z)
    (acc : StringMap JsonItem * StringMap JsonItem) (d : Z) (k : String.string) :
  k <> cacheKey d e -> sget k (fst (generateStep env e acc d)) = sget k (fst acc).
Proof.
  intro N. unfold generateStep. destruct acc as [c saved].
  destruct (generatePuzzleWithAdapter (random env d) (tierConfig d e));
    cbn [fst]; [now apply sget_sset_other | reflexivity].
Qed.

Lemma fold_other {S} (step : S -> Z -> S) (view : S -> StringMap JsonItem)
    (e : Z) (k : String.string) (ds : list Z) (s0 : S) :
  (forall s d, In d ds -> k <> cacheKey d e ->
     sget k (view (step s d)) = sget k (view s)) ->
  (forall d, In d ds -> k <> cacheKey d e) ->
  sget k (view (fold_left step ds s0)) = sget k (view s0).
Proof.
  revert s0; induction ds as [|d ds IH]; intros s0 Hstep Hk; [reflexivity|].
  cbn [fold_left]. rewrite IH.
  - apply Hstep; [now left | apply Hk; now left].
  - intros s d' Hd'. apply Hstep. now right.
  - intros d' Hd'. apply Hk. now right.
Qed.

(** Whatever its source, the body leaves every other key alone. *)
Lemma pregenerateBody_other (env : Env) (st : State) (d' e' : Z) :
  tierKey (clampedEmpty env) d' e' = false ->
  getCachedPuzzle (pregenerateBody env st) d' e' = getCachedPuzzle st d' e'.
Proof.
  intro T. unfold getCachedPuzzle, pregenerateBody. fold (clampedEmpty env).
  set (e := clampedEmpty env) in *.
  assert (K : forall d, In d tiers -> cacheKey d' e' <> cacheKey d e).
  { intros d Hd. now apply tierKey_other. }
  assert (G : sget (cacheKey d' e')
                (fst (fold_left (generateStep env e) tiers (cache st, [])))
              = sget (cacheKey d' e') (cache st)).
  { apply (fold_other (generateStep env e) fst e _ tiers (cache st, [])); [|exact K].
    intros s d _ N. now apply generateStep_other. }
  destruct (loadPuzzlesConfig env e) as [config|].
  - cbn [cache].
    apply (fold_other (fromConfigStep e config) (fun c => c) e _ tiers (cache st));
      [|exact K].
    intros s d _ N. now apply fromConfigStep_other.
  - destruct (storage st) as [stored|].
    + destruct (spEmptyTubeCount stored =? e).
      * cbn [cache].
        apply (fold_other (fromStorageStep e stored) (fun c => c) e _ tiers (cache st));
          [|exact K].
        intros s d _ N. now apply fromStorageStep_other.
      * destruct (fold_left (generateStep env e) tiers (cache st, [])) as [c saved].
        exact G.
    + destruct (fold_left (generateStep env e) tiers (cache st, [])) as [c saved].
      exact G.
Qed.

(** Live generation, spelled out: the adapter returns for each tier. *)
Lemma generate_fold (env : Env) (e : Z) (c0 : StringMap JsonItem) :
  exists r1 r5 r9,
    generatePuzzleWithAdapter (random env 1) (tierConfig 1 e) = Generator.Ok r1 /\
    generatePuzzleWithAdapter (random env 5) (tierConfig 5 e) = Generator.Ok r5 /\
    generatePuzzleWithAdapter (random env 9) (tierConfig 9 e) = Generator.Ok r9 /\
    fold_left (generateStep env e) tiers (c0, [])
    = (sset (cacheKey 9 e) (liveItem r9 9 e)
         (sset (cacheKey 5 e) (liveItem r5 5 e)
            (sset (cacheKey 1 e) (liveItem r1 1 e) c0)),
       [(showZ 1, liveItem r1 1 e); (showZ 5, liveItem r5 5 e);
        (showZ 9, liveItem r9 9 e)]).
Proof.
  destruct (AdapterMoreFacts.adapter_returns (random env 1) (tierConfig 1 e)) as [r1 H1].
  destruct (AdapterMoreFacts.adapter_returns (random env 5) (tierConfig 5 e)) as [r5 H5].
  destruct (AdapterMoreFacts.adapter_returns (random env 9) (tierConfig 9 e)) as [r9 H9].
  exists r1, r5, r9. split; [exact H1|]. split; [exact H5|]. split; [exact H9|].
  unfold tiers. cbn [fold_left]. unfold generateStep at 3. rewrite H1.
  unfold generateStep at 2. rewrite H5.
  unfold generateStep at 1. rewrite H9. reflexivity.
Qed.

Lemma key_1_5 (e : Z) : cacheKey 1 e <> cacheKey 5 e.
Proof. intro E. apply cacheKey_inj in E. destruct E; discriminate. Qed.

Lemma key_1_9 (e : Z) : cacheKey 1 e <> cacheKey 9 e.
Proof. intro E. apply cacheKey_inj in E. destruct E; discriminate. Qed.

Lemma key_5_9 (e : Z) : cacheKey 5 e <> cacheKey 9 e.
Proof. intro E. apply cacheKey_inj in E. destruct E; discriminate. Qed.

(** The three lookups in a cache that was set at the three tier keys. *)
Lemma three_sets (e : Z) (i1 i5 i9 : JsonItem) (c0 : StringMap JsonItem) :
  let c := sset (cacheKey 9 e) i9 (sset (cacheKey 5 e) i5 (sset (cacheKey 1 e) i1 c0)) in
  sget (cacheKey 1 e) c = Some i1 /\
  sget (cacheKey 5 e) c = Some i5 /\
  sget (cacheKey 9 e) c = Some i9.
Proof.
  cbv zeta. split; [|split].
  - rewrite sget_sset_other by apply key_1_9.
    rewrite sget_sset_other by apply key_1_5. apply sget_sset_same.
  - rewrite sget_sset_other by apply key_5_9. apply sget_sset_same.
  - apply sget_sset_same.
Qed.

(** *** The body, source by source *)

Lemma pregenerateBody_live (env : Env) (st : State) :
  sourceOf env st = Live ->
  pregenerateBody env st
  = let '(c, saved) :=
      fold_left (generateStep env (clampedEmpty env)) tiers (cache st, []) in
    {| cache := c;
       storage := saveToStorage env (clampedEmpty env) saved (storage st) |}.
Proof.
  unfold sourceOf, pregenerateBody. fold (clampedEmpty env).
  destruct (loadPuzzlesConfig env (clampedEmpty env)); [discriminate|].
  destruct (storage st) as [stored|]; [|reflexivity].
  destruct (spEmptyTubeCount stored =? clampedEmpty env); [discriminate|reflexivity].
Qed.

Lemma pregenerateBody_config (env : Env) (st : State) (config : StoredPuzzles) :
  sourceOf env st = FromConfig config ->
  pregenerateBody env st
  = {| cache := fold_left (fromConfigStep (clampedEmpty env) config) tiers (cache st);
       storage := storage st |}.
Proof.
  unfold sourceOf, pregenerateBody. fold (clampedEmpty env).
  destruct (loadPuzzlesConfig env (clampedEmpty env)) as [c|].
  - intro E. injection E as ->. reflexivity.
  - destruct (storage st) as [stored|]; [|discriminate].
    destruct (spEmptyTubeCount stored =? clampedEmpty env); discriminate.
Qed.

Lemma pregenerateBody_storage (env : Env) (st : State) (stored : StoredPuzzles) :
  sourceOf env st = FromStorage stored ->
  pregenerateBody env st
  = {| cache := fold_left (fromStorageStep (clampedEmpty env) stored) tiers (cache st);
       storage := storage st |}.
Proof.
  unfold sourceOf, pregenerateBody. fold (clampedEmpty env).
  destruct (loadPuzzlesConfig env (clampedEmpty env)) as [c|]; [discriminate|].
  destruct (storage st) as [s|]; [|discriminate].
  destruct (spEmptyTubeCount s =? clampedEmpty env); [|discriminate].
  intro E. injection E as ->. reflexivity.
Qed.

(** Live generation: the state it leaves. *)
Lemma pregenerateBody_live_state (env : Env) (st : State) :
  sourceOf env st = Live ->
  exists r1 r5 r9,
    let e := clampedEmpty env in
    generatePuzzleWithAdapter (random env 1) (tierConfig 1 e) = Generator.Ok r1 /\
    generatePuzzleWithAdapter (random env 5) (tierConfig 5 e) = Generator.Ok r5 /\
    generatePuzzleWithAdapter (random env 9) (tierConfig 9 e) = Generator.Ok r9 /\
    pregenerateBody env st
    = {| cache := sset (cacheKey 9 e) (liveItem r9 9 e)
                    (sset (cacheKey 5 e) (liveItem r5 5 e)
                       (sset (cacheKey 1 e) (liveItem r1 1 e) (cache st)));
         storage := saveToStorage env e
                      [(showZ 1, liveItem r1 1 e); (showZ 5, liveItem r5 5 e);
                       (showZ 9, liveItem r9 9 e)] (storage st) |}.
Proof.
  intro L. rewrite (pregenerateBody_live env st L).
  destruct (generate_fold env (clampedEmpty env) (cache st))
    as (r1 & r5 & r9 & H1 & H5 & H9 & F).
  exists r1, r5, r9. cbv zeta. rewrite F.
  split; [exact H1|]. split; [exact H5|]. split; [exact H9|]. reflexivity.
Qed.

(** The three lookups in what the script and live generation write. *)
Lemma written_lookup (i1 i5 i9 : JsonItem) :
  let w := [(showZ 1, i1); (showZ 5, i5); (showZ 9, i9)] in
  sget (showZ 1) w = Some i1 /\ sget (showZ 5) w = Some i5 /\
  sget (showZ 9) w = Some i9.
Proof. cbv zeta. split; [|split]; reflexivity. Qed.

Lemma storage_fold (e : Z) (r1 r5 r9 : PuzzleAdapterResult)
    (stored : StoredPuzzles) (c0 : StringMap JsonItem) :
  puzzles stored = [(showZ 1, liveItem r1 1 e); (showZ 5, liveItem r5 5 e);
                    (showZ 9, liveItem r9 9 e)] ->
  fold_left (fromStorageStep e stored) tiers c0
  = sset (cacheKey 9 e) (liveItem r9 9 e)
      (sset (cacheKey 5 e) (liveItem r5 5 e)
         (sset (cacheKey 1 e) (liveItem r1 1 e) c0)).
Proof.
  intro P. unfold tiers. cbn [fold_left]. unfold fromStorageStep. rewrite P.
  destruct (written_lookup (liveItem r1 1 e) (liveItem r5 5 e) (liveItem r9 9 e))
    as (-> & -> & ->).
  reflexivity.
Qed.

Lemma toCachedPuzzleData_script (res : PuzzleAdapterResult) (d e d' e' : Z) :
  toCachedPuzzleData (Some (scriptItem res d e)) d' e' = Some (liveItem res d e).
Proof. reflexivity. Qed.

Lemma config_fold (e : Z) (r1 r5 r9 : PuzzleAdapterResult)
    (config : StoredPuzzles) (c0 : StringMap JsonItem) :
  puzzles config = [(showZ 1, scriptItem r1 1 e); (showZ 5, scriptItem r5 5 e);
                    (showZ 9, scriptItem r9 9 e)] ->
  fold_left (fromConfigStep e config) tiers c0
  = sset (cacheKey 9 e) (liveItem r9 9 e)
      (sset (cacheKey 5 e) (liveItem r5 5 e)
         (sset (cacheKey 1 e) (liveItem r1 1 e) c0)).
Proof.
  intro P. unfold tiers. cbn [fold_left]. unfold fromConfigStep. rewrite P.
  destruct (written_lookup (scriptItem r1 1 e) (scriptItem r5 5 e) (scriptItem r9 9 e))
    as (-> & -> & ->).
  rewrite !toCachedPuzzleData_script. reflexivity.
Qed.

(** The build script returns, and what it writes. *)
Lemma script_fold (outputEmpty : option Z) (rnd : Z -> Z) :
  let e := Z.max 1 (Z.min 6 (Generator.orDefault outputEmpty 2)) in
  exists r1 r5 r9,
    generatePuzzleWithAdapter (rnd 1) (tierConfig 1 e) = Generator.Ok r1 /\
    generatePuzzleWithAdapter (rnd 5) (tierConfig 5 e) = Generator.Ok r5 /\
    generatePuzzleWithAdapter (rnd 9) (tierConfig 9 e) = Generator.Ok r9 /\
    generatePuzzlesScript outputEmpty rnd
    = Generator.Ok
        {| version := 1; spEmptyTubeCount := e;
           puzzles := [(showZ 1, scriptItem r1 1 e); (showZ 5, scriptItem r5 5 e);
                       (showZ 9, scriptItem r9 9 e)] |}.
Proof.
  cbv zeta. set (e := Z.max 1 (Z.min 6 (Generator.orDefault outputEmpty 2))).
  destruct (AdapterMoreFacts.adapter_returns (rnd 1) (tierConfig 1 e)) as [r1 H1].
  destruct (AdapterMoreFacts.adapter_returns (rnd 5) (tierConfig 5 e)) as [r5 H5].
  destruct (AdapterMoreFacts.adapter_returns (rnd 9) (tierConfig 9 e)) as [r9 H9].
  exists r1, r5, r9. split; [exact H1|]. split; [exact H5|]. split; [exact H9|].
  unfold generatePuzzlesScript. fold e. unfold tiers. cbn [fold_left].
  unfold scriptStep at 3. cbn [Generator.bind]. rewrite H1. cbn [Generator.bind].
  unfold scriptStep at 2. cbn [Generator.bind]. rewrite H5. cbn [Generator.bind].
  unfold scriptStep at 1. cbn [Generator.bind]. rewrite H9. cbn [Generator.bind].
  reflexivity.
Qed.

(** Setting a key never removes another entry. *)
Lemma sget_sset_keeps {V} (k k' : String.string) (v x : V) (m : StringMap V) :
  sget k m = Some x -> exists y, sget k (sset k' v m) = Some y.
Proof.
  intro H. destruct (String.eqb k k') eqn:E.
  - apply String.eqb_eq in E. subst k'. exists v. apply sget_sset_same.
  - apply String.eqb_neq in E. exists x. rewrite sget_sset_other; assumption.
Qed.

Lemma fold_keeps {S} (step : S -> Z -> S) (view : S -> StringMap JsonItem)
    (k : String.string) (ds : list Z) (s0 : S) (x : JsonItem) :
  (forall s d x, sget k (view s) = Some x ->
     exists y, sget k (view (step s d)) = Some y) ->
  sget k (view s0) = Some x ->
  exists y, sget k (view (fold_left step ds s0)) = Some y.
Proof.
  intro Hstep. revert s0 x; induction ds as [|d ds IH]; intros s0 x H.
  - exists x. exact H.
  - cbn [fold_left]. destruct (Hstep s0 d x H) as [y Hy]. exact (IH _ y Hy).
Qed.

Lemma pregenerateBody_keeps (env : Env) (st : State) (d e : Z) (x : JsonItem) :
  getCachedPuzzle st d e = Some x ->
  exists y, getCachedPuzzle (pregenerateBody env st) d e = Some y.
Proof.
  unfold getCachedPuzzle. intro H. set (k := cacheKey d e) in *.
  destruct (sourceOf env st) as [config|stored|] eqn:S.
  - rewrite (pregenerateBody_config env st config S). cbn [cache].
    apply (fold_keeps (fromConfigStep (clampedEmpty env) config) (fun c => c)
             k tiers (cache st) x); [|exact H].
    intros s t z Hz. unfold fromConfigStep.
    destruct (toCachedPuzzleData _ t _); [|eauto].
    now apply (sget_sset_keeps _ _ _ z).
  - rewrite (pregenerateBody_storage env st stored S). cbn [cache].
    apply (fold_keeps (fromStorageStep (clampedEmpty env) stored) (fun c => c)
             k tiers (cache st) x); [|exact H].
    intros s t z Hz. unfold fromStorageStep.
    destruct (sget (showZ t) (puzzles stored)) as [item|]; [|eauto].
    destruct (hasNestedTubes item); [|eauto].
    now apply (sget_sset_keeps _ _ _ z).
  - rewrite (pregenerateBody_live env st S).
    destruct (fold_keeps (generateStep env (clampedEmpty env)) fst
                k tiers (cache st, []) x) as [y Hy]; [|exact H|].
    + intros [c saved] t z Hz. unfold generateStep. cbn [fst] in Hz.
      destruct (generatePuzzleWithAdapter _ _); cbn [fst]; [|eauto].
      now apply (sget_sset_keeps _ _ _ z).
    + destruct (fold_left (generateStep env (clampedEmpty env)) tiers (cache st, []))
        as [c saved].
      cbn [cache]. cbn [fst] in Hy. eauto.
Qed.

End CacheStoreFacts.

(** ** The puzzle cache: keys, sources and what a start leaves behind *)

Module CacheStoreExtras.
Import JS Adapter CacheStore CacheStoreFacts.

(** X17 (cacheKey).  Two cache keys are the same text exactly when they
    were built from the same difficulty and the same emptyTubeCount:
    entries of different pairs never collide in the cache. *)
Theorem cacheKey_injective (d e d' e' : Z) :
  cacheKey d e = cacheKey d' e' <-> d = d' /\ e = e'.
Proof.
  split.
  - apply cacheKey_inj.
  - intros [-> ->]. reflexivity.
Qed.

(** X18 (pregeneratePuzzles, body).  Whatever the source, a run writes
    only the keys of difficulties 1, 5 and 9 at the clamped
    emptyTubeCount: the lookup of any other pair is what it was. *)
Theorem pregenerate_writes_tier_keys_only (env : Env) (st : State) (d' e' : Z) :
  e' <> clampedEmpty env \/ (d' <> 1 /\ d' <> 5 /\ d' <> 9) ->
  getCachedPuzzle (pregenerateBody env st) d' e' = getCachedPuzzle st d' e'.
Proof.
  intro H. apply pregenerateBody_other. unfold tierKey.
  destruct H as [He | (H1 & H5 & H9)].
  - apply Z.eqb_neq in He. rewrite He. reflexivity.
  - apply Z.eqb_neq in H1, H5, H9. rewrite H1, H5, H9.
    apply andb_false_r.
Qed.

Lemma pregenerate_writes_tier_keys_only_witness :
  getCachedPuzzle (pregenerateBody env_first_start state_with_entry) 3 2
  = getCachedPuzzle state_with_entry 3 2.
Proof.
  apply (pregenerate_writes_tier_keys_only env_first_start state_with_entry 3 2).
  right. lia.
Defined.

(** X19 (pregeneratePuzzles, live generation).  With no usable
    puzzles-config and no stored puzzles for the clamped emptyTubeCount,
    the run generates the three tiers: the adapter returns for each,
    the cache then answers each tier with that puzzle, its difficulty
    and the emptyTubeCount, and the three entries are saved under the
    keys 1, 5, 9 when storage accepts the write (else storage is as
    before). *)
Theorem pregenerate_live (env : Env) (st : State) :
  sourceOf env st = Live ->
  let e := clampedEmpty env in
  let st' := pregenerateBody env st in
  exists r1 r5 r9,
    generatePuzzleWithAdapter (random env 1) (tierConfig 1 e) = Generator.Ok r1 /\
    generatePuzzleWithAdapter (random env 5) (tierConfig 5 e) = Generator.Ok r5 /\
    generatePuzzleWithAdapter (random env 9) (tierConfig 9 e) = Generator.Ok r9 /\
    getCachedPuzzle st' 1 e = Some (liveItem r1 1 e) /\
    getCachedPuzzle st' 5 e = Some (liveItem r5 5 e) /\
    getCachedPuzzle st' 9 e = Some (liveItem r9 9 e) /\
    storage st'
    = if storageWritable env
      then Some {| version := 1; spEmptyTubeCount := e;
                   puzzles := [(showZ 1, liveItem r1 1 e);
                               (showZ 5, liveItem r5 5 e);
                               (showZ 9, liveItem r9 9 e)] |}
      else storage st.
Proof.
  intro L. cbv zeta.
  destruct (pregenerateBody_live_state env st L) as (r1 & r5 & r9 & H).
  cbv zeta in H. destruct H as (H1 & H5 & H9 & B).
  exists r1, r5, r9. rewrite B. unfold getCachedPuzzle. cbn [cache storage].
  destruct (three_sets (clampedEmpty env) (liveItem r1 1 (clampedEmpty env))
              (liveItem r5 5 (clampedEmpty env)) (liveItem r9 9 (clampedEmpty env))
              (cache st)) as (G1 & G5 & G9).
  split; [exact H1|]. split; [exact H5|]. split; [exact H9|].
  split; [exact G1|]. split; [exact G5|]. split; [exact G9|].
  reflexivity.
Qed.

Lemma pregenerate_live_witness :
  let e := clampedEmpty env_first_start in
  let st' := pregenerateBody env_first_start (freshSession None) in
  exists r1 r5 r9,
    generatePuzzleWithAdapter (random env_first_start 1) (tierConfig 1 e)
    = Generator.Ok r1 /\
    generatePuzzleWithAdapter (random env_first_start 5) (tierConfig 5 e)
    = Generator.Ok r5 /\
    generatePuzzleWithAdapter (random env_first_start 9) (tierConfig 9 e)
    = Generator.Ok r9 /\
    getCachedPuzzle st' 1 e = Some (liveItem r1 1 e) /\
    getCachedPuzzle st' 5 e = Some (liveItem r5 5 e) /\
    getCachedPuzzle st' 9 e = Some (liveItem r9 9 e) /\
    storage st'
    = if storageWritable env_first_start
      then Some {| version := 1; spEmptyTubeCount := e;
                   puzzles := [(showZ 1, liveItem r1 1 e);
                               (showZ 5, liveItem r5 5 e);
                               (showZ 9, liveItem r9 9 e)] |}
      else storage (freshSession None).
Proof.
  apply (pregenerate_live env_first_start (freshSession None)). reflexivity.
Defined.

(** X20 (saveToStorage, loadFromStorage, pregeneratePuzzles).  What a
    live run saved is what a later start restores: with the same
    configured emptyTubeCount and still no embedded config, a session
    that starts from the saved storage answers each tier with the entry
    the first session cached, draws nothing new, and leaves storage as
    it found it. *)
Theorem storage_round_trip (env env' : Env) (st : State) :
  sourceOf env st = Live ->
  storageWritable env = true ->
  configValue env' = configValue env ->
  embeddedConfig env' = None ->
  let e := clampedEmpty env in
  let st1 := pregenerateBody env st in
  let st2 := pregenerateBody env' (freshSession (storage st1)) in
  storage st2 = storage st1 /\
  forall d, In d tiers ->
    getCachedPuzzle st2 d e = getCachedPuzzle st1 d e /\
    getCachedPuzzle st2 d e <> None.
Proof.
  intros L W C N. cbv zeta.
  destruct (pregenerateBody_live_state env st L) as (r1 & r5 & r9 & H).
  cbv zeta in H. destruct H as (_ & _ & _ & B).
  rewrite B. cbn [storage]. unfold saveToStorage. rewrite W.
  set (e := clampedEmpty env) in *.
  set (stored := {| version := 1; spEmptyTubeCount := e;
                    puzzles := [(showZ 1, liveItem r1 1 e);
                                (showZ 5, liveItem r5 5 e);
                                (showZ 9, liveItem r9 9 e)] |}).
  assert (E' : clampedEmpty env' = e).
  { unfold e, clampedEmpty. rewrite C. reflexivity. }
  assert (S : sourceOf env' (freshSession (Some stored)) = FromStorage stored).
  { unfold sourceOf, loadPuzzlesConfig. rewrite N. cbn [freshSession storage].
    rewrite E'. cbn [stored spEmptyTubeCount]. rewrite Z.eqb_refl. reflexivity. }
  rewrite (pregenerateBody_storage _ _ _ S). rewrite E'.
  rewrite (storage_fold e r1 r5 r9 stored) by reflexivity.
  cbn [storage freshSession cache]. split; [reflexivity|].
  unfold getCachedPuzzle. cbn [cache].
  destruct (three_sets e (liveItem r1 1 e) (liveItem r5 5 e) (liveItem r9 9 e) [])
    as (A1 & A5 & A9).
  destruct (three_sets e (liveItem r1 1 e) (liveItem r5 5 e) (liveItem r9 9 e)
              (cache st)) as (B1 & B5 & B9).
  cbv zeta in A1, A5, A9, B1, B5, B9.
  intros d Hd. unfold tiers in Hd. cbn [In] in Hd.
  destruct Hd as [<-|[<-|[<-|[]]]].
  - rewrite A1, B1. split; [reflexivity | discriminate].
  - rewrite A5, B5. split; [reflexivity | discriminate].
  - rewrite A9, B9. split; [reflexivity | discriminate].
Qed.

Lemma storage_round_trip_witness :
  let e := clampedEmpty env_first_start in
  let st1 := pregenerateBody env_first_start (freshSession None) in
  let st2 := pregenerateBody env_later_start (freshSession (storage st1)) in
  storage st2 = storage st1 /\
  forall d, In d tiers ->
    getCachedPuzzle st2 d e = getCachedPuzzle st1 d e /\
    getCachedPuzzle st2 d e <> None.
Proof.
  apply (storage_round_trip env_first_start env_later_start (freshSession None));
    reflexivity.
Defined.

(** X21 (scripts/generate-puzzles.ts, loadPuzzlesConfig,
    toCachedPuzzleData, pregeneratePuzzles).  The file the build script
    writes is read back as the puzzles it generated: when the start
    embeds that file and is configured with the same emptyTubeCount,
    each tier is answered with the script's puzzle for it, in the
    nested form live generation caches, and storage is not touched. *)
Theorem script_config_loads (outputEmpty : option Z) (draws : Z -> Z)
    (config : StoredPuzzles) (env : Env) (st : State) :
  generatePuzzlesScript outputEmpty draws = Generator.Ok config ->
  embeddedConfig env = Some config ->
  configValue env = Generator.orDefault outputEmpty 2 ->
  let e := clampedEmpty env in
  let st' := pregenerateBody env st in
  storage st' = storage st /\
  forall d, In d tiers ->
    exists r,
      generatePuzzleWithAdapter (draws d) (tierConfig d e) = Generator.Ok r /\
      getCachedPuzzle st' d e = Some (liveItem r d e).
Proof.
  intros G Emb C. cbv zeta.
  destruct (script_fold outputEmpty draws) as (r1 & r5 & r9 & H).
  cbv zeta in H. destruct H as (H1 & H5 & H9 & F).
  rewrite F in G. injection G as G.
  assert (E : clampedEmpty env
              = Z.max 1 (Z.min 6 (Generator.orDefault outputEmpty 2))).
  { unfold clampedEmpty. rewrite C. reflexivity. }
  rewrite <- E in *. set (e := clampedEmpty env) in *.
  assert (S : sourceOf env st = FromConfig config).
  { unfold sourceOf, loadPuzzlesConfig. rewrite Emb. fold e.
    rewrite <- G. cbn [spEmptyTubeCount]. rewrite Z.eqb_refl. reflexivity. }
  rewrite (pregenerateBody_config _ _ _ S). fold e.
  rewrite (config_fold e r1 r5 r9 config) by (rewrite <- G; reflexivity).
  cbn [storage cache]. split; [reflexivity|].
  unfold getCachedPuzzle. cbn [cache].
  destruct (three_sets e (liveItem r1 1 e) (liveItem r5 5 e) (liveItem r9 9 e)
              (cache st)) as (B1 & B5 & B9).
  cbv zeta in B1, B5, B9.
  intros d Hd. unfold tiers in Hd. cbn [In] in Hd.
  destruct Hd as [<-|[<-|[<-|[]]]].
  - exists r1. split; [exact H1 | exact B1].
  - exists r5. split; [exact H5 | exact B5].
  - exists r9. split; [exact H9 | exact B9].
Qed.

Lemma script_config_loads_witness :
  let e := clampedEmpty env_embedded in
  let st' := pregenerateBody env_embedded (freshSession None) in
  storage st' = storage (freshSession None) /\
  forall d, In d tiers ->
    exists r,
      generatePuzzleWithAdapter (script_draws d) (tierConfig d e) = Generator.Ok r /\
      getCachedPuzzle st' d e = Some (liveItem r d e).
Proof.
  apply (script_config_loads None script_draws script_output env_embedded
           (freshSession None)).
  - vm_compute. reflexivity.
  - reflexivity.
  - reflexivity.
Defined.

(** X22 (toCachedPuzzleData).  Conversion is a normalisation: whatever
    it returns is in nested form, and converting that again, with any
    fallback difficulty and emptyTubeCount, gives it back unchanged. *)
Theorem toCachedPuzzleData_idempotent (item : option JsonItem)
    (d e d' e' : Z) (parsed : JsonItem) :
  toCachedPuzzleData item d e = Some parsed ->
  hasNestedTubes parsed = true /\
  toCachedPuzzleData (Some parsed) d' e' = Some parsed.
Proof.
  unfold toCachedPuzzleData at 1. destruct item as [it|]; [|discriminate].
  destruct (hasNestedTubes it) eqn:N.
  - intro E. injection E as <-. split; [exact N|].
    unfold toCachedPuzzleData. rewrite N. reflexivity.
  - destruct (jTubes (jFlat it)) as [ts|]; [|discriminate].
    intro E. injection E as <-. split; reflexivity.
Qed.

Lemma toCachedPuzzleData_idempotent_witness :
  hasNestedTubes (liveItem AdapterExample.example_result 1 2) = true /\
  toCachedPuzzleData (Some (liveItem AdapterExample.example_result 1 2)) 9 6
  = Some (liveItem AdapterExample.example_result 1 2).
Proof.
  apply (toCachedPuzzleData_idempotent
           (Some (scriptItem AdapterExample.example_result 1 2)) 5 3 9 6).
  reflexivity.
Defined.

(** X23 (pregeneratePuzzles, body).  A run never empties a cache slot:
    a pair that was answered before the run is still answered after
    it, whatever the source. *)
Theorem pregenerate_keeps_entries (env : Env) (st : State) (d e : Z)
    (x : JsonItem) :
  getCachedPuzzle st d e = Some x ->
  exists y, getCachedPuzzle (pregenerateBody env st) d e = Some y.
Proof. apply pregenerateBody_keeps. Qed.

Lemma pregenerate_keeps_entries_witness :
  exists y,
    getCachedPuzzle (pregenerateBody env_first_start state_with_entry) 3 2 = Some y.
Proof.
  apply (pregenerate_keeps_entries env_first_start state_with_entry 3 2
           (liveItem AdapterExample.example_result 3 2)).
  reflexivity.
Defined.

(** X24 (Preloader.generatePuzzle).  After a live pregeneration the
    preloader serves a selected tier from the cache: it returns the
    entry pregeneration built for it and none of its own draws
    matters. *)
Theorem preloader_serves_cached (env : Env) (st : State) (selected : Z) :
  sourceOf env st = Live ->
  In selected tiers ->
  exists r,
    generatePuzzleWithAdapter (random env selected)
      (tierConfig selected (clampedEmpty env)) = Generator.Ok r /\
    forall rnd rndCatch,
      preloaderGeneratePuzzle env (pregenerateBody env st) selected rnd rndCatch
      = Generator.Ok (liveItem r selected (clampedEmpty env)).
Proof.
  intros L Hd.
  destruct (pregenerateBody_live_state env st L) as (r1 & r5 & r9 & H).
  cbv zeta in H. destruct H as (H1 & H5 & H9 & B).
  set (e := clampedEmpty env) in *.
  destruct (three_sets e (liveItem r1 1 e) (liveItem r5 5 e) (liveItem r9 9 e)
              (cache st)) as (B1 & B5 & B9).
  cbv zeta in B1, B5, B9.
  unfold preloaderGeneratePuzzle, getCachedPuzzle. fold (clampedEmpty env). fold e.
  rewrite B. cbn [cache].
  unfold tiers in Hd. cbn [In] in Hd.
  destruct Hd as [<-|[<-|[<-|[]]]].
  - exists r1. split; [exact H1|]. intros rnd rndCatch.
    change (Z.max 1 (Z.min 10 1)) with 1. rewrite B1. reflexivity.
  - exists r5. split; [exact H5|]. intros rnd rndCatch.
    change (Z.max 1 (Z.min 10 5)) with 5. rewrite B5. reflexivity.
  - exists r9. split; [exact H9|]. intros rnd rndCatch.
    change (Z.max 1 (Z.min 10 9)) with 9. rewrite B9. reflexivity.
Qed.

Lemma preloader_serves_cached_witness :
  exists r,
    generatePuzzleWithAdapter (random env_first_start 5)
      (tierConfig 5 (clampedEmpty env_first_start)) = Generator.Ok r /\
    forall rnd rndCatch,
      preloaderGeneratePuzzle env_first_start
        (pregenerateBody env_first_start (freshSession None)) 5 rnd rndCatch
      = Generator.Ok (liveItem r 5 (clampedEmpty env_first_start)).
Proof.
  apply (preloader_serves_cached env_first_start (freshSession None) 5).
  - reflexivity.
  - right. left. reflexivity.
Defined.

End CacheStoreExtras.
